(** * Trading-Lab analytics core: lag scan, signal backtest, volatility features

    A shallow embedding of [src/analytics/alternative_data.py] and
    [src/analytics/volatility.py], and of the symbol map and the sequence
    builder of [src/analytics/forecasting.py].

    Numbers.  The code computes on numpy [float64].  A cell is modelled by
    [f64]: an exact rational, one of the two infinities, or NaN.  The
    operations follow IEEE 754 on the special values (NaN is contagious,
    [inf - inf], [0 * inf] and [0 / 0] are NaN, [x / 0] is an infinity,
    every comparison with NaN is false); on finite values they are exact,
    so rounding, overflow, underflow and the sign of zero are outside the
    model.  [np.sqrt] and [np.log] on positive finite arguments and the
    XGBoost regressor are injected (Section variables).

    Where a result of the code hangs on a rounding, the statements are made
    so that they hold of the code as it rounds.  The positions of the
    backtest are related to the z-score and first-difference columns that
    the call itself wrote.  The split index of the learned evaluation is
    computed by a subtraction and a multiplication that are parameters of
    the program, instantiated in the examples by the binary64 floats of the
    kernel.  The conversion to float32 of the sequence builder is a
    parameter too.  A statement that needs a quotient of prices to be a
    finite number asks for prices between [2^-500] and [2^500].

    Tables.  A pandas [DataFrame] is an ordered list of named columns; a
    column is a list of [f64] cells (an integer cell is the finite value of
    that integer, a timestamp its ordinal, NaT is NaN).  The index is
    positional: every frame the code builds is indexed by row position, and
    all its column arithmetic is between columns of one frame.

    Objects.  DataFrames are mutable Python objects: the heap is a list of
    frames, a reference is a position in it, [df.copy()] allocates, and
    [df[c] = v] updates in place.  Each function is a program in a state
    and exception monad over that heap. *)

From Stdlib Require Import String Bool ZArith QArith Qround Qabs Lia Lqa List Sorted.
From Stdlib Require Floats.
Import ListNotations.
Open Scope Z_scope.

(* ------------------------------------------------------------------ *)
(** * float64 cells *)

Inductive f64 : Type :=
| NaN : f64
| PInf : f64
| NInf : f64
| Fin (q : Q) : f64.

Definition of_Z (z : Z) : f64 := Fin (inject_Z z).

Definition isnan (x : f64) : bool :=
  match x with NaN => true | _ => false end.

Definition isfinite (x : f64) : bool :=
  match x with Fin _ => true | _ => false end.

Definition Qltb (a b : Q) : bool := negb (Qle_bool b a).

Definition fopp (x : f64) : f64 :=
  match x with
  | NaN => NaN
  | PInf => NInf
  | NInf => PInf
  | Fin q => Fin (- q)
  end.

Definition fadd (x y : f64) : f64 :=
  match x, y with
  | NaN, _ | _, NaN => NaN
  | PInf, NInf | NInf, PInf => NaN
  | PInf, _ | _, PInf => PInf
  | NInf, _ | _, NInf => NInf
  | Fin a, Fin b => Fin (a + b)
  end.

Definition fsub (x y : f64) : f64 := fadd x (fopp y).

(** The infinity of the sign of [q]; NaN when [q] is zero. *)
Definition inf_signed (pos : bool) (q : Q) : f64 :=
  if Qeq_bool q 0 then NaN
  else if Bool.eqb pos (Qltb 0 q) then PInf else NInf.

Definition fmul (x y : f64) : f64 :=
  match x, y with
  | NaN, _ | _, NaN => NaN
  | PInf, PInf | NInf, NInf => PInf
  | PInf, NInf | NInf, PInf => NInf
  | PInf, Fin q | Fin q, PInf => inf_signed true q
  | NInf, Fin q | Fin q, NInf => inf_signed false q
  | Fin a, Fin b => Fin (a * b)
  end.

(** The quotient of two finite cells is the exact one: a quotient beyond
    the range of float64, which the machine turns into an infinity or into
    zero, is outside the model. *)
Definition fdiv (x y : f64) : f64 :=
  match x, y with
  | NaN, _ | _, NaN => NaN
  | Fin a, Fin b =>
      if Qeq_bool b 0 then inf_signed true a else Fin (a / b)
  | Fin _, _ => Fin 0
  | PInf, Fin b => if Qltb b 0 then NInf else PInf
  | NInf, Fin b => if Qltb b 0 then PInf else NInf
  | _, _ => NaN
  end.

Definition fabs (x : f64) : f64 :=
  match x with
  | NaN => NaN
  | PInf | NInf => PInf
  | Fin q => Fin (Qabs q)
  end.

(** [flt x y] is the comparison [x < y]; false when either side is NaN. *)
Definition flt (x y : f64) : bool :=
  match x, y with
  | NaN, _ | _, NaN => false
  | _, NInf => false
  | PInf, _ => false
  | NInf, _ => true
  | Fin _, PInf => true
  | Fin a, Fin b => Qltb a b
  end.

Definition fle (x y : f64) : bool :=
  match x, y with
  | NaN, _ | _, NaN => false
  | NInf, _ => true
  | _, PInf => true
  | _, NInf => false
  | PInf, _ => false
  | Fin a, Fin b => Qle_bool a b
  end.

(** Python spells [x > y] and [x >= y]. *)
Definition fgt (x y : f64) : bool := flt y x.
Definition fge (x y : f64) : bool := fle y x.

(** Equality of cells up to the representation of a rational; NaN is
    related to NaN (this is equality of table contents, not IEEE [==]). *)
Definition feq (x y : f64) : Prop :=
  match x, y with
  | NaN, NaN | PInf, PInf | NInf, NInf => True
  | Fin a, Fin b => a == b
  | _, _ => False
  end.

(* ------------------------------------------------------------------ *)
(** * Columns and frames *)

Definition column := list f64.
Definition frame := list (string * column).

Fixpoint zip_with {A B C} (f : A -> B -> C) (xs : list A) (ys : list B) : list C :=
  match xs, ys with
  | x :: xs', y :: ys' => f x y :: zip_with f xs' ys'
  | _, _ => []
  end.

(** Boolean-mask selection [xs[mask]]. *)
Fixpoint mask_filter {A} (mask : list bool) (xs : list A) : list A :=
  match mask, xs with
  | b :: mask', x :: xs' =>
      if b then x :: mask_filter mask' xs' else mask_filter mask' xs'
  | _, _ => []
  end.

Fixpoint get_col (c : string) (f : frame) : option column :=
  match f with
  | [] => None
  | (c', v) :: f' => if String.eqb c c' then Some v else get_col c f'
  end.

(** [df[c] = v]: an existing column is replaced where it stands, a new one
    is appended. *)
Fixpoint set_col (c : string) (v : column) (f : frame) : frame :=
  match f with
  | [] => [(c, v)]
  | (c', v') :: f' =>
      if String.eqb c c' then (c', v) :: f' else (c', v') :: set_col c v f'
  end.

Definition nrows (f : frame) : nat :=
  match f with
  | [] => 0%nat
  | (_, v) :: _ => length v
  end.

(** [df.empty]: no column or no row. *)
Definition frame_empty (f : frame) : bool :=
  match f with
  | [] => true
  | _ => Nat.eqb (nrows f) 0
  end.

(** Every column has the frame's number of rows. *)
Definition wf_frame (f : frame) : Prop :=
  Forall (fun cv => length (snd cv) = nrows f) f.

Definition filter_rows (mask : list bool) (f : frame) : frame :=
  map (fun cv => (fst cv, mask_filter mask (snd cv))) f.

(** [df[[c1; ...; ck]]]; [None] stands for the KeyError of a missing name. *)
Fixpoint select_cols (cs : list string) (f : frame) : option frame :=
  match cs with
  | [] => Some []
  | c :: cs' =>
      match get_col c f, select_cols cs' f with
      | Some v, Some r => Some ((c, v) :: r)
      | _, _ => None
      end
  end.

(** Row mask of [dropna]: true where no listed column is NaN. *)
Definition notna_mask (n : nat) (cols : list column) : list bool :=
  fold_right (fun v m => zip_with andb (map (fun x => negb (isnan x)) v) m)
             (repeat true n) cols.

(* ------------------------------------------------------------------ *)
(** * Python slices and ranges *)

(** A slice bound [i] of a sequence of length [n], as Python normalises it. *)
Definition slice_bound (n : nat) (i : Z) : nat :=
  if i <? 0 then Z.to_nat (Z.max 0 (Z.of_nat n + i))
  else Z.to_nat (Z.min i (Z.of_nat n)).

(** [xs[start:]] and [xs[:stop]]. *)
Definition slice_from {A} (start : Z) (xs : list A) : list A :=
  skipn (slice_bound (length xs) start) xs.
Definition slice_to {A} (stop : Z) (xs : list A) : list A :=
  firstn (slice_bound (length xs) stop) xs.

(** [range(a, b)]. *)
Definition py_range (a b : Z) : list Z :=
  map (fun i => a + Z.of_nat i) (seq 0 (Z.to_nat (b - a))).

(* ------------------------------------------------------------------ *)
(** * Exceptions, heap and the program monad *)

Inductive exn : Type :=
| KeyError            (* a column name that the frame lacks *)
| ValueError          (* pandas, numpy or scikit-learn rejects an argument *)
| IndexError          (* [.iloc] out of bounds *)
| ZeroDivisionError   (* Python float division by an [int] zero *)
| OverflowError       (* [int()] of an infinity *)
| ModelError          (* raised by the injected regressor *)
| BadReference.       (* a reference outside the heap: no Python program has one *)

Definition heap := list frame.
Definition loc := nat.

Definition M (A : Type) : Type := heap -> (exn + A) * heap.

Definition ret {A} (a : A) : M A := fun h => (inr a, h).
Definition raise {A} (e : exn) : M A := fun h => (inl e, h).
Definition bind {A B} (m : M A) (k : A -> M B) : M B :=
  fun h => match m h with
           | (inl e, h') => (inl e, h')
           | (inr a, h') => k a h'
           end.

Declare Scope prog_scope.
Delimit Scope prog_scope with prog.
Notation "x <- m ;; k" := (bind m (fun x => k))
  (at level 61, m at next level, right associativity) : prog_scope.
Notation "m ;; k" := (bind m (fun _ => k))
  (at level 61, right associativity) : prog_scope.
Open Scope prog_scope.

Definition lift_opt {A} (e : exn) (o : option A) : M A :=
  match o with Some a => ret a | None => raise e end.

Definition lift_res {A} (r : exn + A) : M A :=
  match r with inr a => ret a | inl e => raise e end.

Fixpoint update {A} (n : nat) (a : A) (l : list A) : list A :=
  match l, n with
  | [], _ => []
  | _ :: l', O => a :: l'
  | x :: l', S n' => x :: update n' a l'
  end.

(** A new DataFrame object. *)
Definition new_frame (f : frame) : M loc :=
  fun h => (inr (length h), h ++ [f]).

Definition deref (l : loc) : M frame :=
  fun h => match nth_error h l with
           | Some f => (inr f, h)
           | None => (inl BadReference, h)
           end.

(** In-place replacement of the object's contents. *)
Definition assign (l : loc) (f : frame) : M unit :=
  fun h => (inr tt, update l f h).

(** [df.copy()] *)
Definition df_copy (df : loc) : M loc :=
  f <- deref df ;; new_frame f.

(** [df[c]] *)
Definition getitem (df : loc) (c : string) : M column :=
  f <- deref df ;; lift_opt KeyError (get_col c f).

(** [df[c] = v] *)
Definition setitem (df : loc) (c : string) (v : column) : M unit :=
  f <- deref df ;; assign df (set_col c v f).

(** [df[[c1; ...]]] *)
Definition getitems (df : loc) (cs : list string) : M loc :=
  f <- deref df ;;
  r <- lift_opt KeyError (select_cols cs f) ;;
  new_frame r.

(** [df[mask]] *)
Definition getmask (df : loc) (mask : list bool) : M loc :=
  f <- deref df ;; new_frame (filter_rows mask f).

Fixpoint get_cols (cs : list string) (f : frame) : option (list column) :=
  match cs with
  | [] => Some []
  | c :: cs' =>
      match get_col c f, get_cols cs' f with
      | Some v, Some r => Some (v :: r)
      | _, _ => None
      end
  end.

(** [df.dropna(subset=cs)] *)
Definition dropna_subset (df : loc) (cs : list string) : M loc :=
  f <- deref df ;;
  cols <- lift_opt KeyError (get_cols cs f) ;;
  new_frame (filter_rows (notna_mask (nrows f) cols) f).

(** [df.dropna()] *)
Definition dropna (df : loc) : M loc :=
  f <- deref df ;;
  new_frame (filter_rows (notna_mask (nrows f) (map snd f)) f).

(** [df.reset_index(drop=True)]: a new object with the same cells (the
    index is positional already). *)
Definition reset_index (df : loc) : M loc := df_copy df.

(** [df.iloc[k:]] *)
Definition iloc_from (df : loc) (k : Z) : M loc :=
  f <- deref df ;;
  new_frame (map (fun cv => (fst cv, slice_from k (snd cv))) f).

(** [df.empty] *)
Definition is_empty (df : loc) : M bool :=
  f <- deref df ;; ret (frame_empty f).

(** [s.iloc[-1]] *)
Definition iloc_last (s : column) : M f64 :=
  match rev s with
  | x :: _ => ret x
  | [] => raise IndexError
  end.

(* ------------------------------------------------------------------ *)
(** * numpy and pandas on columns *)

Definition of_nat (n : nat) : f64 := of_Z (Z.of_nat n).

(** Element-wise arithmetic of two Series of one frame, and with a scalar. *)
Definition s_add_scalar (a : f64) (xs : column) : column := map (fadd a) xs.
Definition s_sub_scalar (xs : column) (a : f64) : column := map (fun x => fsub x a) xs.
Definition s_mul_scalar (xs : column) (a : f64) : column := map (fun x => fmul x a) xs.
Definition s_sub (xs ys : column) : column := zip_with fsub xs ys.
Definition s_mul (xs ys : column) : column := zip_with fmul xs ys.
Definition s_div (xs ys : column) : column := zip_with fdiv xs ys.
Definition s_abs (xs : column) : column := map fabs xs.

(** [s > a], a boolean Series. *)
Definition s_gt (xs : column) (a : f64) : list bool := map (fun x => fgt x a) xs.

(** [s.shift(periods)]: row [i] receives row [i - periods], NaN outside. *)
Definition shift (periods : Z) (xs : column) : column :=
  let n := length xs in
  if periods <? 0 then
    let k := Nat.min (Z.to_nat (- periods)) n in
    skipn k xs ++ repeat NaN k
  else
    let k := Nat.min (Z.to_nat periods) n in
    repeat NaN k ++ firstn (n - k) xs.

(** [s.diff()] *)
Definition diff (xs : column) : column := s_sub xs (shift 1 xs).

(** [s.fillna(a)] *)
Definition fillna (a : f64) (xs : column) : column :=
  map (fun x => if isnan x then a else x) xs.

Definition fsum (xs : list f64) : f64 := fold_left fadd xs (Fin 0).

Definition notna (x : f64) : bool := negb (isnan x).

(** [s.sum()], [s.mean()] and [s.std()] skip NaN; [std] has [ddof = 1]. *)
Definition s_sum (xs : column) : f64 := fsum (filter notna xs).

Definition s_mean (xs : column) : f64 :=
  let v := filter notna xs in
  match v with
  | [] => NaN
  | _ => fdiv (fsum v) (of_nat (length v))
  end.

(** Sum of the squared deviations from [m]. *)
Definition ssqdm (m : f64) (xs : list f64) : f64 :=
  fsum (map (fun x => fmul (fsub x m) (fsub x m)) xs).

(** [s.cumprod()]: NaN cells are skipped (they count as 1 and stay NaN). *)
Fixpoint np_cumprod_from (acc : f64) (xs : list f64) : list f64 :=
  match xs with
  | [] => []
  | x :: xs' => let a := fmul acc x in a :: np_cumprod_from a xs'
  end.

Definition np_cumprod (xs : list f64) : list f64 :=
  match xs with
  | [] => []
  | x :: xs' => x :: np_cumprod_from x xs'
  end.

Definition cumprod (xs : column) : column :=
  zip_with (fun x p => if isnan x then NaN else p) xs
           (np_cumprod (fillna (Fin 1) xs)).

(** [np.argmax]: the first index whose value no earlier one reaches; a NaN
    ends the scan and wins. *)
Fixpoint argmax_from (mp : f64) (mi i : nat) (xs : list f64) : nat :=
  match xs with
  | [] => mi
  | x :: xs' =>
      if negb (fle x mp) then
        if isnan x then i else argmax_from x i (S i) xs'
      else argmax_from mp mi (S i) xs'
  end.

Definition argmax (xs : list f64) : nat :=
  match xs with
  | [] => 0%nat
  | x :: xs' => if isnan x then 0%nat else argmax_from x 0 1 xs'
  end.

(** [int(x)] of a Python float. *)
Definition py_int (x : f64) : exn + Z :=
  match x with
  | NaN => inl ValueError
  | PInf | NInf => inl OverflowError
  | Fin q => inr (Z.quot (Qnum q) (Zpos (Qden q)))
  end.

(** [a / b] of a Python float by a Python int. *)
Definition py_div_int (a : Q) (b : Z) : exn + f64 :=
  if b =? 0 then inl ZeroDivisionError else inr (Fin (a / inject_Z b)).

(** The window of [s.rolling(w)] that ends at row [i]. *)
Definition window_at (w i : nat) (xs : column) : list f64 :=
  skipn (i + 1 - w) (firstn (i + 1) xs).

(** [sklearn.metrics]: inputs must be non-empty, of one length, and finite. *)
Definition check_targets (y_true y_pred : list f64) : bool :=
  Nat.eqb (length y_true) (length y_pred)
  && negb (Nat.eqb (length y_true) 0)
  && forallb isfinite y_true && forallb isfinite y_pred.

Definition mean_absolute_error (y_true y_pred : list f64) : exn + f64 :=
  if check_targets y_true y_pred then
    inr (fdiv (fsum (map fabs (zip_with fsub y_pred y_true)))
              (of_nat (length y_true)))
  else inl ValueError.

Definition mean_squared_error (y_true y_pred : list f64) : exn + f64 :=
  if check_targets y_true y_pred then
    inr (fdiv (fsum (map (fun d => fmul d d) (zip_with fsub y_true y_pred)))
              (of_nat (length y_true)))
  else inl ValueError.

(** [df.values]: the rows of a frame. *)
Definition frame_values (f : frame) : list (list f64) :=
  map (fun i => map (fun cv => nth i (snd cv) NaN) f) (seq 0 (nrows f)).

(** [df.iloc[i]]: one row, as a Series keyed by column name. *)
Definition frame_row (i : nat) (f : frame) : list (string * f64) :=
  map (fun cv => (fst cv, nth i (snd cv) NaN)) f.

Fixpoint row_get (c : string) (r : list (string * f64)) : option f64 :=
  match r with
  | [] => None
  | (c', x) :: r' => if String.eqb c c' then Some x else row_get c r'
  end.

Definition iloc_row (df : loc) (i : nat) : M (list (string * f64)) :=
  f <- deref df ;;
  if (i <? nrows f)%nat then ret (frame_row i f) else raise IndexError.

(** [df[c] = a] with a scalar [a]. *)
Definition setitem_scalar (df : loc) (c : string) (a : f64) : M unit :=
  f <- deref df ;; assign df (set_col c (repeat a (nrows f)) f).

(** [df.loc[mask, c] = a] on an existing column [c]. *)
Definition loc_setitem (df : loc) (mask : list bool) (c : string) (a : f64) : M unit :=
  f <- deref df ;;
  v <- lift_opt KeyError (get_col c f) ;;
  assign df (set_col c (zip_with (fun (b : bool) x => if b then a else x) mask v) f).

(** A loop that collects one result per element. *)
Fixpoint for_each {A B} (xs : list A) (body : A -> M B) : M (list B) :=
  match xs with
  | [] => ret []
  | x :: xs' => b <- body x ;; r <- for_each xs' body ;; ret (b :: r)
  end.

(** [pd.DataFrame(records)] for records with keys [lag] and [correlation]:
    no column at all when there is no record. *)
Definition records_frame (rs : list (Z * f64)) : frame :=
  match rs with
  | [] => []
  | _ => [("lag"%string, map (fun r => of_Z (fst r)) rs);
          ("correlation"%string, map snd rs)]
  end.

(** Result records. *)
Record best_lag_t : Type := { lag : Z; correlation : f64 }.

Record bt_metrics : Type := {
  total_return_strategy : f64;
  total_return_bh : f64;
  sharpe_like : f64;
  n_trades_periods : Z;
  lag_used : Z
}.

Record err_metrics : Type := { MAE : f64; RMSE : f64 }.

(* ------------------------------------------------------------------ *)
(** * The analytics programs *)

Section Core.

(** [np.sqrt] on a finite argument [>= 0] and [np.log] on a finite argument
    [> 0]; they are not rational functions, so they are injected. *)
Variable qsqrt : Q -> Q.
Variable qlog : Q -> Q.

(** The regressor of [xgboost_vol_forecast]: [xgb.XGBRegressor(...).fit]
    with the hyper-parameters of the source, and the prediction of a fitted
    model for one feature row. *)
Variable regressor : Type.
Variable xgb_fit : list (list f64) -> list f64 -> exn + regressor.
Variable xgb_predict : regressor -> list f64 -> f64.

Definition np_sqrt (x : f64) : f64 :=
  match x with
  | NaN | NInf => NaN
  | PInf => PInf
  | Fin q => if Qltb q 0 then NaN else Fin (qsqrt q)
  end.

Definition np_log (x : f64) : f64 :=
  match x with
  | NaN | NInf => NaN
  | PInf => PInf
  | Fin q =>
      if Qltb q 0 then NaN
      else if Qeq_bool q 0 then NInf
      else Fin (qlog q)
  end.

Definition np_mean (xs : list f64) : f64 := fdiv (fsum xs) (of_nat (length xs)).

(** [np.cov(x, y)[i, j]] with the default [ddof = 1]. *)
Definition np_cov (xs ys : list f64) : f64 :=
  let mx := np_mean xs in
  let my := np_mean ys in
  let c := fsum (zip_with fmul (map (fun x => fsub x mx) xs)
                               (map (fun y => fsub y my) ys)) in
  fmul c (fdiv (Fin 1) (of_Z (Z.max 0 (Z.of_nat (length xs) - 1)))).

(** [np.clip(x, lo, hi)] *)
Definition np_clip (lo hi x : f64) : f64 :=
  if isnan x then NaN
  else if flt x lo then lo
  else if flt hi x then hi
  else x.

(** [np.corrcoef(x, y)[0, 1]] *)
Definition np_corrcoef (xs ys : list f64) : exn + f64 :=
  if Nat.eqb (length xs) (length ys) then
    let c := np_cov xs ys in
    let sx := np_sqrt (np_cov xs xs) in
    let sy := np_sqrt (np_cov ys ys) in
    inr (np_clip (Fin (-1)) (Fin 1) (fdiv (fdiv c sx) sy))
  else inl ValueError.

(** [s.std()] *)
Definition s_std (xs : column) : f64 :=
  let v := filter notna xs in
  if (length v <=? 1)%nat then NaN
  else np_sqrt (fdiv (ssqdm (fdiv (fsum v) (of_nat (length v))) v)
                     (of_nat (length v - 1))).

(** One window of [rolling(w).mean()] and [rolling(w).std()]: pandas turns
    infinities into NaN, counts the remaining observations, and needs [w]
    of them ([min_periods = w]), and more than [ddof = 1] for [std]. *)
Definition roll_mean_at (w : nat) (win : list f64) : f64 :=
  let obs := filter isfinite win in
  let nobs := length obs in
  if (w <=? nobs)%nat && (0 <? nobs)%nat
  then fdiv (fsum obs) (of_nat nobs) else NaN.

Definition roll_std_at (w : nat) (win : list f64) : f64 :=
  let obs := filter isfinite win in
  let nobs := length obs in
  if (w <=? nobs)%nat && (1 <? nobs)%nat
  then np_sqrt (fdiv (ssqdm (fdiv (fsum obs) (of_nat nobs)) obs)
                     (of_nat (nobs - 1)))
  else NaN.

(** [s.rolling(w).mean()] and [s.rolling(w).std()]; a negative window is
    refused. *)
Definition rolling_mean (w : Z) (xs : column) : exn + column :=
  if w <? 0 then inl ValueError
  else inr (map (fun i => roll_mean_at (Z.to_nat w) (window_at (Z.to_nat w) i xs))
                (seq 0 (length xs))).

Definition rolling_std (w : Z) (xs : column) : exn + column :=
  if w <? 0 then inl ValueError
  else inr (map (fun i => roll_std_at (Z.to_nat w) (window_at (Z.to_nat w) i xs))
                (seq 0 (length xs))).

(** ** [alternative_data.py] *)

(** The two slices that lag [lag] pairs up. *)
Definition lag_pair (lag : Z) (price trend : column) : column * column :=
  if lag <? 0 then
    (slice_from (- lag) trend, slice_to (Z.of_nat (length price) + lag) price)
  else if 0 <? lag then
    (slice_to (- lag) trend, slice_from lag price)
  else (trend, price).

Definition compute_lagged_correlations (df : loc) (max_lag : Z) : M loc :=
  price <- getitem df "price" ;;
  trend <- getitem df "trend" ;;
  correlations <-
    for_each (py_range (- max_lag) (max_lag + 1)) (fun lag =>
      let '(x, y) := lag_pair lag price trend in
      corr <- (if (length x <? 5)%nat then ret NaN
               else lift_res (np_corrcoef x y)) ;;
      ret (lag, corr)) ;;
  new_frame (records_frame correlations).

Definition find_best_leading_lag (corr_df : loc) : M (option best_lag_t) :=
  lags <- getitem corr_df "lag" ;;
  positive <- getmask corr_df (s_gt lags (of_Z 0)) ;;
  leading <- dropna_subset positive ["correlation"%string] ;;
  e <- is_empty leading ;;
  if e then ret None
  else
    c <- getitem leading "correlation" ;;
    let idx := argmax (s_abs c) in
    row <- iloc_row leading idx ;;
    l <- lift_opt KeyError (row_get "lag" row) ;;
    l <- lift_res (py_int l) ;;
    c <- lift_opt KeyError (row_get "correlation" row) ;;
    ret (Some {| lag := l; correlation := c |}).

Definition backtest_trend_signal
    (df : loc) (best_lag : Z) (z_threshold : f64) (roll_window : Z)
  : M (loc * bt_metrics) :=
  df <- df_copy df ;;
  let L := best_lag in
  p1 <- getitem df "price" ;;
  p2 <- getitem df "price" ;;
  setitem df "future_ret_L" (s_sub_scalar (s_div (shift (- L) p1) p2) (Fin 1)) ;;
  t <- getitem df "trend" ;;
  m <- lift_res (rolling_mean roll_window t) ;;
  setitem df "trend_mean" m ;;
  t <- getitem df "trend" ;;
  s <- lift_res (rolling_std roll_window t) ;;
  setitem df "trend_std" s ;;
  t <- getitem df "trend" ;;
  m <- getitem df "trend_mean" ;;
  s <- getitem df "trend_std" ;;
  setitem df "trend_z" (s_div (s_sub t m) s) ;;
  t <- getitem df "trend" ;;
  setitem df "trend_slope" (diff t) ;;
  setitem_scalar df "signal" (of_Z 0) ;;
  z <- getitem df "trend_z" ;;
  sl <- getitem df "trend_slope" ;;
  loc_setitem df (zip_with andb (s_gt z z_threshold) (s_gt sl (of_Z 0)))
              "signal" (of_Z 1) ;;
  kept <- dropna_subset df ["future_ret_L"%string] ;;
  bt_df <- df_copy kept ;;
  sg <- getitem bt_df "signal" ;;
  fr <- getitem bt_df "future_ret_L" ;;
  setitem bt_df "strategy_ret" (s_mul sg fr) ;;
  fr <- getitem bt_df "future_ret_L" ;;
  setitem bt_df "bh_ret" fr ;;
  sr <- getitem bt_df "strategy_ret" ;;
  setitem bt_df "equity_strategy" (cumprod (s_add_scalar (Fin 1) sr)) ;;
  bh <- getitem bt_df "bh_ret" ;;
  setitem bt_df "equity_bh" (cumprod (s_add_scalar (Fin 1) bh)) ;;
  es <- getitem bt_df "equity_strategy" ;;
  es_last <- iloc_last es ;;
  let total_strategy := fsub es_last (Fin 1) in
  eb <- getitem bt_df "equity_bh" ;;
  eb_last <- iloc_last eb ;;
  let total_bh := fsub eb_last (Fin 1) in
  sr <- getitem bt_df "strategy_ret" ;;
  let avg := s_mean sr in
  sr <- getitem bt_df "strategy_ret" ;;
  let std := s_std sr in
  sharpe <- (if fgt std (of_Z 0) then
               y <- lift_res (py_div_int 252 L) ;;
               ret (fmul (fdiv avg std) (np_sqrt y))
             else ret NaN) ;;
  sg <- getitem bt_df "signal" ;;
  n <- lift_res (py_int (s_sum sg)) ;;
  let metrics := {| total_return_strategy := total_strategy;
                    total_return_bh := total_bh;
                    sharpe_like := sharpe;
                    n_trades_periods := n;
                    lag_used := L |} in
  out <- getitems bt_df ["ds"; "signal"; "strategy_ret"; "bh_ret";
                         "equity_strategy"; "equity_bh"]%string ;;
  ret (out, metrics).

(** ** [volatility.py] *)

(** [loaded] is the frame that [load_price_data(symbol, period, "1d")]
    returned (columns [ds] and [y]); the download itself is outside the
    model. *)
Definition compute_volatility_features
    (loaded : loc) (window_short window_long : Z) : M loc :=
  df <- df_copy loaded ;;
  y1 <- getitem df "y" ;;
  y2 <- getitem df "y" ;;
  setitem df "ret" (map np_log (s_div y1 (shift 1 y2))) ;;
  r <- getitem df "ret" ;;
  setitem df "ret" (fillna (Fin 0) r) ;;
  r <- getitem df "ret" ;;
  vs <- lift_res (rolling_std window_short r) ;;
  setitem df "vol_short" vs ;;
  r <- getitem df "ret" ;;
  vl <- lift_res (rolling_std window_long r) ;;
  setitem df "vol_long" vl ;;
  let ann_factor := np_sqrt (of_Z 252) in
  vs <- getitem df "vol_short" ;;
  setitem df "vol_short_ann" (s_mul_scalar vs ann_factor) ;;
  vl <- getitem df "vol_long" ;;
  setitem df "vol_long_ann" (s_mul_scalar vl ann_factor) ;;
  d <- dropna df ;;
  df <- reset_index d ;;
  ret df.

Definition naive_vol_forecast (df : loc) (horizon : Z) : M (loc * err_metrics) :=
  df <- df_copy df ;;
  r <- getitem df "ret" ;;
  setitem df "realized_vol_next" (shift (- horizon) (s_abs r)) ;;
  v <- getitem df "vol_long_ann" ;;
  setitem df "forecast_vol" v ;;
  d <- dropna_subset df ["realized_vol_next"; "forecast_vol"]%string ;;
  valid <- reset_index d ;;
  e <- is_empty valid ;;
  if e then ret (valid, {| MAE := NaN; RMSE := NaN |})
  else
    a <- getitem valid "realized_vol_next" ;;
    f <- getitem valid "forecast_vol" ;;
    mae <- lift_res (mean_absolute_error a f) ;;
    a <- getitem valid "realized_vol_next" ;;
    f <- getitem valid "forecast_vol" ;;
    mse <- lift_res (mean_squared_error a f) ;;
    let rmse := np_sqrt mse in
    out <- getitems valid ["ds"; "realized_vol_next"; "forecast_vol"]%string ;;
    ret (out, {| MAE := mae; RMSE := rmse |}).

Definition feature_cols : list string :=
  ["lag_ret"; "lag2_ret"; "lag_vol_short"; "lag_vol_long"]%string.

(** The learned evaluation.  Its split index
    [int(len(X) * (1 - test_size))] says how many rows train the model, and
    one rounding of the difference or of the product can carry it across an
    integer; so the two operations of that expression are the parameters
    [sub] and [mul]: the subtraction and the multiplication of float64, as
    the machine rounds them. *)
Definition xgboost_vol_forecast_with (sub mul : f64 -> f64 -> f64)
    (df : loc) (horizon : Z) (test_size : f64)
  : M (loc * err_metrics * regressor) :=
  df <- df_copy df ;;
  r <- getitem df "ret" ;;
  setitem df "realized_vol_next" (shift (- horizon) (s_abs r)) ;;
  r <- getitem df "ret" ;;
  setitem df "lag_ret" (shift 1 r) ;;
  r <- getitem df "ret" ;;
  setitem df "lag2_ret" (shift 2 r) ;;
  vs <- getitem df "vol_short_ann" ;;
  setitem df "lag_vol_short" (shift 1 vs) ;;
  vl <- getitem df "vol_long_ann" ;;
  setitem df "lag_vol_long" (shift 1 vl) ;;
  d <- dropna df ;;
  df <- reset_index d ;;
  fx <- getitems df feature_cols ;;
  fx <- deref fx ;;
  let X := frame_values fx in
  y <- getitem df "realized_vol_next" ;;
  split <- lift_res (py_int (mul (of_nat (length X)) (sub (Fin 1) test_size))) ;;
  let X_train := slice_to split X in
  let X_test := slice_from split X in
  let y_train := slice_to split y in
  let y_test := slice_from split y in
  model <- lift_res (xgb_fit X_train y_train) ;;
  let preds := map (xgb_predict model) X_test in
  mae <- lift_res (mean_absolute_error y_test preds) ;;
  mse <- lift_res (mean_squared_error y_test preds) ;;
  let rmse := np_sqrt mse in
  tail <- iloc_from df split ;;
  df_pred <- df_copy tail ;;
  setitem df_pred "forecast_vol_xgb" preds ;;
  ret (df_pred, {| MAE := mae; RMSE := rmse |}, model).

(** The learned evaluation in the exact arithmetic of [f64]. *)
Definition xgboost_vol_forecast (df : loc) (horizon : Z) (test_size : f64)
  : M (loc * err_metrics * regressor) :=
  xgboost_vol_forecast_with fsub fmul df horizon test_size.

End Core.

(* ------------------------------------------------------------------ *)
(** * The symbol map and the sequence builder of [forecasting.py] *)

(** [YF_SYMBOL_MAP], a dict, and [d.get(k, default)]. *)
Definition YF_SYMBOL_MAP : list (string * string) :=
  [("BTCUSDT", "BTC-USD"); ("ETHUSDT", "ETH-USD")]%string.

Fixpoint dict_get (k : string) (d : list (string * string)) (default : string)
  : string :=
  match d with
  | [] => default
  | (k', v) :: d' => if String.eqb k k' then v else dict_get k d' default
  end.

Definition map_to_yf_symbol (symbol : string) : string :=
  dict_get symbol YF_SYMBOL_MAP symbol.

(** [a[k]] on a one-dimensional array: a negative index counts from the
    end, an index outside the array is an IndexError. *)
Definition np_getitem (xs : list f64) (k : Z) : exn + f64 :=
  let n := Z.of_nat (length xs) in
  if (k <? - n) || (n <=? k) then inl IndexError
  else inr (nth (Z.to_nat (if k <? 0 then n + k else k)) xs NaN).

(** [a[start:stop]] *)
Definition py_slice {A} (start stop : Z) (xs : list A) : list A :=
  let a := slice_bound (length xs) start in
  let b := slice_bound (length xs) stop in
  firstn (b - a) (skipn a xs).

(** [np.array(rows, dtype="float32")] and the loop of
    [_create_lstm_sequences].  [float32] is the conversion of one cell to
    single precision (the nearest float32, an infinity when the value is
    beyond its range); it is injected, as the other numerics are. *)
Section Sequences.

Variable float32 : f64 -> f64.

(** [np.array(ys, dtype="float32")] of a list of scalars. *)
Definition np_array_float32 (ys : list f64) : list f64 := map float32 ys.

(** [np.array(rows, dtype="float32")] of a list of one-dimensional arrays:
    rows of different lengths are refused, and every cell is converted. *)
Definition np_array_rows (rows : list (list f64)) : exn + list (list f64) :=
  match rows with
  | [] => inr []
  | r :: _ =>
      if forallb (fun r' => Nat.eqb (length r') (length r)) rows
      then inr (map np_array_float32 rows) else inl ValueError
  end.

(** The loop of [_create_lstm_sequences] over the indices [ix]. *)
Fixpoint lstm_windows (values : list f64) (window_size : Z) (ix : list Z)
  : exn + (list (list f64) * list f64) :=
  match ix with
  | [] => inr ([], [])
  | i :: ix' =>
      match np_getitem values (i + window_size) with
      | inl e => inl e
      | inr target =>
          match lstm_windows values window_size ix' with
          | inl e => inl e
          | inr (X, y) =>
              inr (py_slice i (i + window_size) values :: X, target :: y)
          end
      end
  end.

Definition _create_lstm_sequences (values : list f64) (window_size : Z)
  : exn + (list (list f64) * list f64) :=
  match lstm_windows values window_size
          (py_range 0 (Z.of_nat (length values) - window_size)) with
  | inl e => inl e
  | inr (X, y) =>
      match np_array_rows X with
      | inl e => inl e
      | inr X' => inr (X', np_array_float32 y)
      end
  end.

End Sequences.

Open Scope nat_scope.

(* ------------------------------------------------------------------ *)
(** * An instance of the injected numerics, and sample tables *)

(** A square root rounded up to three decimals, a first-order logarithm,
    and a regressor that predicts the mean of its training targets. *)
Definition sqrt_up (q : Q) : Q :=
  Qred (Z.sqrt_up (Qnum q * Zpos (Qden q) * 1000000) # (Qden q * 1000)).

Definition log_approx (q : Q) : Q := Qred (2 * (q - 1) / (q + 1)).

Definition mean_fit (X : list (list f64)) (y : list f64) : exn + f64 :=
  match y with
  | [] => inl ModelError
  | _ => inr (fdiv (fsum y) (of_nat (length y)))
  end.

Definition mean_predict (model : f64) (row : list f64) : f64 := model.

(** A column of integers. *)
Definition col (zs : list Z) : column := map of_Z zs.

(** Six aligned daily rows. *)
Definition table6 : frame :=
  [("ds"%string, col [1; 2; 3; 4; 5; 6]%Z);
   ("price"%string, col [100; 101; 102; 103; 104; 105]%Z);
   ("trend"%string, col [1; 1; 2; 2; 3; 3]%Z)].

(** A lag-correlation table with a tie between the lags 1 and 3. *)
Definition corr_table : frame :=
  [("lag"%string, col [-1; 0; 1; 2; 3]%Z);
   ("correlation"%string,
    [Fin (1 # 2); Fin (9 # 10); Fin (- (7 # 10)); NaN; Fin (7 # 10)])].

(** The frame of the price loader. *)
Definition prices6 : frame :=
  [("ds"%string, col [1; 2; 3; 4; 5; 6]%Z);
   ("y"%string, col [100; 101; 102; 103; 104; 105]%Z)].

(** A feature table of eight rows, and one whose long-window volatility
    is undefined everywhere. *)
Definition features8 : frame :=
  [("ds"%string, col [1; 2; 3; 4; 5; 6; 7; 8]%Z);
   ("ret"%string, col [0; 1; -2; 3; -1; 2; -3; 1]%Z);
   ("vol_short_ann"%string, col [2; 3; 2; 4; 3; 5; 4; 3]%Z);
   ("vol_long_ann"%string, col [3; 3; 3; 4; 4; 4; 5; 5]%Z)].

Definition features_undefined : frame :=
  [("ds"%string, col [1; 2; 3]%Z);
   ("ret"%string, col [0; 1; -1]%Z);
   ("vol_long_ann"%string, [NaN; NaN; NaN])].

(** The result of a run that returned. *)
Definition returned {A} (d : A) (r : (exn + A) * heap) : A :=
  match fst r with
  | inr a => a
  | inl _ => d
  end.

Definition no_metrics : bt_metrics :=
  {| total_return_strategy := NaN; total_return_bh := NaN; sharpe_like := NaN;
     n_trades_periods := 0; lag_used := 0 |}.

(** The backtest of the six-row table at horizon 1, with two choices of
    threshold and window, and what the two runs return. *)
Definition run_a : (exn + loc * bt_metrics) * heap :=
  backtest_trend_signal sqrt_up 0 1 (Fin 0) 2 [table6].
Definition run_b : (exn + loc * bt_metrics) * heap :=
  backtest_trend_signal sqrt_up 0 1 (Fin 5) 3 [table6].

Definition out_a : loc := Eval vm_compute in fst (returned (0, no_metrics) run_a).
Definition metrics_a : bt_metrics :=
  Eval vm_compute in snd (returned (0, no_metrics) run_a).
Definition heap_a : heap := Eval vm_compute in snd run_a.

Definition out_b : loc := Eval vm_compute in fst (returned (0, no_metrics) run_b).
Definition metrics_b : bt_metrics :=
  Eval vm_compute in snd (returned (0, no_metrics) run_b).
Definition heap_b : heap := Eval vm_compute in snd run_b.

(** The columns of the six-row table, a table whose indicator never rises,
    and a feature table of three rows whose last return is infinite. *)
Definition dates6 : column := col [1; 2; 3; 4; 5; 6]%Z.
Definition close6 : column := col [100; 101; 102; 103; 104; 105]%Z.
Definition trend6 : column := col [1; 1; 2; 2; 3; 3]%Z.
Definition falling6 : column := col [3; 3; 2; 2; 1; 1]%Z.

Definition table6_falling : frame :=
  [("ds"%string, dates6); ("price"%string, close6); ("trend"%string, falling6)].

Definition features_inf : frame :=
  [("ds"%string, col [1; 2; 3]%Z);
   ("ret"%string, [Fin 0; Fin 1; NInf]);
   ("vol_long_ann"%string, col [2; 2; 2]%Z)].

(** A series of five values. *)
Definition series5 : list f64 := col [1; 2; 3; 4; 5]%Z.

(** The conversion to single precision: 24 significant bits, exponents
    from -126 on, ties to the even neighbour, an infinity from [2^128]
    on. *)
Definition Qpow2 (e : Z) : Q :=
  if (0 <=? e)%Z then inject_Z (2 ^ e) else 1 # Z.to_pos (2 ^ (- e)).

(** The exponent of the leading bit of a positive rational. *)
Definition Qlog2_floor (q : Q) : Z :=
  let e := (Z.log2 (Qnum q) - Z.log2 (Zpos (Qden q)))%Z in
  if Qle_bool (Qpow2 e) q then e else (e - 1)%Z.

(** The nearest integer of a rational that is not negative. *)
Definition round_half_even (q : Q) : Z :=
  let f := Qfloor q in
  match (q - inject_Z f ?= 1 # 2)%Q with
  | Lt => f
  | Gt => (f + 1)%Z
  | Eq => if Z.even f then f else (f + 1)%Z
  end.

Definition to_float32 (x : f64) : f64 :=
  match x with
  | Fin q =>
      if Qeq_bool q 0 then Fin 0
      else
        let a := Qabs q in
        let ulp := Qpow2 (Z.max (Qlog2_floor a) (-126) - 23) in
        let r := (inject_Z (round_half_even (a / ulp)) * ulp)%Q in
        if Qle_bool (Qpow2 128) r then (if Qltb q 0 then NInf else PInf)
        else Fin (Qred (if Qltb q 0 then - r else r))
  | _ => x
  end.

(** The subtraction and the multiplication of float64, by the primitive
    floats of the kernel (IEEE 754 binary64, round to nearest, ties to
    even).  A cell is converted to the nearest float64 and the result of
    the operation is read back exactly.  The conversion divides with one
    sticky bit below 60 quotient bits, so it is correctly rounded in the
    normal range. *)
Definition float_of_Q (q : Q) : PrimFloat.float :=
  let n := Z.abs (Qnum q) in
  let d := Zpos (Qden q) in
  if (n =? 0)%Z then PrimFloat.zero
  else
    let k := (60 + Z.log2 d - Z.log2 n)%Z in
    let num := if (0 <=? k)%Z then (n * 2 ^ k)%Z else n in
    let den := if (0 <=? k)%Z then d else (d * 2 ^ (- k))%Z in
    let m := Z.lor (num / den) (if (num mod den =? 0)%Z then 0 else 1) in
    let x := FloatOps.Z.ldexp (PrimFloat.of_uint63 (Uint63Axioms.of_Z m)) (- k) in
    if (Qnum q <? 0)%Z then PrimFloat.opp x else x.

Definition float_of_f64 (x : f64) : PrimFloat.float :=
  match x with
  | NaN => PrimFloat.nan
  | PInf => PrimFloat.infinity
  | NInf => PrimFloat.neg_infinity
  | Fin q => float_of_Q q
  end.

Definition f64_of_float (x : PrimFloat.float) : f64 :=
  match FloatOps.Prim2SF x with
  | SpecFloat.S754_zero _ => Fin 0
  | SpecFloat.S754_infinity s => if s then NInf else PInf
  | SpecFloat.S754_nan => NaN
  | SpecFloat.S754_finite s m e =>
      Fin (Qred ((if s then - (1) else 1) * (inject_Z (Zpos m) * Qpow2 e)))
  end.

Definition sub64 (x y : f64) : f64 :=
  f64_of_float (PrimFloat.sub (float_of_f64 x) (float_of_f64 y)).
Definition mul64 (x y : f64) : f64 :=
  f64_of_float (PrimFloat.mul (float_of_f64 x) (float_of_f64 y)).

(** A regressor that keeps its training set, and predicts the mean of the
    targets it has seen (0 when it has seen none). *)
Definition training_set : Type := (list (list f64) * list f64)%type.

Definition keep_fit (X : list (list f64)) (y : list f64) : exn + training_set :=
  inr (X, y).

Definition keep_predict (model : training_set) (row : list f64) : f64 :=
  match snd model with
  | [] => Fin 0
  | y => fdiv (fsum y) (of_nat (length y))
  end.

(** A feature table of thirteen rows. *)
Definition features13 : frame :=
  [("ds"%string, col [1; 2; 3; 4; 5; 6; 7; 8; 9; 10; 11; 12; 13]%Z);
   ("ret"%string, col [0; 1; -2; 3; -1; 2; -3; 1; 2; -1; 1; -2; 1]%Z);
   ("vol_short_ann"%string, col [2; 3; 2; 4; 3; 5; 4; 3; 2; 3; 4; 3; 2]%Z);
   ("vol_long_ann"%string, col [3; 3; 3; 4; 4; 4; 5; 5; 4; 4; 3; 3; 3]%Z)].

(** The learned evaluation in float64: of the eight-row feature table with
    a test fraction of 1/5, and of the thirteen-row table with a test
    fraction of 9/10; and what the two runs return. *)
Definition run_m : (exn + loc * err_metrics * f64) * heap :=
  xgboost_vol_forecast_with sqrt_up f64 mean_fit mean_predict sub64 mul64
                            0 1 (Fin (1 # 5)) [features8].

Definition no_result : loc * err_metrics * f64 :=
  (0, {| MAE := NaN; RMSE := NaN |}, NaN).

Definition out_m : loc := Eval vm_compute in fst (fst (returned no_result run_m)).
Definition metrics_m : err_metrics :=
  Eval vm_compute in snd (fst (returned no_result run_m)).
Definition model_m : f64 := Eval vm_compute in snd (returned no_result run_m).
Definition heap_m : heap := Eval vm_compute in snd run_m.

Definition run_s : (exn + loc * err_metrics * training_set) * heap :=
  xgboost_vol_forecast_with sqrt_up training_set keep_fit keep_predict
                            sub64 mul64 0 1 (Fin (9 # 10)) [features13].

Definition no_training : loc * err_metrics * training_set :=
  (0, {| MAE := NaN; RMSE := NaN |}, ([[NaN]], [NaN])).

Definition out_s : loc := Eval vm_compute in fst (fst (returned no_training run_s)).
Definition metrics_s : err_metrics :=
  Eval vm_compute in snd (fst (returned no_training run_s)).
Definition model_s : training_set :=
  Eval vm_compute in snd (returned no_training run_s).
Definition heap_s : heap := Eval vm_compute in snd run_s.

(** The columns of the eight-row feature table. *)
Definition dates8 : column := col [1; 2; 3; 4; 5; 6; 7; 8]%Z.
Definition ret8 : column := col [0; 1; -2; 3; -1; 2; -3; 1]%Z.
Definition vol_short8 : column := col [2; 3; 2; 4; 3; 5; 4; 3]%Z.
Definition vol_long8 : column := col [3; 3; 3; 4; 4; 4; 5; 5]%Z.

(* ------------------------------------------------------------------ *)
(** * What the programs compute *)

Section Theory.

Variable qsqrt : Q -> Q.
Variable qlog : Q -> Q.
Variable regressor : Type.
Variable xgb_fit : list (list f64) -> list f64 -> exn + regressor.
Variable xgb_predict : regressor -> list f64 -> f64.

(** What is assumed of the injected square root: it vanishes exactly at
    zero. *)
Hypothesis qsqrt_zero : forall q : Q, (q == 0)%Q -> (qsqrt q == 0)%Q.
Hypothesis qsqrt_eq0 : forall q : Q, (0 <= q)%Q -> (qsqrt q == 0)%Q -> (q == 0)%Q.

(** ** The columns, tables and predicates of the statements *)

(** *** The backtest *)

(** The forward return over [L] rows; the rolling mean, the rolling standard
    deviation and the z-score of the indicator; the entry decision of each
    row and the position column before rows are dropped. *)
Definition future_ret (L : Z) (price : column) : column :=
  s_sub_scalar (s_div (shift (- L) price) price) (Fin 1).

Definition roll_mean_col (w : Z) (xs : column) : column :=
  map (fun i => roll_mean_at (Z.to_nat w) (window_at (Z.to_nat w) i xs))
      (seq 0 (length xs)).

Definition roll_std_col (w : Z) (xs : column) : column :=
  map (fun i => roll_std_at qsqrt (Z.to_nat w) (window_at (Z.to_nat w) i xs))
      (seq 0 (length xs)).

Definition trend_z (w : Z) (trend : column) : column :=
  s_div (s_sub trend (roll_mean_col w trend)) (roll_std_col w trend).

Definition entry_mask (thr : f64) (w : Z) (trend : column) : list bool :=
  zip_with andb (s_gt (trend_z w trend) thr) (s_gt (diff trend) (of_Z 0)).

Definition signal_col (thr : f64) (w : Z) (trend : column) : column :=
  zip_with (fun (b : bool) x => if b then of_Z 1 else x)
           (entry_mask thr w trend) (repeat (of_Z 0) (length trend)).

(** Rows with a forward return. *)
Definition bt_keep (L : Z) (price : column) : list bool :=
  map notna (future_ret L price).

(** The columns of the returned table. *)
Definition bt_signal L thr w price trend : column :=
  mask_filter (bt_keep L price) (signal_col thr w trend).
Definition bt_bh_ret L price : column :=
  mask_filter (bt_keep L price) (future_ret L price).
Definition bt_strategy_ret L thr w price trend : column :=
  s_mul (bt_signal L thr w price trend) (bt_bh_ret L price).
Definition equity (rets : column) : column :=
  cumprod (s_add_scalar (Fin 1) rets).

(** The metrics block, as a function of the columns it reads. *)
Definition bt_summary (L : Z) (es eb sr sg : column) : exn + bt_metrics :=
  match rev es, rev eb with
  | es_last :: _, eb_last :: _ =>
      let avg := s_mean sr in
      let std := s_std qsqrt sr in
      match (if fgt std (of_Z 0) then
               match py_div_int 252 L with
               | inr y => inr (fmul (fdiv avg std) (np_sqrt qsqrt y))
               | inl e => inl e
               end
             else inr NaN), py_int (s_sum sg) with
      | inr sharpe, inr n =>
          inr {| total_return_strategy := fsub es_last (Fin 1);
                 total_return_bh := fsub eb_last (Fin 1);
                 sharpe_like := sharpe;
                 n_trades_periods := n;
                 lag_used := L |}
      | inl e, _ => inl e
      | _, inl e => inl e
      end
  | _, _ => inl IndexError
  end.

(** The table that the backtest returns. *)
Definition bt_table (L : Z) (thr : f64) (w : Z) (ds price trend : column) : frame :=
  [("ds"%string, mask_filter (bt_keep L price) ds);
   ("signal"%string, bt_signal L thr w price trend);
   ("strategy_ret"%string, bt_strategy_ret L thr w price trend);
   ("bh_ret"%string, bt_bh_ret L price);
   ("equity_strategy"%string, equity (bt_strategy_ret L thr w price trend));
   ("equity_bh"%string, equity (bt_bh_ret L price))].

(** The sum of a list of rationals. *)
Definition Qsum (qs : list Q) : Q := fold_left Qplus qs 0%Q.

(** A position: flat or long. *)
Definition is_position (x : f64) : Prop := x = of_Z 0 \/ x = of_Z 1.

(** A cell above zero. *)
Definition fpos (x : f64) : Prop := flt (Fin 0) x = true.

(** A price that a forward return can be computed from: finite, not zero. *)
Definition good_price (x : f64) : bool :=
  match x with
  | Fin q => negb (Qeq_bool q 0)
  | _ => false
  end.

(** An equity curve [eq] of the period returns [rets]. *)
Definition compounds (rets eq : column) : Prop :=
  eq = cumprod (s_add_scalar (Fin 1) rets) /\
  length eq = length rets /\
  (rets <> [] -> nth 0 eq NaN = fadd (Fin 1) (nth 0 rets NaN)) /\
  (forallb notna rets = true ->
   forall i, i < length rets ->
     feq (nth i eq NaN)
         (fold_left fmul (map (fadd (Fin 1)) (firstn (S i) rets)) (Fin 1))) /\
  (Forall (fun r => flt (Fin (-1)) r = true) rets ->
   Forall (fun e => fle (Fin 0) e = true) eq).

(** Cells that are a zero. *)
Definition fzero (x : f64) : Prop := feq x (Fin 0).

(** *** The lag scan and the best leading lag *)

(** The value of [np.corrcoef(x, y)[0, 1]] for two samples of one length:
    the Pearson correlation. *)
Definition pearson (xs ys : list f64) : f64 :=
  np_clip (Fin (-1)) (Fin 1)
          (fdiv (fdiv (np_cov xs ys) (np_sqrt qsqrt (np_cov xs xs)))
                (np_sqrt qsqrt (np_cov ys ys))).

(** The pairing that the specification describes, for a table of [n] rows:
    at [lag > 0] the indicator rows [0 .. n-lag) against the price rows
    [lag .. n); at [lag < 0] the indicator rows [|lag| .. n) against the
    price rows [0 .. n-|lag|); the whole columns at lag 0. *)
Definition lagged_pairs (lag : Z) (price trend : column) : column * column :=
  let n := length price in
  let k := Z.abs_nat lag in
  if (0 <? lag)%Z then (firstn (n - k) trend, skipn k price)
  else if (lag <? 0)%Z then (skipn k trend, firstn (n - k) price)
  else (trend, price).

(** The number of paired rows at a lag. *)
Definition overlap (n : nat) (lag : Z) : nat := n - Z.abs_nat lag.

(** The correlation recorded for one lag. *)
Definition lag_correlation (lag : Z) (price trend : column) : f64 :=
  if overlap (length price) lag <? 5 then NaN
  else pearson (fst (lagged_pairs lag price trend))
               (snd (lagged_pairs lag price trend)).

(** The lags of a scan, in the order of the table. *)
Definition scan_lags (max_lag : Z) : list Z := py_range (- max_lag) (max_lag + 1).

(** The entries that qualify: a positive lag and a defined correlation. *)
Definition leading_rows (lags corrs : column) : list (f64 * f64) :=
  filter (fun p => notna (snd p))
         (filter (fun p => fgt (fst p) (of_Z 0)) (combine lags corrs)).

(** The strongest of the qualifying entries: the first one of maximal
    absolute correlation. *)
Definition best_of (rows : list (f64 * f64)) : exn + option best_lag_t :=
  match rows with
  | [] => inr None
  | _ =>
      let idx := argmax (s_abs (map snd rows)) in
      match py_int (nth idx (map fst rows) NaN) with
      | inr l => inr (Some {| lag := l; correlation := nth idx (map snd rows) NaN |})
      | inl e => inl e
      end
  end.

(** Entries with an integer lag that qualify. *)
Definition leading_entries (lags : list Z) (corrs : column) : list (Z * f64) :=
  filter (fun p => (0 <? fst p)%Z && notna (snd p)) (combine lags corrs).

(** A leading entry: a positive lag and a defined correlation. *)
Definition qualifies (l : Z) (c : f64) : Prop := (0 < l)%Z /\ isnan c = false.

(** *** Volatility features and forecasts *)

(** The realized target of the forecasts: the absolute return [horizon]
    rows ahead. *)
Definition realized_vol_next (horizon : Z) (ret_col : column) : column :=
  shift (- horizon) (s_abs ret_col).

(** A price from which a log return can be taken: finite and positive. *)
Definition pos_price (x : f64) : bool :=
  match x with
  | Fin q => Qltb 0 q
  | _ => false
  end.

(** A price between [2^-500] and [2^500].  The quotient of two such prices
    is between [2^-1000] and [2^1000]: as a float64 it is finite and not
    zero, since float64 reaches [2^1024] and its normal numbers start at
    [2^-1022].  (Overflow is outside the model; a statement that needs a
    quotient of prices to stay a finite number asks for this range.) *)
Definition price_bound : Q := inject_Z (2 ^ 500).

Definition in_range (x : f64) : bool :=
  match x with
  | Fin q => Qle_bool (/ price_bound) q && Qle_bool q price_bound
  | _ => false
  end.

(** The log-return column. *)
Definition log_returns (y : column) : column :=
  fillna (Fin 0) (map (np_log qlog) (s_div y (shift 1 y))).

(** The annualization factor [np.sqrt(252)]. *)
Definition ann_factor : f64 := np_sqrt qsqrt (of_Z 252).

(** The frame of features before incomplete rows are dropped, for the
    loader's frame of columns [ds] and [y]. *)
Definition features_frame (ds y : column) (ws wl : Z) : frame :=
  let r := log_returns y in
  [("ds"%string, ds); ("y"%string, y); ("ret"%string, r);
   ("vol_short"%string, roll_std_col ws r);
   ("vol_long"%string, roll_std_col wl r);
   ("vol_short_ann"%string, s_mul_scalar (roll_std_col ws r) ann_factor);
   ("vol_long_ann"%string, s_mul_scalar (roll_std_col wl r) ann_factor)].

(** The frame of [xgboost_vol_forecast] after the target and the lagged
    features have been written to the copy. *)
Definition xgb_frame (f : frame) (r vs vl : column) (horizon : Z) : frame :=
  set_col "lag_vol_long" (shift 1 vl)
    (set_col "lag_vol_short" (shift 1 vs)
       (set_col "lag2_ret" (shift 2 r)
          (set_col "lag_ret" (shift 1 r)
             (set_col "realized_vol_next" (realized_vol_next horizon r) f)))).

(** The rows that [dropna] keeps. *)
Definition xgb_mask (f : frame) (r vs vl : column) (horizon : Z) : list bool :=
  let D := xgb_frame f r vs vl horizon in
  notna_mask (nrows D) (map snd D).

(** Split, fit, predict and score, as a function of the feature rows and
    the targets, in the arithmetic [sub], [mul] and in the exact one. *)
Definition xgb_eval_with (sub mul : f64 -> f64 -> f64)
    (X : list (list f64)) (y : column) (test_size : f64)
  : exn + (Z * list f64 * err_metrics * regressor) :=
  match py_int (mul (of_nat (length X)) (sub (Fin 1) test_size)) with
  | inl e => inl e
  | inr split =>
      match xgb_fit (slice_to split X) (slice_to split y) with
      | inl e => inl e
      | inr model =>
          let preds := map (xgb_predict model) (slice_from split X) in
          match mean_absolute_error (slice_from split y) preds,
                mean_squared_error (slice_from split y) preds with
          | inr mae, inr mse =>
              inr (split, preds, {| MAE := mae; RMSE := np_sqrt qsqrt mse |}, model)
          | inl e, _ => inl e
          | _, inl e => inl e
          end
      end
  end.

Definition xgb_eval (X : list (list f64)) (y : column) (test_size : f64)
  : exn + (Z * list f64 * err_metrics * regressor) :=
  xgb_eval_with fsub fmul X y test_size.

(** The feature matrix, by columns. *)
Definition xgb_features (f : frame) (r vs vl : column) (horizon : Z) : frame :=
  let mask := xgb_mask f r vs vl horizon in
  [("lag_ret"%string, mask_filter mask (shift 1 r));
   ("lag2_ret"%string, mask_filter mask (shift 2 r));
   ("lag_vol_short"%string, mask_filter mask (shift 1 vs));
   ("lag_vol_long"%string, mask_filter mask (shift 1 vl))].

(** The original positions of the rows that a mask keeps. *)
Definition kept_rows (mask : list bool) : list nat :=
  filter (fun i => nth i mask false) (seq 0 (length mask)).

(** *** Objects that a call leaves alone *)

(** The heap [h] holds the objects of [h0], as they were, and possibly
    newer ones. *)
Definition extends (h0 h : heap) : Prop := exists l, h = h0 ++ l.

(** An object created since the call. *)
Definition newloc (h0 : heap) (a : loc) (h : heap) : Prop :=
  length h0 <= a /\ a < length h.

(** Run from a heap that extends [h0], the program [m] keeps the objects of
    [h0], does not shrink the heap, and what it returns satisfies [Q]. *)
Definition safe_at {A} (h0 h : heap) (m : M A) (Q : A -> heap -> Prop) : Prop :=
  extends h0 h ->
  extends h0 (snd (m h)) /\
  length h <= length (snd (m h)) /\
  forall a, fst (m h) = inr a -> Q a (snd (m h)).

(** No condition on what is returned. *)
Definition any {A} : A -> heap -> Prop := fun _ _ => True.

(** A call leaves every object of the heap as it was, and the table that
    it returns is an object created by the call. *)
Definition leaves_alone {A} (m : M A) (loc_of : A -> loc) : Prop :=
  forall h,
    (forall l f, nth_error h l = Some f -> nth_error (snd (m h)) l = Some f) /\
    (forall a, fst (m h) = inr a ->
       length h <= loc_of a /\ loc_of a < length (snd (m h))).

(** *** Further predicates of the statements *)

(** A row on which the strategy is in the market. *)
Definition in_market (x : f64) : bool := flt (Fin 0) x.

(** The rows of the naive evaluation that have both a realized target and
    a forecast. *)
Definition naive_mask (horizon : Z) (r v : column) : list bool :=
  zip_with andb (map notna (realized_vol_next horizon r)) (map notna v).

(* ------------------------------------------------------------------ *)
(** * Lists, frames and the heap: basic facts *)

Lemma zip_with_length {A B C} (f : A -> B -> C) xs ys :
  length (zip_with f xs ys) = Nat.min (length xs) (length ys).
Proof.
  revert ys; induction xs as [|x xs IH]; intros [|y ys]; simpl; auto.
Qed.

Lemma nth_zip_with {A B C} (f : A -> B -> C) xs ys i da db dc :
  (i < length xs)%nat -> (i < length ys)%nat ->
  nth i (zip_with f xs ys) dc = f (nth i xs da) (nth i ys db).
Proof.
  revert ys i; induction xs as [|x xs IH]; intros [|y ys] [|i]; simpl;
    intros; try lia; auto.
  apply IH; lia.
Qed.

Lemma nth_map_in {A B} (f : A -> B) xs i da db :
  (i < length xs)%nat -> nth i (map f xs) db = f (nth i xs da).
Proof.
  revert i; induction xs as [|x xs IH]; intros [|i]; simpl; intros;
    try lia; auto.
  apply IH; lia.
Qed.

Lemma get_col_set_col_eq c v f : get_col c (set_col c v f) = Some v.
Proof.
  induction f as [|[c' v'] f IH]; simpl.
  - now rewrite String.eqb_refl.
  - destruct (String.eqb c c') eqn:E; simpl; rewrite E; auto.
Qed.

Lemma get_col_set_col_ne c c' v f :
  String.eqb c c' = false -> get_col c (set_col c' v f) = get_col c f.
Proof.
  intros Hne; induction f as [|[d w] f IH]; simpl.
  - now rewrite Hne.
  - destruct (String.eqb c' d) eqn:E; simpl.
    + apply String.eqb_eq in E; subst d. now rewrite Hne.
    + destruct (String.eqb c d); auto.
Qed.

Lemma get_col_filter_rows c mask f :
  get_col c (filter_rows mask f) = option_map (mask_filter mask) (get_col c f).
Proof.
  induction f as [|[d w] f IH]; simpl; auto.
  destruct (String.eqb c d); auto.
Qed.

Lemma nth_error_new {A} (h l : list A) k :
  nth_error (h ++ l) (length h + k) = nth_error l k.
Proof.
  rewrite nth_error_app2 by lia. f_equal; lia.
Qed.

Lemma update_new {A} (h l : list A) k a :
  update (length h + k) a (h ++ l) = h ++ update k a l.
Proof.
  induction h as [|x h IH]; simpl; auto. now rewrite IH.
Qed.

Lemma update_length {A} k (a : A) l : length (update k a l) = length l.
Proof.
  revert k; induction l as [|x l IH]; intros [|k]; simpl; auto.
Qed.

Lemma nth_error_update_ne {A} k j (a : A) l :
  k <> j -> nth_error (update k a l) j = nth_error l j.
Proof.
  revert k j; induction l as [|x l IH]; intros [|k] [|j] Hne; simpl; auto.
  congruence.
Qed.

(** ** Running the primitives on a heap [h ++ l]

    [h] is the heap at the call, [l] the objects created since; a new
    object is [length h + k] for a literal [k]. *)

Section Run.
Local Open Scope nat_scope.
Context {B : Type}.
Variables h l : heap.

Lemma bind_ret {A} (a : A) (K : A -> M B) s : bind (ret a) K s = K a s.
Proof. reflexivity. Qed.

Lemma run_df_copy_old df f (K : loc -> M B) :
  nth_error h df = Some f ->
  bind (df_copy df) K h = K (length h + 0)%nat (h ++ [f]).
Proof.
  intros Hf. unfold df_copy, bind, deref, new_frame. rewrite Hf.
  now rewrite Nat.add_0_r.
Qed.

Lemma run_new_frame f (K : loc -> M B) :
  bind (new_frame f) K (h ++ l) = K (length h + length l)%nat (h ++ (l ++ [f])).
Proof.
  unfold bind, new_frame. now rewrite length_app, app_assoc.
Qed.

Lemma run_deref k f (K : frame -> M B) :
  nth_error l k = Some f ->
  bind (deref (length h + k)) K (h ++ l) = K f (h ++ l).
Proof.
  intros Hf. unfold bind, deref. now rewrite nth_error_new, Hf.
Qed.

Lemma run_assign k f (K : unit -> M B) :
  bind (assign (length h + k) f) K (h ++ l) = K tt (h ++ update k f l).
Proof.
  unfold bind, assign. now rewrite update_new.
Qed.

Lemma run_df_copy k f (K : loc -> M B) :
  nth_error l k = Some f ->
  bind (df_copy (length h + k)) K (h ++ l)
  = K (length h + length l)%nat (h ++ (l ++ [f])).
Proof.
  intros Hf. unfold df_copy, bind, deref, new_frame.
  rewrite nth_error_new, Hf. now rewrite length_app, app_assoc.
Qed.

Lemma run_getitem k f c v (K : column -> M B) :
  nth_error l k = Some f -> get_col c f = Some v ->
  bind (getitem (length h + k) c) K (h ++ l) = K v (h ++ l).
Proof.
  intros Hf Hv. unfold getitem, bind, deref.
  rewrite nth_error_new, Hf, Hv. reflexivity.
Qed.

Lemma run_setitem k f c v (K : unit -> M B) :
  nth_error l k = Some f ->
  bind (setitem (length h + k) c v) K (h ++ l)
  = K tt (h ++ update k (set_col c v f) l).
Proof.
  intros Hf. unfold setitem, bind, deref, assign.
  rewrite nth_error_new, Hf. now rewrite update_new.
Qed.

Lemma run_setitem_scalar k f c a (K : unit -> M B) :
  nth_error l k = Some f ->
  bind (setitem_scalar (length h + k) c a) K (h ++ l)
  = K tt (h ++ update k (set_col c (repeat a (nrows f)) f) l).
Proof.
  intros Hf. unfold setitem_scalar, bind, deref, assign.
  rewrite nth_error_new, Hf. now rewrite update_new.
Qed.

Lemma run_loc_setitem k f mask c a v (K : unit -> M B) :
  nth_error l k = Some f -> get_col c f = Some v ->
  bind (loc_setitem (length h + k) mask c a) K (h ++ l)
  = K tt (h ++ update k
            (set_col c (zip_with (fun (b : bool) x => if b then a else x) mask v) f) l).
Proof.
  intros Hf Hv. unfold loc_setitem, bind, deref, assign.
  rewrite nth_error_new, Hf, Hv. simpl. now rewrite update_new.
Qed.

Lemma run_dropna_subset k f cs cols (K : loc -> M B) :
  nth_error l k = Some f -> get_cols cs f = Some cols ->
  bind (dropna_subset (length h + k) cs) K (h ++ l)
  = K (length h + length l)%nat
      (h ++ (l ++ [filter_rows (notna_mask (nrows f) cols) f])).
Proof.
  intros Hf Hc. unfold dropna_subset, bind, deref, new_frame.
  rewrite nth_error_new, Hf, Hc. simpl. now rewrite length_app, app_assoc.
Qed.

Lemma run_dropna k f (K : loc -> M B) :
  nth_error l k = Some f ->
  bind (dropna (length h + k)) K (h ++ l)
  = K (length h + length l)%nat
      (h ++ (l ++ [filter_rows (notna_mask (nrows f) (map snd f)) f])).
Proof.
  intros Hf. unfold dropna, bind, deref, new_frame.
  rewrite nth_error_new, Hf. now rewrite length_app, app_assoc.
Qed.

Lemma run_getitems k f cs r (K : loc -> M B) :
  nth_error l k = Some f -> select_cols cs f = Some r ->
  bind (getitems (length h + k) cs) K (h ++ l)
  = K (length h + length l)%nat (h ++ (l ++ [r])).
Proof.
  intros Hf Hr. unfold getitems, bind, deref, new_frame.
  rewrite nth_error_new, Hf, Hr. simpl. now rewrite length_app, app_assoc.
Qed.

Lemma run_getmask k f mask (K : loc -> M B) :
  nth_error l k = Some f ->
  bind (getmask (length h + k) mask) K (h ++ l)
  = K (length h + length l)%nat (h ++ (l ++ [filter_rows mask f])).
Proof.
  intros Hf. unfold getmask, bind, deref, new_frame.
  rewrite nth_error_new, Hf. now rewrite length_app, app_assoc.
Qed.

Lemma run_iloc_from k f j (K : loc -> M B) :
  nth_error l k = Some f ->
  bind (iloc_from (length h + k) j) K (h ++ l)
  = K (length h + length l)%nat
      (h ++ (l ++ [map (fun cv => (fst cv, slice_from j (snd cv))) f])).
Proof.
  intros Hf. unfold iloc_from, bind, deref, new_frame.
  rewrite nth_error_new, Hf. now rewrite length_app, app_assoc.
Qed.

Lemma run_is_empty k f (K : bool -> M B) :
  nth_error l k = Some f ->
  bind (is_empty (length h + k)) K (h ++ l) = K (frame_empty f) (h ++ l).
Proof.
  intros Hf. unfold is_empty, bind, deref, ret.
  now rewrite nth_error_new, Hf.
Qed.

Lemma run_lift_res {A} (a : A) (K : A -> M B) s :
  bind (lift_res (inr a)) K s = K a s.
Proof. reflexivity. Qed.

Lemma run_lift_opt {A} e (a : A) (K : A -> M B) s :
  bind (lift_opt e (Some a)) K s = K a s.
Proof. reflexivity. Qed.

End Run.

(** Failing steps. *)
Lemma run_raise {A B} e (K : A -> M B) s : bind (raise e) K s = (inl e, s).
Proof. reflexivity. Qed.

Lemma run_lift_res_err {A B} e (K : A -> M B) s :
  bind (lift_res (inl e)) K s = (inl e, s).
Proof. reflexivity. Qed.

Lemma run_deref_old {B} (h : heap) df f (K : frame -> M B) :
  nth_error h df = Some f -> bind (deref df) K h = K f h.
Proof. intros Hf. unfold bind, deref. now rewrite Hf. Qed.

Lemma run_getitem_old {B} (h : heap) df f c v (K : column -> M B) :
  nth_error h df = Some f -> get_col c f = Some v ->
  bind (getitem df c) K h = K v h.
Proof. intros Hf Hv. unfold getitem, bind, deref. now rewrite Hf, Hv. Qed.

Lemma run_getitem_missing {B} (h l : heap) k f c (K : column -> M B) :
  nth_error l k = Some f -> get_col c f = None ->
  bind (getitem (length h + k) c) K (h ++ l) = (inl KeyError, h ++ l).
Proof.
  intros Hf Hv. unfold getitem, bind, deref.
  rewrite nth_error_new, Hf, Hv. reflexivity.
Qed.

Lemma run_getitems_missing {B} (h l : heap) k f cs (K : loc -> M B) :
  nth_error l k = Some f -> select_cols cs f = None ->
  bind (getitems (length h + k) cs) K (h ++ l) = (inl KeyError, h ++ l).
Proof.
  intros Hf Hv. unfold getitems, bind, deref.
  rewrite nth_error_new, Hf, Hv. reflexivity.
Qed.

(** ** Shape of frames *)

Lemma shift_length k xs : length (shift k xs) = length xs.
Proof.
  unfold shift. destruct (k <? 0)%Z.
  - rewrite length_app, length_skipn, repeat_length. lia.
  - rewrite length_app, length_firstn, repeat_length. lia.
Qed.

Lemma mask_filter_map {A B} (g : A -> B) mask xs :
  mask_filter mask (map g xs) = map g (mask_filter mask xs).
Proof.
  revert xs; induction mask as [|b mask IH]; intros [|x xs]; simpl; auto.
  destruct b; simpl; now rewrite IH.
Qed.

Lemma mask_filter_zip_with {A B C} (g : A -> B -> C) mask xs ys :
  mask_filter mask (zip_with g xs ys)
  = zip_with g (mask_filter mask xs) (mask_filter mask ys).
Proof.
  revert xs ys; induction mask as [|b mask IH]; intros [|x xs] [|y ys];
    simpl; auto; destruct b; simpl; rewrite ?IH; auto;
    now destruct (mask_filter mask xs).
Qed.

Lemma get_col_wf c f v : wf_frame f -> get_col c f = Some v -> length v = nrows f.
Proof.
  unfold wf_frame. intros Hwf Hg.
  assert (forall g, Forall (fun cv => length (snd cv) = nrows f) g ->
                    get_col c g = Some v -> length v = nrows f) as Hgen.
  { induction g as [|[d w] g IH]; simpl; intros Hall Hc; [discriminate|].
    inversion Hall; subst. destruct (String.eqb c d).
    - now inversion Hc; subst.
    - auto. }
  eauto.
Qed.

Lemma nrows_set_col c v f :
  f <> [] -> length v = nrows f -> nrows (set_col c v f) = nrows f.
Proof.
  destruct f as [|[d w] f]; [congruence|]. simpl.
  destruct (String.eqb c d); simpl; auto.
Qed.

Lemma set_col_not_nil c v f : set_col c v f <> [].
Proof.
  destruct f as [|[d w] f]; simpl; [discriminate|].
  destruct (String.eqb c d); discriminate.
Qed.

Lemma all_len_set_col n c v f :
  Forall (fun cv : string * column => length (snd cv) = n) f -> length v = n ->
  Forall (fun cv : string * column => length (snd cv) = n) (set_col c v f).
Proof.
  intros Hall Hv. induction f as [|[d w] f IH]; simpl.
  - constructor; auto.
  - inversion Hall; subst. destruct (String.eqb c d); constructor; auto.
Qed.

Lemma wf_set_col c v f :
  wf_frame f -> f <> [] -> length v = nrows f -> wf_frame (set_col c v f).
Proof.
  intros Hwf Hne Hlen. unfold wf_frame.
  rewrite (nrows_set_col c v f Hne Hlen). now apply all_len_set_col.
Qed.

(** ** The columns of the backtest *)

Lemma bind_assoc {A B C} (m : M A) (k1 : A -> M B) (k2 : B -> M C) s :
  bind (bind m k1) k2 s = bind m (fun x => bind (k1 x) k2) s.
Proof. unfold bind. now destruct (m s) as [[e|a] s']. Qed.

Lemma nrows_set_col_n c v f n :
  f <> [] -> nrows f = n -> length v = n -> nrows (set_col c v f) = n.
Proof. intros Hne Hn Hv. rewrite nrows_set_col; congruence. Qed.

Lemma get_col_not_nil c f v : get_col c f = Some v -> f <> [].
Proof. destruct f; simpl; congruence. Qed.

Lemma notna_mask_one n v :
  length v = n -> notna_mask n [v] = map notna v.
Proof.
  intros <-. unfold notna_mask. simpl. fold notna.
  induction v as [|x v IH]; simpl; auto.
  rewrite IH. now rewrite andb_true_r.
Qed.

Lemma roll_mean_col_length w xs : length (roll_mean_col w xs) = length xs.
Proof. unfold roll_mean_col. now rewrite length_map, length_seq. Qed.

Lemma roll_std_col_length w xs : length (roll_std_col w xs) = length xs.
Proof. unfold roll_std_col. now rewrite length_map, length_seq. Qed.

Lemma diff_length xs : length (diff xs) = length xs.
Proof.
  unfold diff, s_sub. rewrite zip_with_length, shift_length. lia.
Qed.

Lemma future_ret_length L price : length (future_ret L price) = length price.
Proof.
  unfold future_ret, s_sub_scalar, s_div.
  rewrite length_map, zip_with_length, shift_length. lia.
Qed.

Lemma trend_z_length w xs : length (trend_z w xs) = length xs.
Proof.
  unfold trend_z, s_div, s_sub.
  rewrite !zip_with_length, roll_mean_col_length, roll_std_col_length. lia.
Qed.

Lemma entry_mask_length thr w xs : length (entry_mask thr w xs) = length xs.
Proof.
  unfold entry_mask, s_gt.
  rewrite zip_with_length, !length_map, trend_z_length, diff_length. lia.
Qed.

Lemma signal_col_length thr w xs : length (signal_col thr w xs) = length xs.
Proof.
  unfold signal_col.
  rewrite zip_with_length, entry_mask_length, repeat_length. lia.
Qed.

Ltac solve_get :=
  repeat first
    [ rewrite get_col_filter_rows
    | rewrite get_col_set_col_eq
    | rewrite get_col_set_col_ne by reflexivity ];
  first [ eassumption | reflexivity
        | match goal with H : get_col _ _ = Some _ |- _ => rewrite H end;
          reflexivity ].

Ltac solve_select :=
  repeat first
    [ rewrite get_col_filter_rows
    | rewrite get_col_set_col_eq
    | rewrite get_col_set_col_ne by reflexivity ];
  repeat match goal with H : get_col _ _ = _ |- _ => rewrite H end;
  reflexivity.

Ltac norm_heap := cbn [update length app Nat.add].

Ltac mstep :=
  first
    [ erewrite run_getitem; [ | reflexivity | solve_get ]
    | erewrite run_setitem; [ | reflexivity ]
    | erewrite run_setitem_scalar; [ | reflexivity ]
    | erewrite run_loc_setitem; [ | reflexivity | solve_get ]
    | erewrite run_df_copy; [ | reflexivity ]
    | erewrite run_is_empty; [ | reflexivity ]
    | rewrite run_lift_res
    | rewrite run_lift_opt
    | rewrite bind_ret ];
  norm_heap.

(** [nrows F = n] for a frame [F] built by [set_col] over a frame of [n]
    rows. *)
Ltac solve_nrows :=
  lazymatch goal with
  | |- nrows (set_col _ _ _) = _ =>
      apply nrows_set_col_n;
      [ first [ apply set_col_not_nil | eapply get_col_not_nil; eassumption ]
      | solve_nrows
      | rewrite ?future_ret_length, ?roll_mean_col_length, ?roll_std_col_length,
          ?diff_length, ?trend_z_length, ?signal_col_length, ?repeat_length,
          ?length_map, ?shift_length;
        congruence ]
  | |- _ => congruence
  end.

Lemma backtest_run h df f price trend L thr w :
  nth_error h df = Some f -> wf_frame f ->
  get_col "price" f = Some price -> get_col "trend" f = Some trend ->
  (0 <= w)%Z ->
  exists l3,
    length l3 = 3 /\
    backtest_trend_signal qsqrt df L thr w h
    = match bt_summary L (equity (bt_strategy_ret L thr w price trend))
                         (equity (bt_bh_ret L price))
                         (bt_strategy_ret L thr w price trend)
                         (bt_signal L thr w price trend) with
      | inl e => (inl e, h ++ l3)
      | inr m =>
          match get_col "ds" f with
          | Some ds => (inr (length h + 3, m),
                        h ++ l3 ++ [bt_table L thr w ds price trend])
          | None => (inl KeyError, h ++ l3)
          end
      end.
Proof.
  intros Hf Hwf Hp Ht Hw.
  refine (ex_intro _ _ (conj _ _)); [shelve|].
  assert (Hlp : length price = nrows f) by (eapply get_col_wf; eauto).
  assert (Hlt : length trend = nrows f) by (eapply get_col_wf; eauto).
  assert (Hrm : forall t, rolling_mean w t = inr (roll_mean_col w t)).
  { intros t. unfold rolling_mean. now rewrite (proj2 (Z.ltb_ge w 0) Hw). }
  assert (Hrs : forall t, rolling_std qsqrt w t = inr (roll_std_col w t)).
  { intros t. unfold rolling_std. now rewrite (proj2 (Z.ltb_ge w 0) Hw). }
  unfold backtest_trend_signal.
  rewrite (run_df_copy_old h df f _ Hf).
  do 3 mstep. fold (future_ret L price).
  repeat first [ rewrite Hrm | rewrite Hrs | mstep ].
  fold (trend_z w trend).
  repeat match goal with
         | |- context [nrows (set_col ?c ?v ?F)] =>
             replace (nrows (set_col c v F)) with (length trend)
               by (symmetry; solve_nrows)
         end.
  fold (entry_mask thr w trend). fold (signal_col thr w trend).
  erewrite run_dropna_subset;
    [ | reflexivity
      | cbn [get_cols]; repeat rewrite get_col_set_col_ne by reflexivity;
        rewrite get_col_set_col_eq; reflexivity ].
  norm_heap.
  repeat match goal with
         | |- context [nrows (set_col ?c ?v ?F)] =>
             replace (nrows (set_col c v F)) with (length trend)
               by (symmetry; solve_nrows)
         end.
  rewrite notna_mask_one by (rewrite future_ret_length; congruence).
  fold (bt_keep L price).
  repeat mstep.
  cbn [option_map].
  fold (bt_signal L thr w price trend). fold (bt_bh_ret L price).
  fold (bt_strategy_ret L thr w price trend).
  fold (equity (bt_strategy_ret L thr w price trend)).
  fold (equity (bt_bh_ret L price)).
  unfold bt_summary, iloc_last.
  destruct (rev (equity (bt_strategy_ret L thr w price trend))) as [|es_last ?].
  { rewrite run_raise. reflexivity. }
  mstep. mstep.
  destruct (rev (equity (bt_bh_ret L price))) as [|eb_last ?].
  { rewrite run_raise. reflexivity. }
  repeat mstep.
  destruct (fgt (s_std qsqrt (bt_strategy_ret L thr w price trend)) (of_Z 0)).
  - rewrite bind_assoc.
    destruct (py_div_int 252 L) as [e|y]; [now rewrite run_lift_res_err|].
    repeat mstep. cbn [option_map]. fold (bt_signal L thr w price trend).
    destruct (py_int (s_sum (bt_signal L thr w price trend))) as [e|n];
      [now rewrite run_lift_res_err|].
    mstep.
    destruct (get_col "ds" f) as [ds|] eqn:Hds.
    + erewrite run_getitems; [ | reflexivity | cbn [select_cols]; solve_select ].
      reflexivity.
    + erewrite run_getitems_missing; [ | reflexivity | cbn [select_cols]; solve_select ].
      reflexivity.
  - repeat mstep. cbn [option_map]. fold (bt_signal L thr w price trend).
    destruct (py_int (s_sum (bt_signal L thr w price trend))) as [e|n];
      [now rewrite run_lift_res_err|].
    mstep.
    destruct (get_col "ds" f) as [ds|] eqn:Hds.
    + erewrite run_getitems; [ | reflexivity | cbn [select_cols]; solve_select ].
      reflexivity.
    + erewrite run_getitems_missing; [ | reflexivity | cbn [select_cols]; solve_select ].
      reflexivity.
  Unshelve. reflexivity.
Qed.
(** A negative window is refused by [rolling], after the forward return
    has been written to the copy. *)
Lemma backtest_neg_window h df f price trend L thr w :
  nth_error h df = Some f ->
  get_col "price" f = Some price -> get_col "trend" f = Some trend ->
  (w < 0)%Z ->
  backtest_trend_signal qsqrt df L thr w h
  = (inl ValueError, h ++ [set_col "future_ret_L" (future_ret L price) f]).
Proof.
  intros Hf Hp Ht Hw. unfold backtest_trend_signal.
  rewrite (run_df_copy_old h df f _ Hf).
  do 4 mstep.
  unfold rolling_mean. rewrite (proj2 (Z.ltb_lt w 0) Hw).
  now rewrite run_lift_res_err.
Qed.

(** What a successful backtest returned. *)
Lemma backtest_result h df f price trend L thr w out m h' :
  nth_error h df = Some f -> wf_frame f ->
  get_col "price" f = Some price -> get_col "trend" f = Some trend ->
  backtest_trend_signal qsqrt df L thr w h = (inr (out, m), h') ->
  (0 <= w)%Z /\
  exists ds l3,
    get_col "ds" f = Some ds /\
    bt_summary L (equity (bt_strategy_ret L thr w price trend))
                 (equity (bt_bh_ret L price))
                 (bt_strategy_ret L thr w price trend)
                 (bt_signal L thr w price trend) = inr m /\
    length l3 = 3 /\ out = length h + 3 /\
    h' = h ++ l3 ++ [bt_table L thr w ds price trend] /\
    nth_error h' out = Some (bt_table L thr w ds price trend).
Proof.
  intros Hf Hwf Hp Ht Hrun.
  destruct (Z.ltb_spec w 0) as [Hw|Hw].
  { rewrite (backtest_neg_window _ _ _ _ _ _ _ _ Hf Hp Ht Hw) in Hrun.
    discriminate. }
  split; [assumption|].
  destruct (backtest_run h df f price trend L thr w Hf Hwf Hp Ht Hw)
    as (l3 & Hl3 & Heq).
  rewrite Heq in Hrun.
  destruct (bt_summary _ _ _ _ _) as [e|m']; [discriminate|].
  destruct (get_col "ds" f) as [ds|]; [|discriminate].
  inversion Hrun; subst. exists ds, l3. repeat split; auto.
  rewrite app_assoc, nth_error_app2 by (rewrite length_app; lia).
  rewrite length_app, Hl3.
  replace (length h + 3 - (length h + 3)) with 0 by lia. reflexivity.
Qed.

Lemma bt_summary_inv L es eb sr sg m :
  bt_summary L es eb sr sg = inr m ->
  exists es_last es' eb_last eb',
    rev es = es_last :: es' /\ rev eb = eb_last :: eb' /\
    total_return_strategy m = fsub es_last (Fin 1) /\
    total_return_bh m = fsub eb_last (Fin 1) /\
    lag_used m = L.
Proof.
  unfold bt_summary. intros H.
  destruct (rev es) as [|x xs]; [discriminate|].
  destruct (rev eb) as [|y ys]; [discriminate|].
  exists x, xs, y, ys.
  destruct (if fgt _ _ then _ else _) as [e|s]; [discriminate|].
  destruct (py_int _) as [e|n]; [discriminate|].
  inversion H; subst; simpl. auto.
Qed.

(** C6.  Two backtests of one table at one horizon, with any two choices
    of the z-score threshold and of the rolling window, return the same
    benchmark return column, the same benchmark equity column and the
    same total benchmark return. *)
Theorem backtest_benchmark_invariant
    h df f price trend L thr1 w1 thr2 w2 out1 m1 h1 out2 m2 h2 :
  nth_error h df = Some f -> wf_frame f ->
  get_col "price" f = Some price -> get_col "trend" f = Some trend ->
  backtest_trend_signal qsqrt df L thr1 w1 h = (inr (out1, m1), h1) ->
  backtest_trend_signal qsqrt df L thr2 w2 h = (inr (out2, m2), h2) ->
  exists t1 t2 bh eq,
    nth_error h1 out1 = Some t1 /\ nth_error h2 out2 = Some t2 /\
    get_col "bh_ret" t1 = Some bh /\ get_col "bh_ret" t2 = Some bh /\
    get_col "equity_bh" t1 = Some eq /\ get_col "equity_bh" t2 = Some eq /\
    bh = bt_bh_ret L price /\ eq = equity bh /\
    total_return_bh m1 = total_return_bh m2.
Proof.
  intros Hf Hwf Hp Ht H1 H2.
  destruct (backtest_result _ _ _ _ _ _ _ _ _ _ _ Hf Hwf Hp Ht H1)
    as (_ & ds1 & l1 & Hds1 & Hs1 & _ & _ & _ & Hn1).
  destruct (backtest_result _ _ _ _ _ _ _ _ _ _ _ Hf Hwf Hp Ht H2)
    as (_ & ds2 & l2 & Hds2 & Hs2 & _ & _ & _ & Hn2).
  exists (bt_table L thr1 w1 ds1 price trend),
         (bt_table L thr2 w2 ds2 price trend),
         (bt_bh_ret L price), (equity (bt_bh_ret L price)).
  repeat split; auto.
  destruct (bt_summary_inv _ _ _ _ _ _ Hs1) as (a1 & a1' & b1 & b1' & _ & Hb1 & _ & Ht1 & _).
  destruct (bt_summary_inv _ _ _ _ _ _ Hs2) as (a2 & a2' & b2 & b2' & _ & Hb2 & _ & Ht2 & _).
  rewrite Ht1, Ht2. congruence.
Qed.

(** ** Sums of finite cells *)

Lemma Qsquare_nonneg (q : Q) : (0 <= q * q)%Q.
Proof.
  destruct (Qlt_le_dec q 0) as [H|H].
  - setoid_replace (q * q)%Q with ((- q) * (- q))%Q by ring.
    apply Qmult_le_0_compat; lra.
  - apply Qmult_le_0_compat; lra.
Qed.

Lemma Qsquare_zero (q : Q) : (q * q == 0)%Q -> (q == 0)%Q.
Proof.
  intros H. destruct (Qeq_dec q 0) as [E|E]; [assumption|].
  apply Qmult_integral in H. destruct H as [H|H]; exact H.
Qed.

Lemma all_finite_map xs :
  forallb isfinite xs = true -> exists qs, xs = map Fin qs.
Proof.
  induction xs as [|x xs IH]; simpl; intros H.
  - now exists [].
  - apply andb_prop in H as [Hx Hxs]. destruct (IH Hxs) as [qs ->].
    destruct x; try discriminate. now exists (q :: qs).
Qed.

Lemma filter_isfinite_all xs : forallb isfinite (filter isfinite xs) = true.
Proof.
  induction xs as [|x xs IH]; simpl; auto.
  destruct (isfinite x) eqn:E; simpl; auto. now rewrite E.
Qed.

Lemma fold_fadd_Fin qs a :
  fold_left fadd (map Fin qs) (Fin a) = Fin (fold_left Qplus qs a).
Proof. revert a; induction qs as [|q qs IH]; intros a; simpl; auto. Qed.

Lemma fsum_Fin qs : fsum (map Fin qs) = Fin (Qsum qs).
Proof. apply fold_fadd_Fin. Qed.

Lemma fold_Qplus_ge (g : Q -> Q) qs a :
  (forall x, 0 <= g x)%Q -> (a <= fold_left Qplus (map g qs) a)%Q.
Proof.
  intros Hg. revert a; induction qs as [|q qs IH]; intros a; simpl.
  - apply Qle_refl.
  - eapply Qle_trans; [|apply IH]. specialize (Hg q). lra.
Qed.

Lemma fold_Qplus_zero (g : Q -> Q) qs a :
  (forall x, 0 <= g x)%Q -> (0 <= a)%Q ->
  (fold_left Qplus (map g qs) a == 0)%Q ->
  (a == 0)%Q /\ forall x, In x qs -> (g x == 0)%Q.
Proof.
  intros Hg. revert a; induction qs as [|q qs IH]; intros a Ha H; simpl in H |- *.
  - split; [assumption | intros x []].
  - pose proof (Hg q) as Hq.
    destruct (IH (a + g q)%Q) as [H0 Hall]; [lra | assumption |].
    split; [lra|]. intros x [<-|Hx]; [lra | auto].
Qed.

Lemma ssqdm_Fin m qs :
  ssqdm (Fin m) (map Fin qs)
  = Fin (Qsum (map (fun q => (q + - m) * (q + - m))%Q qs)).
Proof.
  unfold ssqdm. rewrite map_map. cbn [fsub fopp fadd fmul].
  rewrite <- (map_map (fun q => (q + - m) * (q + - m))%Q Fin).
  apply fsum_Fin.
Qed.

(** ** Comparisons and NaN *)


Lemma fdiv_nan_r a : fdiv a NaN = NaN.
Proof. now destruct a. Qed.

Lemma fsub_nan_r a : fsub a NaN = NaN.
Proof. now destruct a. Qed.

Lemma fdiv_zero_zero a b : (a == 0)%Q -> (b == 0)%Q -> fdiv (Fin a) (Fin b) = NaN.
Proof.
  intros Ha Hb. unfold fdiv, inf_signed.
  apply Qeq_bool_iff in Ha, Hb. now rewrite Ha, Hb.
Qed.

(** ** Rolling windows *)

Lemma window_at_length w i xs : length (window_at w i xs) <= w.
Proof.
  unfold window_at. rewrite length_skipn, length_firstn. lia.
Qed.

Lemma window_at_last w i xs :
  i < length xs -> 0 < w -> In (nth i xs NaN) (window_at w i xs).
Proof.
  intros Hi Hw. unfold window_at.
  replace (nth i xs NaN)
    with (nth (i - (i + 1 - w)) (skipn (i + 1 - w) (firstn (i + 1) xs)) NaN).
  - apply nth_In. rewrite length_skipn, length_firstn. lia.
  - rewrite nth_skipn, nth_firstn.
    replace (i + 1 - w + (i - (i + 1 - w))) with i by lia.
    destruct (Nat.ltb_spec i (i + 1)); [reflexivity | lia].
Qed.

Lemma filter_length_le {A} (p : A -> bool) xs : length (filter p xs) <= length xs.
Proof.
  induction xs as [|x xs IH]; simpl; auto. destruct (p x); simpl; lia.
Qed.

Lemma filter_full {A} (p : A -> bool) xs :
  length xs <= length (filter p xs) -> filter p xs = xs.
Proof.
  intros H. apply forallb_filter_id, filter_length_forallb.
  pose proof (filter_length_le p xs). lia.
Qed.

Lemma nth_roll_mean_col w xs i :
  i < length xs ->
  nth i (roll_mean_col w xs) NaN
  = roll_mean_at (Z.to_nat w) (window_at (Z.to_nat w) i xs).
Proof.
  intros Hi. unfold roll_mean_col.
  rewrite (nth_map_in _ _ _ 0) by now rewrite length_seq.
  now rewrite seq_nth.
Qed.

Lemma nth_roll_std_col w xs i :
  i < length xs ->
  nth i (roll_std_col w xs) NaN
  = roll_std_at qsqrt (Z.to_nat w) (window_at (Z.to_nat w) i xs).
Proof.
  intros Hi. unfold roll_std_col.
  rewrite (nth_map_in _ _ _ 0) by now rewrite length_seq.
  now rewrite seq_nth.
Qed.

Lemma nth_trend_z w xs i :
  i < length xs ->
  nth i (trend_z w xs) NaN
  = fdiv (fsub (nth i xs NaN) (nth i (roll_mean_col w xs) NaN))
         (nth i (roll_std_col w xs) NaN).
Proof.
  intros Hi. unfold trend_z, s_div, s_sub.
  rewrite (nth_zip_with _ _ _ _ NaN NaN)
    by (rewrite ?zip_with_length, ?roll_mean_col_length, ?roll_std_col_length; lia).
  rewrite (nth_zip_with _ _ _ _ NaN NaN)
    by (rewrite ?roll_mean_col_length; lia).
  reflexivity.
Qed.


(** In exact arithmetic: where the rolling standard deviation is zero the
    window is constant, the deviation from the mean is zero too, and the
    z-score is [0 / 0]. *)
Lemma trend_z_std_zero w xs i :
  i < length xs -> feq (nth i (roll_std_col w xs) NaN) (Fin 0) ->
  nth i (trend_z w xs) NaN = NaN.
Proof.
  intros Hi Hz. rewrite nth_trend_z by assumption.
  rewrite nth_roll_std_col in * by assumption.
  rewrite nth_roll_mean_col by assumption.
  unfold roll_std_at, roll_mean_at in *.
  set (W := Z.to_nat w) in *.
  set (win := window_at W i xs) in *.
  pose proof (window_at_length W i xs) as Hlen. fold win in Hlen.
  destruct (Nat.leb_spec W (length (filter isfinite win))) as [Hw|Hw];
    [|simpl in Hz; contradiction].
  destruct (Nat.ltb_spec 1 (length (filter isfinite win))) as [H1|H1];
    [|simpl in Hz; contradiction].
  simpl andb in *. cbv iota in *.
  assert (Hfull : filter isfinite win = win) by (apply filter_full; lia).
  rewrite Hfull in *.
  destruct (Nat.ltb_spec 0 (length win)) as [_|?]; [|lia].
  destruct (all_finite_map win) as [qs Hqs].
  { rewrite <- Hfull. apply filter_isfinite_all. }
  assert (Hin : In (nth i xs NaN) win).
  { apply window_at_last; [assumption|]. unfold W in *. lia. }
  rewrite Hqs in *. rewrite length_map in *.
  apply in_map_iff in Hin as (x & Hx & Hxin). rewrite <- Hx.
  rewrite fsum_Fin in *.
  unfold of_nat, of_Z in *.
  assert (Hn : ~ (inject_Z (Z.of_nat (length qs)) == 0)%Q).
  { intros E. unfold Qeq in E; simpl in E. lia. }
  assert (Hn1 : ~ (inject_Z (Z.of_nat (length qs - 1)) == 0)%Q).
  { intros E. unfold Qeq in E; simpl in E. lia. }
  cbn [fdiv] in *.
  destruct (Qeq_bool (inject_Z (Z.of_nat (length qs))) 0) eqn:En;
    [apply Qeq_bool_iff in En; contradiction|].
  rewrite ssqdm_Fin in Hz. cbn [fdiv] in Hz.
  destruct (Qeq_bool (inject_Z (Z.of_nat (length qs - 1))) 0) eqn:En1;
    [apply Qeq_bool_iff in En1; contradiction|].
  set (m := (Qsum qs / inject_Z (Z.of_nat (length qs)))%Q) in *.
  set (S2 := Qsum (map (fun q => (q + - m) * (q + - m))%Q qs)) in *.
  assert (HS2 : (0 <= S2)%Q).
  { unfold S2, Qsum.
    apply (fold_Qplus_ge (fun q => (q + - m) * (q + - m))%Q qs 0%Q).
    intros y. apply Qsquare_nonneg. }
  assert (Hpos : (0 < inject_Z (Z.of_nat (length qs - 1)))%Q).
  { unfold Qlt; simpl. lia. }
  assert (Hv : (0 <= S2 / inject_Z (Z.of_nat (length qs - 1)))%Q).
  { apply Qle_shift_div_l; [assumption | lra]. }
  unfold np_sqrt in Hz.
  destruct (Qltb _ 0) eqn:Elt.
  { unfold Qltb in Elt. apply negb_true_iff in Elt.
    destruct (Qle_bool 0 _) eqn:El in Elt; [discriminate|].
    apply Qle_bool_iff in Hv. congruence. }
  simpl in Hz. pose proof Hz as Hsq. apply qsqrt_eq0 in Hz; [|assumption].
  assert (HS0 : (S2 == 0)%Q).
  { apply (Qmult_inj_r _ _ (/ inject_Z (Z.of_nat (length qs - 1))))%Q.
    - intros E. apply Hn1. 
      rewrite <- (Qinv_involutive (inject_Z (Z.of_nat (length qs - 1)))).
      rewrite E. reflexivity.
    - unfold Qdiv in Hz. lra. }
  destruct (fold_Qplus_zero (fun q => (q + - m) * (q + - m))%Q qs 0%Q)
    as [_ Hall]; [intros y; apply Qsquare_nonneg | lra | exact HS0 |].
  specialize (Hall x Hxin). cbv beta in Hall.
  assert (Hxm : (x + - m == 0)%Q) by (now apply Qsquare_zero).
  cbn [fsub fopp fadd]. rewrite ssqdm_Fin. cbn [fdiv]. rewrite En1.
  fold m. fold S2. unfold np_sqrt. rewrite Elt.
  apply fdiv_zero_zero; assumption.
Qed.

(** ** The position column *)

Lemma nth_diff xs i :
  i < length xs ->
  nth i (diff xs) NaN = fsub (nth i xs NaN) (nth i (shift 1 xs) NaN).
Proof.
  intros Hi. unfold diff, s_sub.
  apply nth_zip_with; [assumption | now rewrite shift_length].
Qed.

Lemma nth_shift_1_0 xs : nth 0 (shift 1 xs) NaN = NaN.
Proof.
  unfold shift. simpl. destruct xs as [|x xs]; simpl; auto.
Qed.

(** The first difference of the first row is undefined. *)
Lemma diff_first xs : nth 0 (diff xs) NaN = NaN.
Proof.
  destruct xs as [|x xs]; [reflexivity|].
  rewrite nth_diff by (simpl; lia). rewrite nth_shift_1_0. apply fsub_nan_r.
Qed.

Lemma nth_signal_col thr w xs i :
  i < length xs ->
  nth i (signal_col thr w xs) NaN
  = if fgt (nth i (trend_z w xs) NaN) thr && fgt (nth i (diff xs) NaN) (of_Z 0)
    then of_Z 1 else of_Z 0.
Proof.
  intros Hi. unfold signal_col.
  rewrite (nth_zip_with _ _ _ _ false NaN)
    by (rewrite ?entry_mask_length, ?repeat_length; lia).
  rewrite nth_repeat_lt by assumption.
  unfold entry_mask, s_gt.
  rewrite (nth_zip_with _ _ _ _ false false)
    by (rewrite length_map, ?trend_z_length, ?diff_length; lia).
  rewrite (nth_map_in _ _ _ NaN) by (rewrite trend_z_length; lia).
  rewrite (nth_map_in _ _ _ NaN) by (rewrite diff_length; lia).
  reflexivity.
Qed.

Lemma signal_col_positions thr w xs : Forall is_position (signal_col thr w xs).
Proof.
  apply Forall_forall. intros x Hx.
  apply (In_nth _ _ NaN) in Hx as (i & Hi & <-).
  rewrite signal_col_length in Hi. rewrite nth_signal_col by assumption.
  unfold is_position. destruct (_ && _); auto.
Qed.

Lemma mask_filter_In {A} mask (xs : list A) x :
  In x (mask_filter mask xs) -> In x xs.
Proof.
  revert xs; induction mask as [|b mask IH]; intros [|y ys]; simpl;
    try tauto.
  destruct b; simpl; intuition.
Qed.

Lemma mask_filter_Forall {A} (P : A -> Prop) mask xs :
  Forall P xs -> Forall P (mask_filter mask xs).
Proof.
  rewrite !Forall_forall. intros H x Hx. eauto using mask_filter_In.
Qed.




(** ** Equity curves *)

Lemma feq_refl x : feq x x.
Proof. destruct x; simpl; auto. reflexivity. Qed.

Lemma feq_sym x y : feq x y -> feq y x.
Proof. destruct x, y; simpl; auto. intros H; now symmetry. Qed.

Lemma feq_trans x y z : feq x y -> feq y z -> feq x z.
Proof.
  destruct x, y, z; simpl; auto; try contradiction.
  intros H1 H2. now rewrite H1.
Qed.

Lemma inf_signed_feq pos a b : (a == b)%Q -> inf_signed pos a = inf_signed pos b.
Proof.
  intros H. unfold inf_signed, Qltb.
  assert (Qeq_bool a 0 = Qeq_bool b 0) as ->.
  { destruct (Qeq_bool a 0) eqn:Ea, (Qeq_bool b 0) eqn:Eb; auto.
    - apply Qeq_bool_iff in Ea. apply Qeq_bool_neq in Eb. rewrite H in Ea. contradiction.
    - apply Qeq_bool_iff in Eb. apply Qeq_bool_neq in Ea. rewrite H in Ea. contradiction. }
  assert (Qle_bool a 0 = Qle_bool b 0) as ->.
  { destruct (Qle_bool a 0) eqn:Ea, (Qle_bool b 0) eqn:Eb; auto.
    - apply Qle_bool_iff in Ea. rewrite H in Ea. apply Qle_bool_iff in Ea. congruence.
    - apply Qle_bool_iff in Eb. rewrite <- H in Eb. apply Qle_bool_iff in Eb. congruence. }
  reflexivity.
Qed.

Lemma fmul_feq_l a b c : feq a b -> feq (fmul a c) (fmul b c).
Proof.
  destruct a, b; cbn [feq]; try contradiction; intros H;
    destruct c; cbn [fmul]; try apply feq_refl;
    try (rewrite (inf_signed_feq _ _ _ H); apply feq_refl).
  cbn [feq]. now rewrite H.
Qed.

Lemma fmul_1_l x : feq (fmul (Fin 1) x) x.
Proof. destruct x; simpl; auto. ring. Qed.

Lemma fold_fmul_feq l a b :
  feq a b -> feq (fold_left fmul l a) (fold_left fmul l b).
Proof.
  revert a b; induction l as [|x l IH]; intros a b H; simpl; auto.
  apply IH, fmul_feq_l, H.
Qed.

Lemma np_cumprod_from_length acc xs :
  length (np_cumprod_from acc xs) = length xs.
Proof. revert acc; induction xs as [|x xs IH]; intros acc; simpl; auto. Qed.

Lemma np_cumprod_length xs : length (np_cumprod xs) = length xs.
Proof. destruct xs; simpl; auto using np_cumprod_from_length. Qed.

Lemma nth_np_cumprod_from acc xs i :
  i < length xs ->
  nth i (np_cumprod_from acc xs) NaN = fold_left fmul (firstn (S i) xs) acc.
Proof.
  revert acc i; induction xs as [|x xs IH]; intros acc [|i] Hi; simpl in *;
    try lia; auto.
  apply IH. lia.
Qed.

Lemma nth_np_cumprod xs i :
  i < length xs ->
  feq (nth i (np_cumprod xs) NaN) (fold_left fmul (firstn (S i) xs) (Fin 1)).
Proof.
  destruct xs as [|x xs]; simpl; [lia|]. intros Hi.
  destruct i as [|i].
  - simpl. apply feq_sym, fmul_1_l.
  - rewrite nth_np_cumprod_from by lia.
    apply fold_fmul_feq, feq_sym, fmul_1_l.
Qed.

Lemma fillna_notna a xs : forallb notna xs = true -> fillna a xs = xs.
Proof.
  unfold fillna, notna. induction xs as [|x xs IH]; simpl; auto.
  intros H. apply andb_prop in H as [Hx Hxs]. rewrite IH by assumption.
  now destruct (isnan x).
Qed.

Lemma cumprod_notna xs : forallb notna xs = true -> cumprod xs = np_cumprod xs.
Proof.
  intros H. unfold cumprod. rewrite fillna_notna by assumption.
  assert (forall ps, length ps = length xs ->
            zip_with (fun x p => if isnan x then NaN else p) xs ps = ps) as Hz.
  { clear -H. induction xs as [|x xs IH]; intros [|p ps]; simpl; intros Hl;
      try discriminate; auto.
    simpl in H. apply andb_prop in H as [Hx Hxs].
    unfold notna in Hx. destruct (isnan x); [discriminate|].
    rewrite IH; auto. }
  apply Hz, np_cumprod_length.
Qed.

Lemma cumprod_length xs : length (cumprod xs) = length xs.
Proof.
  unfold cumprod. rewrite zip_with_length, np_cumprod_length.
  unfold fillna. rewrite length_map. lia.
Qed.

Lemma cumprod_first xs : nth 0 (cumprod xs) NaN = nth 0 xs NaN.
Proof.
  destruct xs as [|x xs]; [reflexivity|].
  unfold cumprod. simpl. now destruct x.
Qed.

Lemma equity_length rets : length (equity rets) = length rets.
Proof. unfold equity, s_add_scalar. now rewrite cumprod_length, length_map. Qed.

(** The first equity value is one plus the first period return. *)
Lemma equity_first rets :
  rets <> [] -> nth 0 (equity rets) NaN = fadd (Fin 1) (nth 0 rets NaN).
Proof.
  intros Hne. unfold equity. rewrite cumprod_first.
  destruct rets as [|r rets]; [congruence | reflexivity].
Qed.

Lemma fadd_1_notna xs :
  forallb notna xs = true -> forallb notna (s_add_scalar (Fin 1) xs) = true.
Proof.
  unfold s_add_scalar. induction xs as [|x xs IH]; simpl; auto.
  intros H. apply andb_prop in H as [Hx Hxs]. rewrite IH by assumption.
  now destruct x.
Qed.

(** Without undefined returns the curve is the running product of the
    growth factors, from 1. *)
Lemma equity_product rets i :
  forallb notna rets = true -> i < length rets ->
  feq (nth i (equity rets) NaN)
      (fold_left fmul (map (fadd (Fin 1)) (firstn (S i) rets)) (Fin 1)).
Proof.
  intros Hn Hi. unfold equity.
  rewrite cumprod_notna by now apply fadd_1_notna.
  unfold s_add_scalar. rewrite <- firstn_map.
  apply nth_np_cumprod. now rewrite length_map.
Qed.

Lemma Qltb_lt a b : Qltb a b = true <-> (a < b)%Q.
Proof.
  unfold Qltb. rewrite negb_true_iff. split; intros H.
  - apply Qnot_le_lt. intros Hle. apply Qle_bool_iff in Hle. congruence.
  - destruct (Qle_bool b a) eqn:E; auto.
    apply Qle_bool_iff in E. lra.
Qed.

Lemma fpos_growth r : flt (Fin (-1)) r = true -> fpos (fadd (Fin 1) r).
Proof.
  unfold fpos. destruct r; simpl; auto.
  rewrite !Qltb_lt. intros H. lra.
Qed.

Lemma fpos_fmul a b : fpos a -> fpos b -> fpos (fmul a b).
Proof.
  unfold fpos.
  destruct a as [| | |a], b as [| | |b]; simpl; try discriminate; auto.
  - rewrite Qltb_lt. intros _ H. unfold inf_signed.
    destruct (Qeq_bool b 0) eqn:E; [apply Qeq_bool_iff in E; lra|].
    apply Qltb_lt in H. now rewrite H.
  - rewrite Qltb_lt. intros H _. unfold inf_signed.
    destruct (Qeq_bool a 0) eqn:E; [apply Qeq_bool_iff in E; lra|].
    apply Qltb_lt in H. now rewrite H.
  - rewrite !Qltb_lt. intros Ha Hb. apply Qmult_lt_0_compat; assumption.
Qed.

Lemma fpos_notna x : fpos x -> notna x = true.
Proof. unfold fpos. now destruct x. Qed.

Lemma fpos_fle x : fpos x -> fle (Fin 0) x = true.
Proof.
  unfold fpos. destruct x; simpl; auto.
  rewrite Qltb_lt. intros H. apply Qle_bool_iff. lra.
Qed.

Lemma np_cumprod_from_pos acc xs :
  fpos acc -> Forall fpos xs -> Forall fpos (np_cumprod_from acc xs).
Proof.
  revert acc; induction xs as [|x xs IH]; intros acc Ha Hx; simpl; auto.
  inversion Hx; subst. constructor; [|apply IH]; auto using fpos_fmul.
Qed.

(** An equity curve whose period returns all exceed -1 stays positive. *)
Lemma equity_nonneg rets :
  Forall (fun r => flt (Fin (-1)) r = true) rets ->
  Forall (fun e => fle (Fin 0) e = true) (equity rets).
Proof.
  intros H.
  assert (Hp : Forall fpos (s_add_scalar (Fin 1) rets)).
  { unfold s_add_scalar. induction H as [|r rs Hr _ IH]; simpl; constructor;
      [now apply fpos_growth | exact IH]. }
  assert (Hn : forallb notna (s_add_scalar (Fin 1) rets) = true).
  { apply forallb_forall. rewrite Forall_forall in Hp.
    intros x Hx. auto using fpos_notna. }
  unfold equity. rewrite cumprod_notna by assumption.
  eapply Forall_impl; [intros e He; apply fpos_fle, He|].
  destruct (s_add_scalar (Fin 1) rets) as [|x xs]; simpl; [constructor|].
  inversion Hp; subst. constructor; auto using np_cumprod_from_pos.
Qed.

(** ** Rows with a forward return *)

Lemma nth_shift k xs i :
  i < length xs ->
  nth i (shift k xs) NaN
  = if ((0 <=? Z.of_nat i - k) && (Z.of_nat i - k <? Z.of_nat (length xs)))%Z
    then nth (Z.to_nat (Z.of_nat i - k)) xs NaN else NaN.
Proof.
  intros Hi. unfold shift.
  destruct (Z.ltb_spec k 0) as [Hk|Hk].
  - destruct (Z.leb_spec 0 (Z.of_nat i - k)) as [_|?]; [|lia]. simpl.
    destruct (Z.ltb_spec (Z.of_nat i - k) (Z.of_nat (length xs))) as [Hr|Hr].
    + rewrite app_nth1 by (rewrite length_skipn; lia).
      rewrite nth_skipn. f_equal. lia.
    + rewrite app_nth2 by (rewrite length_skipn; lia).
      apply nth_repeat.
  - destruct (Z.leb_spec 0 (Z.of_nat i - k)) as [Hl|Hl]; simpl.
    + destruct (Z.ltb_spec (Z.of_nat i - k) (Z.of_nat (length xs))) as [_|?]; [|lia].
      rewrite app_nth2 by (rewrite repeat_length; lia).
      rewrite repeat_length, nth_firstn.
      destruct (Nat.ltb_spec (i - Nat.min (Z.to_nat k) (length xs))
                  (length xs - Nat.min (Z.to_nat k) (length xs))); [|lia].
      f_equal. lia.
    + rewrite app_nth1 by (rewrite repeat_length; lia).
      apply nth_repeat.
Qed.

Lemma nth_future_ret L price i :
  i < length price ->
  nth i (future_ret L price) NaN
  = fsub (fdiv (nth i (shift (- L) price) NaN) (nth i price NaN)) (Fin 1).
Proof.
  intros Hi. unfold future_ret, s_sub_scalar, s_div.
  rewrite (nth_map_in _ _ _ NaN) by (rewrite zip_with_length, shift_length; lia).
  rewrite (nth_zip_with _ _ _ _ NaN NaN) by (rewrite ?shift_length; lia).
  reflexivity.
Qed.

Lemma nth_bt_keep L price i :
  i < length price ->
  nth i (bt_keep L price) false = notna (nth i (future_ret L price) NaN).
Proof.
  intros Hi. unfold bt_keep.
  apply nth_map_in. now rewrite future_ret_length.
Qed.

(** A row whose partner [L] steps ahead is outside the table has no
    forward return: for [L > 0] these are the trailing [L] rows. *)
Lemma bt_keep_outside L price i :
  i < length price ->
  (Z.of_nat i + L < 0 \/ Z.of_nat (length price) <= Z.of_nat i + L)%Z ->
  nth i (bt_keep L price) false = false.
Proof.
  intros Hi Hout. rewrite nth_bt_keep, nth_future_ret, nth_shift by assumption.
  replace (Z.of_nat i - - L)%Z with (Z.of_nat i + L)%Z by lia.
  destruct (Z.leb_spec 0 (Z.of_nat i + L)); simpl; auto.
  destruct (Z.ltb_spec (Z.of_nat i + L) (Z.of_nat (length price))); simpl; auto.
  lia.
Qed.

Lemma bt_keep_inside L price i :
  i < length price ->
  (0 <= Z.of_nat i + L < Z.of_nat (length price))%Z ->
  good_price (nth i price NaN) = true ->
  isfinite (nth (Z.to_nat (Z.of_nat i + L)) price NaN) = true ->
  nth i (bt_keep L price) false = true.
Proof.
  intros Hi Hin Hg Hg'. rewrite nth_bt_keep, nth_future_ret, nth_shift by assumption.
  replace (Z.of_nat i - - L)%Z with (Z.of_nat i + L)%Z by lia.
  destruct (Z.leb_spec 0 (Z.of_nat i + L)); [|lia].
  destruct (Z.ltb_spec (Z.of_nat i + L) (Z.of_nat (length price))); [|lia].
  simpl. destruct (nth i price NaN) as [| | |b]; try discriminate.
  destruct (nth _ price NaN) as [| | |a]; try discriminate.
  simpl in Hg. apply negb_true_iff in Hg. simpl. now rewrite Hg.
Qed.

Lemma mask_filter_self_notna xs :
  forallb notna (mask_filter (map notna xs) xs) = true.
Proof.
  induction xs as [|x xs IH]; simpl; auto.
  destruct (notna x) eqn:E; simpl; auto. now rewrite E.
Qed.

Lemma equity_compounds rets : compounds rets (equity rets).
Proof.
  unfold compounds. split; [reflexivity|].
  split; [apply equity_length|]. split; [apply equity_first|].
  split; [intros; now apply equity_product | apply equity_nonneg].
Qed.

(** C5.  The table of a backtest keeps the rows that have a forward
    return, which excludes the rows whose partner [L] steps ahead is
    outside the table (the trailing [L] rows); on the kept rows each equity
    column is the cumulative product of [1 + period return]: it starts at
    one plus the first period return, it is the running product from 1.0
    of the growth factors, and it is non-negative when every period return
    exceeds -1. *)
Theorem backtest_equity h df f price trend L thr w out m h' :
  nth_error h df = Some f -> wf_frame f ->
  get_col "price" f = Some price -> get_col "trend" f = Some trend ->
  backtest_trend_signal qsqrt df L thr w h = (inr (out, m), h') ->
  exists table sr bh es eb,
    nth_error h' out = Some table /\
    get_col "strategy_ret" table = Some sr /\
    get_col "bh_ret" table = Some bh /\
    get_col "equity_strategy" table = Some es /\
    get_col "equity_bh" table = Some eb /\
    bh = mask_filter (map notna (future_ret L price)) (future_ret L price) /\
    forallb notna bh = true /\
    (forall i, i < length price ->
       (Z.of_nat (length price) <= Z.of_nat i + L)%Z ->
       nth i (map notna (future_ret L price)) false = false) /\
    (forall i, i < length price ->
       (0 <= Z.of_nat i + L < Z.of_nat (length price))%Z ->
       good_price (nth i price NaN) = true ->
       isfinite (nth (Z.to_nat (Z.of_nat i + L)) price NaN) = true ->
       nth i (map notna (future_ret L price)) false = true) /\
    bh <> [] /\
    compounds sr es /\ compounds bh eb.
Proof.
  intros Hf Hwf Hp Ht Hrun.
  destruct (backtest_result _ _ _ _ _ _ _ _ _ _ _ Hf Hwf Hp Ht Hrun)
    as (_ & ds & l3 & _ & Hs & _ & _ & _ & Hn).
  exists (bt_table L thr w ds price trend),
         (bt_strategy_ret L thr w price trend), (bt_bh_ret L price),
         (equity (bt_strategy_ret L thr w price trend)),
         (equity (bt_bh_ret L price)).
  repeat (split; [first [assumption | reflexivity]|]).
  split; [apply mask_filter_self_notna|].
  split; [intros i Hi Hout; apply (bt_keep_outside L price i Hi); now right|].
  split; [intros i Hi Hin Hg Hg'; now apply bt_keep_inside|].
  split.
  - destruct (bt_summary_inv _ _ _ _ _ _ Hs) as (a & a' & b & b' & _ & Hb & _).
    intros E. rewrite E in Hb. discriminate.
  - split; apply equity_compounds.
Qed.

(** ** A horizon that is not positive *)

Lemma mask_filter_length_eq {A B} mask (xs : list A) (ys : list B) :
  length xs = length ys ->
  length (mask_filter mask xs) = length (mask_filter mask ys).
Proof.
  revert xs ys; induction mask as [|b mask IH]; intros [|x xs] [|y ys] H;
    simpl in *; try discriminate; auto.
  destruct b; simpl; auto.
Qed.

Lemma mask_filter_not_nil {A} mask (xs : list A) i :
  i < length xs -> nth i mask false = true -> mask_filter mask xs <> [].
Proof.
  revert xs i; induction mask as [|b mask IH]; intros [|x xs] [|i] Hi Hm;
    simpl in *; try lia; try discriminate.
  - subst b. discriminate.
  - destruct b; [discriminate|]. eapply IH; eauto. lia.
Qed.

Lemma fold_fadd_positions xs a :
  Forall is_position xs -> exists q, fold_left fadd xs (Fin a) = Fin q.
Proof.
  intros H. revert a; induction H as [|x xs [->| ->] _ IH]; intros a; simpl; eauto.
Qed.

Lemma filter_Forall {A} (P : A -> Prop) p xs :
  Forall P xs -> Forall P (filter p xs).
Proof.
  intros H. apply Forall_forall. intros x Hx. apply filter_In in Hx as [Hx _].
  rewrite Forall_forall in H. auto.
Qed.

(** The number of periods in the market is an integer. *)
Lemma py_int_sum_positions xs :
  Forall is_position xs -> exists n, py_int (s_sum xs) = inr n.
Proof.
  intros H. unfold s_sum, fsum.
  destruct (fold_fadd_positions (filter notna xs) 0%Q) as [q Hq].
  { now apply filter_Forall. }
  rewrite Hq. simpl. eauto.
Qed.

Lemma fzero_map xs :
  Forall fzero xs -> exists qs, xs = map Fin qs /\ Forall (fun q => q == 0)%Q qs.
Proof.
  induction 1 as [|x xs Hx _ (qs & -> & Hqs)].
  - exists []. auto.
  - destruct x as [| | |q]; try contradiction.
    exists (q :: qs). split; [reflexivity | constructor; auto].
Qed.

Lemma fold_Qplus_zeros (g : Q -> Q) qs a :
  (forall x, In x qs -> (g x == 0)%Q) ->
  (fold_left Qplus (map g qs) a == a)%Q.
Proof.
  revert a; induction qs as [|q qs IH]; intros a H; simpl.
  - reflexivity.
  - rewrite IH by (intros; apply H; now right).
    rewrite (H q) by now left. ring.
Qed.

Lemma filter_notna_Fin qs : filter notna (map Fin qs) = map Fin qs.
Proof. induction qs as [|q qs IH]; simpl; auto. now rewrite IH. Qed.

Lemma Qltb_irrefl_eq a b : (a == b)%Q -> Qltb a b = false.
Proof.
  intros H. unfold Qltb. apply negb_false_iff, Qle_bool_iff. lra.
Qed.

(** The standard deviation of a column of zeros is not positive. *)
Lemma s_std_zeros xs :
  Forall fzero xs -> fgt (s_std qsqrt xs) (of_Z 0) = false.
Proof.
  intros H. destruct (fzero_map xs H) as (qs & -> & Hqs).
  unfold s_std. rewrite filter_notna_Fin, length_map.
  destruct (Nat.leb_spec (length qs) 1) as [Hl|Hl]; [reflexivity|].
  rewrite fsum_Fin. unfold of_nat, of_Z. cbn [fdiv].
  destruct (Qeq_bool (inject_Z (Z.of_nat (length qs))) 0) eqn:En.
  { apply Qeq_bool_iff in En. unfold Qeq in En; simpl in En. lia. }
  rewrite ssqdm_Fin. cbn [fdiv].
  destruct (Qeq_bool (inject_Z (Z.of_nat (length qs - 1))) 0) eqn:En1.
  { apply Qeq_bool_iff in En1. unfold Qeq in En1; simpl in En1. lia. }
  set (m := (Qsum qs / inject_Z (Z.of_nat (length qs)))%Q).
  assert (Hm : (m == 0)%Q).
  { unfold m, Qsum.
    rewrite <- (map_id qs) at 1.
    rewrite (fold_Qplus_zeros (fun q => q) qs 0%Q).
    - unfold Qdiv. ring.
    - rewrite Forall_forall in Hqs. auto. }
  set (S2 := Qsum (map (fun q => (q + - m) * (q + - m))%Q qs)).
  assert (HS : (S2 == 0)%Q).
  { unfold S2, Qsum. apply fold_Qplus_zeros.
    rewrite Forall_forall in Hqs. intros x Hx.
    rewrite (Hqs x Hx), Hm. ring. }
  assert (Hv : (S2 / inject_Z (Z.of_nat (length qs - 1)) == 0)%Q).
  { rewrite HS. unfold Qdiv. ring. }
  unfold np_sqrt. rewrite (Qltb_irrefl_eq _ 0%Q Hv).
  unfold fgt, flt. apply Qltb_irrefl_eq. symmetry. now apply qsqrt_zero.
Qed.

Lemma shift_0 xs : shift 0 xs = xs.
Proof.
  unfold shift. simpl. now rewrite Nat.sub_0_r, firstn_all.
Qed.

Lemma zip_with_diag {A C} (g : A -> A -> C) xs :
  zip_with g xs xs = map (fun x => g x x) xs.
Proof. induction xs as [|x xs IH]; simpl; auto. now rewrite IH. Qed.

(** At horizon 0 every forward return is zero. *)
Lemma future_ret_0 price :
  forallb good_price price = true -> Forall fzero (future_ret 0 price).
Proof.
  intros Hg. unfold future_ret, s_sub_scalar, s_div. simpl Z.opp.
  rewrite shift_0, zip_with_diag, map_map.
  apply Forall_forall. intros x Hx. apply in_map_iff in Hx as (p & <- & Hp).
  rewrite forallb_forall in Hg. specialize (Hg p Hp).
  destruct p as [| | |a]; try discriminate.
  simpl in Hg. apply negb_true_iff in Hg. simpl. rewrite Hg.
  unfold fzero. simpl. apply Qeq_bool_neq in Hg. field. exact Hg.
Qed.

Lemma zip_with_Forall {A B C} (g : A -> B -> C) (P : A -> Prop) (Q : B -> Prop)
    (R : C -> Prop) xs ys :
  (forall x y, P x -> Q y -> R (g x y)) ->
  Forall P xs -> Forall Q ys -> Forall R (zip_with g xs ys).
Proof.
  intros Hg Hx. revert ys; induction Hx as [|x xs Hx _ IH]; intros ys Hy;
    simpl; [constructor|].
  destruct Hy as [|y ys Hy Hys]; constructor; auto.
Qed.

Lemma position_times_zero s x : is_position s -> fzero x -> fzero (fmul s x).
Proof.
  unfold fzero. intros [->| ->] Hx; destruct x as [| | |q]; try contradiction;
    simpl in *; rewrite Hx; ring.
Qed.

Lemma bt_signal_length L thr w price trend :
  length price = length trend ->
  length (bt_signal L thr w price trend) = length (bt_bh_ret L price).
Proof.
  intros Hl. unfold bt_signal, bt_bh_ret.
  apply mask_filter_length_eq.
  now rewrite signal_col_length, future_ret_length.
Qed.

(** C3, as the code has it.  The backtest has no check of the horizon and
    raises no horizon error.  On a table of [n >= 1] rows
    whose prices are finite and not zero, a horizon [L] with [-n < L <= 0]
    is accepted: the backtest returns its table and metrics for the
    horizon [L] (no error is raised). *)
Theorem backtest_nonpositive_horizon h df f ds price trend L thr w :
  nth_error h df = Some f -> wf_frame f ->
  get_col "ds" f = Some ds ->
  get_col "price" f = Some price -> get_col "trend" f = Some trend ->
  forallb good_price price = true ->
  (0 <= w)%Z ->
  (- Z.of_nat (length price) < L <= 0)%Z ->
  exists out m h',
    backtest_trend_signal qsqrt df L thr w h = (inr (out, m), h') /\
    lag_used m = L /\
    nth_error h' out = Some (bt_table L thr w ds price trend).
Proof.
  intros Hf Hwf Hds Hp Ht Hg Hw HL.
  assert (Hlen : length price = length trend).
  { rewrite (get_col_wf _ _ _ Hwf Hp), (get_col_wf _ _ _ Hwf Ht). reflexivity. }
  destruct (backtest_run h df f price trend L thr w Hf Hwf Hp Ht Hw)
    as (l3 & Hl3 & Heq).
  rewrite Hds in Heq.
  assert (Hbh : bt_bh_ret L price <> []).
  { unfold bt_bh_ret.
    apply (mask_filter_not_nil _ _ (length price - 1)).
    - rewrite future_ret_length. lia.
    - assert (Hin : In (nth (length price - 1) price NaN) price)
        by (apply nth_In; lia).
      assert (Hin' : In (nth (Z.to_nat (Z.of_nat (length price - 1) + L)) price NaN) price)
        by (apply nth_In; lia).
      rewrite forallb_forall in Hg.
      apply bt_keep_inside; [lia | lia | auto |].
      specialize (Hg _ Hin'). now destruct (nth _ price NaN). }
  assert (Hsg : Forall is_position (bt_signal L thr w price trend))
    by apply mask_filter_Forall, signal_col_positions.
  assert (Hsr : length (bt_strategy_ret L thr w price trend)
                = length (bt_bh_ret L price)).
  { unfold bt_strategy_ret, s_mul.
    rewrite zip_with_length, bt_signal_length by assumption. lia. }
  assert (Hsum : exists m,
    bt_summary L (equity (bt_strategy_ret L thr w price trend))
      (equity (bt_bh_ret L price)) (bt_strategy_ret L thr w price trend)
      (bt_signal L thr w price trend) = inr m /\ lag_used m = L).
  { unfold bt_summary.
    destruct (rev (equity (bt_strategy_ret L thr w price trend))) as [|a a'] eqn:Ea.
    { apply (f_equal (@length f64)) in Ea.
      rewrite length_rev, equity_length, Hsr in Ea.
      destruct (bt_bh_ret L price); simpl in *; congruence. }
    destruct (rev (equity (bt_bh_ret L price))) as [|b b'] eqn:Eb.
    { apply (f_equal (@length f64)) in Eb.
      rewrite length_rev, equity_length in Eb.
      destruct (bt_bh_ret L price); simpl in *; congruence. }
    destruct (py_int_sum_positions _ Hsg) as [n Hn]. rewrite Hn.
    destruct (Z.eq_dec L 0) as [->|HL0].
    - rewrite s_std_zeros; [eexists; split; reflexivity|].
      unfold bt_strategy_ret, s_mul.
      eapply zip_with_Forall; [apply position_times_zero | exact Hsg |].
      apply mask_filter_Forall, future_ret_0, Hg.
    - unfold py_div_int. destruct (Z.eqb_spec L 0); [contradiction|].
      destruct (fgt _ _); eexists; split; reflexivity. }
  destruct Hsum as (m & Hm & HmL). rewrite Hm in Heq.
  exists (length h + 3), m, (h ++ l3 ++ [bt_table L thr w ds price trend]).
  split; [assumption|]. split; [assumption|].
  rewrite app_assoc, nth_error_app2 by (rewrite length_app; lia).
  rewrite length_app, Hl3.
  replace (length h + 3 - (length h + 3)) with 0 by lia. reflexivity.
Qed.

(** ** The lag scan *)

Lemma np_corrcoef_pearson xs ys :
  length xs = length ys -> np_corrcoef qsqrt xs ys = inr (pearson xs ys).
Proof.
  intros H. unfold np_corrcoef. now rewrite H, Nat.eqb_refl.
Qed.

Lemma lag_pair_fst_length lag price trend :
  length price = length trend ->
  length (fst (lag_pair lag price trend)) = overlap (length price) lag.
Proof.
  intros Hl. unfold lag_pair, overlap, slice_from, slice_to, slice_bound.
  destruct (Z.ltb_spec lag 0) as [Hn|Hn]; simpl.
  - destruct (Z.ltb_spec (- lag) 0); [lia|].
    rewrite length_skipn. lia.
  - destruct (Z.ltb_spec 0 lag) as [Hp|Hp]; simpl.
    + destruct (Z.ltb_spec (- lag) 0); [|lia].
      rewrite length_firstn. lia.
    + replace lag with 0%Z by lia. simpl. lia.
Qed.

(** Where at least one row is paired, the slices of the code are the
    pairing of the specification. *)
Lemma lag_pair_lagged_pairs lag price trend :
  length price = length trend ->
  0 < overlap (length price) lag ->
  lag_pair lag price trend = lagged_pairs lag price trend.
Proof.
  intros Hl Ho. unfold overlap in Ho.
  unfold lag_pair, lagged_pairs, slice_from, slice_to, slice_bound.
  destruct (Z.ltb_spec lag 0) as [Hn|Hn].
  - destruct (Z.ltb_spec 0 lag); [lia|].
    destruct (Z.ltb_spec (- lag) 0); [lia|].
    destruct (Z.ltb_spec (Z.of_nat (length price) + lag) 0); [lia|].
    f_equal; f_equal; lia.
  - destruct (Z.ltb_spec 0 lag) as [Hp|Hp]; [|reflexivity].
    destruct (Z.ltb_spec (- lag) 0); [|lia].
    destruct (Z.ltb_spec lag 0); [lia|].
    f_equal; f_equal; lia.
Qed.

Lemma for_each_pure {A B} (g : A -> B) (body : A -> M B) xs s :
  (forall x, In x xs -> body x s = (inr (g x), s)) ->
  for_each xs body s = (inr (map g xs), s).
Proof.
  induction xs as [|x xs IH]; intros H; simpl; [reflexivity|].
  unfold bind at 1. rewrite (H x) by now left.
  unfold bind at 1. rewrite IH by (intros; apply H; now right).
  reflexivity.
Qed.

Lemma scan_body price trend lag s :
  length price = length trend ->
  (let '(x, y) := lag_pair lag price trend in
   corr <- (if length x <? 5 then ret NaN
            else lift_res (np_corrcoef qsqrt x y)) ;;
   ret (lag, corr)) s
  = (inr (lag, lag_correlation lag price trend), s).
Proof.
  intros Hl. unfold lag_correlation.
  pose proof (lag_pair_fst_length lag price trend Hl) as Hx.
  destruct (Nat.ltb_spec (overlap (length price) lag) 5) as [Ho|Ho].
  - destruct (lag_pair lag price trend) as [x y]. simpl in Hx.
    rewrite Hx. destruct (Nat.ltb_spec (overlap (length price) lag) 5); [|lia].
    reflexivity.
  - rewrite <- (lag_pair_lagged_pairs lag price trend) by (assumption || lia).
    assert (Hy : length (snd (lag_pair lag price trend))
                 = length (fst (lag_pair lag price trend))).
    { rewrite lag_pair_lagged_pairs by (assumption || lia).
      unfold lagged_pairs, overlap in *.
      destruct (Z.ltb_spec 0 lag); simpl.
      - rewrite length_skipn, length_firstn. lia.
      - destruct (Z.ltb_spec lag 0); simpl.
        + rewrite length_skipn, length_firstn. lia.
        + auto. }
    destruct (lag_pair lag price trend) as [x y]. simpl in *.
    rewrite Hx. destruct (Nat.ltb_spec (overlap (length price) lag) 5); [lia|].
    rewrite np_corrcoef_pearson by congruence. reflexivity.
Qed.

Lemma compute_lagged_correlations_run h df f price trend max_lag :
  nth_error h df = Some f ->
  get_col "price" f = Some price -> get_col "trend" f = Some trend ->
  length price = length trend ->
  compute_lagged_correlations qsqrt df max_lag h
  = (inr (length h),
     h ++ [records_frame
             (map (fun lag => (lag, lag_correlation lag price trend))
                  (scan_lags max_lag))]).
Proof.
  intros Hf Hp Ht Hl. unfold compute_lagged_correlations.
  rewrite (run_getitem_old h df f _ _ _ Hf Hp).
  rewrite (run_getitem_old h df f _ _ _ Hf Ht).
  unfold bind at 1.
  rewrite (for_each_pure (fun lag => (lag, lag_correlation lag price trend))).
  - reflexivity.
  - intros lag _. now apply scan_body.
Qed.

Lemma py_range_length a b : length (py_range a b) = Z.to_nat (b - a).
Proof. unfold py_range. now rewrite length_map, length_seq. Qed.

Lemma nth_py_range a b i :
  i < Z.to_nat (b - a) -> nth i (py_range a b) 0%Z = (a + Z.of_nat i)%Z.
Proof.
  intros Hi. unfold py_range.
  rewrite (nth_map_in _ _ _ 0) by now rewrite length_seq.
  now rewrite seq_nth.
Qed.

Lemma py_range_sorted a b : StronglySorted Z.lt (py_range a b).
Proof.
  unfold py_range. generalize (Z.to_nat (b - a)) as n. intros n.
  generalize 0 as s. induction n as [|n IH]; intros s; simpl; constructor.
  - apply IH.
  - apply Forall_forall. intros x Hx.
    apply in_map_iff in Hx as (j & <- & Hj). apply in_seq in Hj. lia.
Qed.

(** C1.  On an aligned table and for [max_lag >= 0] the scan returns a new
    table of exactly [2 * max_lag + 1] entries; entry [i] has lag
    [-max_lag + i], so the lags increase strictly from [-max_lag] to
    [+max_lag]; the correlation of an entry is undefined when fewer than 5
    rows are paired at its lag, and otherwise it is the Pearson
    correlation of the paired slices: indicator rows [0 .. n-lag) against
    price rows [lag .. n) for a positive lag, symmetrically for a negative
    one, the whole columns at lag 0. *)
Theorem scan_lags_table h df f price trend max_lag :
  nth_error h df = Some f -> wf_frame f ->
  get_col "price" f = Some price -> get_col "trend" f = Some trend ->
  (0 <= max_lag)%Z ->
  exists lags corrs,
    compute_lagged_correlations qsqrt df max_lag h
    = (inr (length h),
       h ++ [[("lag"%string, map of_Z lags); ("correlation"%string, corrs)]]) /\
    Z.of_nat (length lags) = (2 * max_lag + 1)%Z /\
    length corrs = length lags /\
    StronglySorted Z.lt lags /\
    nth 0 lags 0%Z = (- max_lag)%Z /\
    nth (length lags - 1) lags 0%Z = max_lag /\
    forall i, i < length lags ->
      let lag := nth i lags 0%Z in
      let n := length price in
      lag = (- max_lag + Z.of_nat i)%Z /\
      (overlap n lag < 5 -> nth i corrs NaN = NaN) /\
      (5 <= overlap n lag ->
         (0 < lag)%Z ->
         nth i corrs NaN
         = pearson (firstn (n - Z.to_nat lag) trend) (skipn (Z.to_nat lag) price)) /\
      (5 <= overlap n lag ->
         (lag < 0)%Z ->
         nth i corrs NaN
         = pearson (skipn (Z.to_nat (- lag)) trend)
                   (firstn (n - Z.to_nat (- lag)) price)) /\
      (5 <= overlap n lag -> lag = 0%Z -> nth i corrs NaN = pearson trend price).
Proof.
  intros Hf Hwf Hp Ht Hm.
  assert (Hl : length price = length trend).
  { rewrite (get_col_wf _ _ _ Hwf Hp), (get_col_wf _ _ _ Hwf Ht). reflexivity. }
  exists (scan_lags max_lag),
         (map (fun lag => lag_correlation lag price trend) (scan_lags max_lag)).
  assert (Hlen : length (scan_lags max_lag) = Z.to_nat (2 * max_lag + 1)).
  { unfold scan_lags. rewrite py_range_length. f_equal. lia. }
  split.
  { rewrite (compute_lagged_correlations_run h df f price trend max_lag Hf Hp Ht Hl).
    f_equal. f_equal. unfold records_frame.
    destruct (scan_lags max_lag) as [|l0 ls] eqn:E.
    - cbn [length] in Hlen. lia.
    - cbn [map]. rewrite !map_map. reflexivity. }
  split; [lia|]. split; [now rewrite length_map|].
  split; [apply py_range_sorted|].
  unfold scan_lags in *.
  split; [rewrite nth_py_range by lia; lia|].
  split; [rewrite nth_py_range by lia; lia|].
  cbv zeta. intros i Hi.
  rewrite nth_py_range by lia.
  rewrite (nth_map_in _ _ _ 0%Z) by assumption.
  rewrite nth_py_range by lia.
  set (lag := (- max_lag + Z.of_nat i)%Z).
  split; [reflexivity|].
  unfold lag_correlation, lagged_pairs.
  split.
  { intros Ho. destruct (Nat.ltb_spec (overlap (length price) lag) 5); [reflexivity | lia]. }
  split; [|split].
  - intros Ho Hpos.
    destruct (Nat.ltb_spec (overlap (length price) lag) 5); [lia|].
    destruct (Z.ltb_spec 0 lag); [|lia]. simpl.
    now rewrite Zabs2Nat.abs_nat_nonneg by lia.
  - intros Ho Hneg.
    destruct (Nat.ltb_spec (overlap (length price) lag) 5); [lia|].
    destruct (Z.ltb_spec 0 lag); [lia|].
    destruct (Z.ltb_spec lag 0); [|lia]. simpl.
    replace (Z.abs_nat lag) with (Z.to_nat (- lag)) by lia. reflexivity.
  - intros Ho H0.
    destruct (Nat.ltb_spec (overlap (length price) lag) 5); [lia|].
    rewrite H0. reflexivity.
Qed.

(** ** The order of cells *)

Lemma fle_refl x : isnan x = false -> fle x x = true.
Proof. destruct x; simpl; auto; try discriminate. intros _. apply Qle_bool_iff, Qle_refl. Qed.

Lemma fle_trans x y z : fle x y = true -> fle y z = true -> fle x z = true.
Proof.
  destruct x, y, z; simpl; auto; try discriminate.
  rewrite !Qle_bool_iff. apply Qle_trans.
Qed.

Lemma not_fle_flt x y :
  isnan x = false -> isnan y = false -> fle x y = false -> flt y x = true.
Proof.
  destruct x, y; simpl; auto; try discriminate.
  intros _ _ H. unfold Qltb. now rewrite H.
Qed.

Lemma flt_fle x y : flt x y = true -> fle x y = true.
Proof.
  destruct x, y; simpl; auto.
  rewrite Qltb_lt, Qle_bool_iff. apply Qlt_le_weak.
Qed.

Lemma flt_not_fle x y : flt x y = true -> fle y x = false.
Proof.
  destruct x, y; simpl; auto; try discriminate.
  unfold Qltb. now rewrite negb_true_iff.
Qed.

Lemma flt_fle_trans x y z : flt x y = true -> fle y z = true -> flt x z = true.
Proof.
  destruct x, y, z; simpl; auto; try discriminate.
  rewrite !Qltb_lt, Qle_bool_iff. apply Qlt_le_trans.
Qed.

(** ** [np.argmax] on a column without NaN *)

Lemma fle_flt_trans x y z : fle x y = true -> flt y z = true -> flt x z = true.
Proof.
  destruct x, y, z; simpl; auto; try discriminate.
  rewrite !Qltb_lt, Qle_bool_iff. apply Qle_lt_trans.
Qed.

Lemma flt_notna_r x y : flt x y = true -> isnan y = false.
Proof. now destruct x, y. Qed.

Lemma argmax_from_spec xs : forall mp mi i,
  isnan mp = false -> forallb notna xs = true -> mi < i ->
  exists v,
    let r := argmax_from mp mi i xs in
    ((r = mi /\ v = mp) \/
     (i <= r /\ r < i + length xs /\ v = nth (r - i) xs NaN /\ flt mp v = true)) /\
    isnan v = false /\
    fle mp v = true /\
    (forall j, j < length xs -> fle (nth j xs NaN) v = true) /\
    (forall j, i + j < r -> flt (nth j xs NaN) v = true).
Proof.
  induction xs as [|x xs IH]; intros mp mi i Hmp Hxs Hmi; cbn [argmax_from].
  - exists mp. cbv zeta. split; [now left|].
    split; [assumption|]. split; [now apply fle_refl|].
    split; simpl; intros; lia.
  - simpl in Hxs. apply andb_prop in Hxs as [Hx Hxs].
    unfold notna in Hx. apply negb_true_iff in Hx.
    destruct (fle x mp) eqn:Ele; cbn [negb].
    + destruct (IH mp mi (S i) Hmp Hxs ltac:(lia)) as (v & Hr & Hv & Hmv & Hall & Hbef).
      cbv zeta in *. set (r := argmax_from mp mi (S i) xs) in *.
      exists v. destruct Hr as [[Hr ->]|(Hr1 & Hr2 & Hr3 & Hr4)].
      * split; [now left|]. split; [assumption|]. split; [assumption|].
        split.
        -- intros [|j] Hj; [assumption | apply Hall; simpl in Hj; lia].
        -- intros j Hj. lia.
      * split.
        { right. split; [lia|]. split; [simpl; lia|]. split; [|assumption].
          replace (r - i) with (S (r - S i)) by lia. exact Hr3. }
        split; [assumption|]. split; [assumption|]. split.
        -- intros [|j] Hj; [eauto using fle_trans | apply Hall; simpl in Hj; lia].
        -- intros [|j] Hj; [eauto using fle_flt_trans | apply Hbef; lia].
    + rewrite Hx.
      assert (Hlt : flt mp x = true) by now apply not_fle_flt.
      destruct (IH x i (S i) Hx Hxs ltac:(lia)) as (v & Hr & Hv & Hmv & Hall & Hbef).
      cbv zeta in *. set (r := argmax_from x i (S i) xs) in *.
      exists v. destruct Hr as [[Hr ->]|(Hr1 & Hr2 & Hr3 & Hr4)].
      * split.
        { right. rewrite Hr. split; [lia|]. split; [simpl; lia|].
          rewrite Nat.sub_diag. split; [reflexivity | assumption]. }
        split; [assumption|]. split; [now apply flt_fle|]. split.
        -- intros [|j] Hj; [assumption | apply Hall; simpl in Hj; lia].
        -- intros j Hj. lia.
      * split.
        { right. split; [lia|]. split; [simpl; lia|]. split.
          - replace (r - i) with (S (r - S i)) by lia. exact Hr3.
          - eauto using flt_fle_trans, flt_fle. }
        split; [assumption|].
        split; [eauto using fle_trans, flt_fle|]. split.
        -- intros [|j] Hj; [assumption | apply Hall; simpl in Hj; lia].
        -- intros [|j] Hj; [assumption | apply Hbef; lia].
Qed.

(** On a column that is not empty and has no NaN, [argmax] is the first
    index of a greatest value. *)
Lemma argmax_spec xs :
  xs <> [] -> forallb notna xs = true ->
  let r := argmax xs in
  r < length xs /\
  (forall j, j < length xs -> fle (nth j xs NaN) (nth r xs NaN) = true) /\
  (forall j, j < r -> flt (nth j xs NaN) (nth r xs NaN) = true).
Proof.
  destruct xs as [|x xs]; [congruence|]. intros _ Hn. simpl in Hn.
  apply andb_prop in Hn as [Hx Hxs].
  unfold notna in Hx. apply negb_true_iff in Hx.
  cbv zeta. unfold argmax. rewrite Hx.
  destruct (argmax_from_spec xs x 0 1 Hx Hxs ltac:(lia)) as (v & Hr & Hv & Hmv & Hall & Hbef).
  cbv zeta in *. set (r := argmax_from x 0 1 xs) in *.
  assert (Hval : nth r (x :: xs) NaN = v /\ r < length (x :: xs)).
  { destruct Hr as [[-> ->]|(Hr1 & Hr2 & Hr3 & _)]; [simpl; split; [reflexivity|lia]|].
    split; [|simpl; lia].
    replace r with (S (r - 1)) at 1 by lia. simpl. now rewrite Hr3. }
  destruct Hval as [Hval Hlt]. rewrite Hval.
  split; [assumption|]. split.
  - intros [|j] Hj; [assumption | apply Hall; simpl in Hj; lia].
  - intros [|j] Hj.
    + simpl. destruct Hr as [[Hr0 _]|(_ & _ & _ & Hr4)]; [lia | assumption].
    + apply Hbef. lia.
Qed.

(** ** The best leading lag *)

Lemma run_getmask_old {B} (h : heap) df f mask (K : loc -> M B) :
  nth_error h df = Some f ->
  bind (getmask df mask) K h = K (length h + 0) (h ++ [filter_rows mask f]).
Proof.
  intros Hf. unfold getmask, bind, deref, new_frame. rewrite Hf.
  now rewrite Nat.add_0_r.
Qed.

Lemma run_iloc_row {B} (h l : heap) k f i (K : list (string * f64) -> M B) :
  nth_error l k = Some f -> i < nrows f ->
  bind (iloc_row (length h + k) i) K (h ++ l) = K (frame_row i f) (h ++ l).
Proof.
  intros Hf Hi. unfold iloc_row, bind, deref.
  rewrite nth_error_new, Hf.
  destruct (Nat.ltb_spec i (nrows f)); [reflexivity | lia].
Qed.

Lemma row_get_frame_row c i f :
  row_get c (frame_row i f) = option_map (fun v => nth i v NaN) (get_col c f).
Proof.
  induction f as [|[d v] f IH]; simpl; auto.
  destruct (String.eqb c d); auto.
Qed.

Lemma nrows_filter_rows mask f c v :
  wf_frame f -> get_col c f = Some v ->
  nrows (filter_rows mask f) = length (mask_filter mask v).
Proof.
  intros Hwf Hc. pose proof (get_col_wf _ _ _ Hwf Hc) as Hl.
  destruct f as [|[d u] f]; [discriminate|]. simpl in *.
  apply mask_filter_length_eq. congruence.
Qed.

Lemma wf_filter_rows mask f : wf_frame f -> wf_frame (filter_rows mask f).
Proof.
  intros Hwf. destruct f as [|[d u] f]; [constructor|].
  unfold wf_frame in *. simpl in *.
  apply Forall_forall. intros [c v] Hin.
  change ((c, v) :: nil) with [(c, v)] in *.
  assert (Hin' : In (c, v) (filter_rows mask ((d, u) :: f))) by exact Hin.
  unfold filter_rows in Hin'. apply in_map_iff in Hin' as ([c' v'] & Heq & Hin'').
  inversion Heq; subst. simpl.
  rewrite Forall_forall in Hwf. specialize (Hwf _ Hin''). simpl in Hwf.
  now apply mask_filter_length_eq.
Qed.

Lemma filter_rows_not_nil mask f : f <> [] -> filter_rows mask f <> [].
Proof. destruct f; simpl; congruence. Qed.

(** Rows selected by a mask computed from the rows themselves. *)
Lemma mask_filter_rows {A B} (p : A * B -> bool) (a : list A) (b : list B) :
  length a = length b ->
  mask_filter (map p (combine a b)) a = map fst (filter p (combine a b)) /\
  mask_filter (map p (combine a b)) b = map snd (filter p (combine a b)).
Proof.
  revert b; induction a as [|x a IH]; intros [|y b] Hl; simpl in *;
    try discriminate; auto.
  destruct (IH b ltac:(lia)) as [H1 H2].
  destruct (p (x, y)); simpl; rewrite H1, H2; auto.
Qed.

Lemma mask_filter_pairs {A B} (p : A * B -> bool) (rows : list (A * B)) :
  mask_filter (map p rows) (map fst rows) = map fst (filter p rows) /\
  mask_filter (map p rows) (map snd rows) = map snd (filter p rows).
Proof.
  induction rows as [|r rows [H1 H2]]; simpl; auto.
  destruct (p r); simpl; rewrite H1, H2; auto.
Qed.

Lemma combine_fst_snd {A B} (l : list (A * B)) :
  combine (map fst l) (map snd l) = l.
Proof. induction l as [|[x y] l IH]; simpl; auto. now rewrite IH. Qed.

Lemma map_fst_combine {A B C} (g : A -> C) (a : list A) (b : list B) :
  length a = length b -> map g a = map (fun p => g (fst p)) (combine a b).
Proof.
  revert b; induction a as [|x a IH]; intros [|y b] Hl; simpl in *;
    try discriminate; auto.
  rewrite (IH b) by lia. reflexivity.
Qed.

Lemma find_best_leading_lag_run h df f lags corrs :
  nth_error h df = Some f -> wf_frame f ->
  get_col "lag" f = Some lags -> get_col "correlation" f = Some corrs ->
  exists l2,
    find_best_leading_lag df h
    = (best_of (leading_rows lags corrs), h ++ l2).
Proof.
  intros Hf Hwf Hl Hc. eexists.
  assert (Hlen : length lags = length corrs).
  { rewrite (get_col_wf _ _ _ Hwf Hl), (get_col_wf _ _ _ Hwf Hc). reflexivity. }
  unfold find_best_leading_lag.
  rewrite (run_getitem_old h df f _ _ _ Hf Hl).
  rewrite (run_getmask_old h df f _ _ Hf).
  set (m1 := s_gt lags (of_Z 0)).
  set (rows1 := filter (fun p : f64 * f64 => fgt (fst p) (of_Z 0)) (combine lags corrs)).
  assert (Hm1 : mask_filter m1 lags = map fst rows1 /\
                mask_filter m1 corrs = map snd rows1).
  { unfold m1, s_gt. rewrite (map_fst_combine _ lags corrs Hlen).
    apply (mask_filter_rows (fun p => fgt (fst p) (of_Z 0))). exact Hlen. }
  destruct Hm1 as [Hm1l Hm1c].
  erewrite run_dropna_subset;
    [ | reflexivity
      | cbn [get_cols]; rewrite get_col_filter_rows, Hc; reflexivity ].
  norm_heap.
  rewrite (nrows_filter_rows m1 f _ _ Hwf Hc).
  rewrite notna_mask_one by reflexivity.
  set (m2 := map notna (mask_filter m1 corrs)).
  assert (Hm2 : mask_filter m2 (mask_filter m1 lags)
                = map fst (leading_rows lags corrs) /\
                mask_filter m2 (mask_filter m1 corrs)
                = map snd (leading_rows lags corrs)).
  { unfold m2, leading_rows. fold rows1. rewrite Hm1l, Hm1c, map_map.
    apply (mask_filter_pairs (fun p : f64 * f64 => notna (snd p))). }
  destruct Hm2 as [Hm2l Hm2c].
  set (lead := filter_rows m2 (filter_rows m1 f)).
  assert (Hgl : get_col "lag" lead = Some (map fst (leading_rows lags corrs))).
  { unfold lead. rewrite !get_col_filter_rows, Hl. simpl. now rewrite Hm2l. }
  assert (Hgc : get_col "correlation" lead = Some (map snd (leading_rows lags corrs))).
  { unfold lead. rewrite !get_col_filter_rows, Hc. simpl. now rewrite Hm2c. }
  assert (Hwfl : wf_frame lead) by (unfold lead; auto using wf_filter_rows).
  assert (Hnr : nrows lead = length (leading_rows lags corrs)).
  { rewrite <- (get_col_wf _ _ _ Hwfl Hgl). now rewrite length_map. }
  erewrite run_is_empty; [ | reflexivity ].
  assert (Hemp : frame_empty lead = Nat.eqb (length (leading_rows lags corrs)) 0).
  { unfold frame_empty. rewrite Hnr.
    destruct lead eqn:E; [|reflexivity].
    exfalso. revert E. unfold lead.
    apply filter_rows_not_nil, filter_rows_not_nil.
    eapply get_col_not_nil; eauto. }
  rewrite Hemp. unfold best_of.
  destruct (leading_rows lags corrs) as [|r0 rows] eqn:Erows; [reflexivity|].
  cbn [length Nat.eqb]. rewrite <- Erows in *.
  erewrite run_getitem; [ | reflexivity | exact Hgc ].
  assert (Hidx : argmax (s_abs (map snd (leading_rows lags corrs))) < nrows lead).
  { rewrite Hnr.
    destruct (argmax_spec (s_abs (map snd (leading_rows lags corrs)))) as [Hlt _].
    - rewrite Erows. discriminate.
    - unfold s_abs. rewrite map_map. apply forallb_forall. intros x Hx.
      apply in_map_iff in Hx as (p & <- & Hp).
      unfold leading_rows in Hp. apply filter_In in Hp as [_ Hp].
      destruct (snd p); auto.
    - unfold s_abs in *. now rewrite !length_map in *. }
  erewrite run_iloc_row; [ | reflexivity | exact Hidx ].
  rewrite row_get_frame_row, Hgl. cbn [option_map]. rewrite run_lift_opt.
  destruct (py_int _) as [e|l]; [now rewrite run_lift_res_err|].
  rewrite run_lift_res.
  rewrite row_get_frame_row, Hgc. cbn [option_map]. rewrite run_lift_opt.
  reflexivity.
Qed.

Lemma filter_filter_andb {A} (p q : A -> bool) l :
  filter q (filter p l) = filter (fun x => p x && q x) l.
Proof.
  induction l as [|x l IH]; simpl; auto.
  destruct (p x); simpl; [destruct (q x)|]; now rewrite IH.
Qed.

Lemma filter_map_comm {A B} (g : A -> B) (q : B -> bool) l :
  filter q (map g l) = map g (filter (fun x => q (g x)) l).
Proof.
  induction l as [|x l IH]; simpl; auto.
  destruct (q (g x)); simpl; now rewrite IH.
Qed.

Lemma combine_map_l {A B C} (g : A -> C) (a : list A) (b : list B) :
  combine (map g a) b = map (fun p => (g (fst p), snd p)) (combine a b).
Proof.
  revert b; induction a as [|x a IH]; intros [|y b]; simpl; auto.
  now rewrite IH.
Qed.

Lemma fgt_of_Z l : fgt (of_Z l) (of_Z 0) = (0 <? l)%Z.
Proof.
  unfold fgt, flt, of_Z, Qltb, Qle_bool. simpl.
  rewrite Z.mul_1_r. destruct (Z.ltb_spec 0 l), (Z.leb_spec l 0); auto; lia.
Qed.

Lemma leading_rows_entries lags corrs :
  leading_rows (map of_Z lags) corrs
  = map (fun p => (of_Z (fst p), snd p)) (leading_entries lags corrs).
Proof.
  unfold leading_rows, leading_entries.
  rewrite filter_filter_andb, combine_map_l, filter_map_comm.
  f_equal. apply filter_ext. intros [l c]. cbn [fst snd]. now rewrite fgt_of_Z.
Qed.

Lemma py_int_of_Z l : py_int (of_Z l) = inr l.
Proof. unfold py_int, of_Z. simpl. now rewrite Z.quot_1_r. Qed.

Lemma sorted_map_fst_filter (p : Z * f64 -> bool) lags corrs :
  StronglySorted Z.lt lags ->
  StronglySorted Z.lt (map fst (filter p (combine lags corrs))).
Proof.
  intros Hs. revert corrs; induction Hs as [|l lags Hs IH Hall]; intros [|c corrs];
    simpl; try constructor.
  destruct (p (l, c)); simpl; [|apply IH].
  constructor; [apply IH|].
  apply Forall_forall. intros x Hx.
  apply in_map_iff in Hx as ([l' c'] & <- & Hin).
  apply filter_In in Hin as [Hin _]. apply in_combine_l in Hin.
  rewrite Forall_forall in Hall. simpl. auto.
Qed.

Lemma sorted_nth_le ls i j :
  StronglySorted Z.lt ls -> i <= j -> j < length ls ->
  (nth i ls 0 <= nth j ls 0)%Z.
Proof.
  intros Hs. revert i j; induction Hs as [|l ls Hs IH Hall]; intros i j Hij Hj;
    simpl in *; [lia|].
  destruct i as [|i], j as [|j]; try lia.
  - rewrite Forall_forall in Hall.
    assert (l < nth j ls 0)%Z by (apply Hall, nth_In; lia). lia.
  - apply IH; lia.
Qed.

Lemma leading_entries_In lags corrs l c :
  In (l, c) (leading_entries lags corrs)
  <-> In (l, c) (combine lags corrs) /\ qualifies l c.
Proof.
  unfold leading_entries, qualifies. rewrite filter_In. simpl.
  rewrite andb_true_iff, Z.ltb_lt. unfold notna. rewrite negb_true_iff.
  tauto.
Qed.

(** C2.  On a table with integer lags the search returns no entry exactly
    when no entry has a positive lag and a defined correlation; an entry
    that it returns is such an entry of the table, its absolute
    correlation is at least that of every such entry, and where the lags
    of the table increase it has the smallest lag among the entries that
    reach its absolute correlation. *)
Theorem find_best_leading_lag_spec h df f lags corrs :
  nth_error h df = Some f -> wf_frame f ->
  get_col "lag" f = Some (map of_Z lags) ->
  get_col "correlation" f = Some corrs ->
  exists r l2,
    find_best_leading_lag df h = (inr r, h ++ l2) /\
    (r = None <->
     forall l c, In (l, c) (combine lags corrs) -> ~ qualifies l c) /\
    forall b, r = Some b ->
      In (lag b, correlation b) (combine lags corrs) /\
      qualifies (lag b) (correlation b) /\
      (forall l c, In (l, c) (combine lags corrs) -> qualifies l c ->
         fle (fabs c) (fabs (correlation b)) = true) /\
      (StronglySorted Z.lt lags ->
       forall l c, In (l, c) (combine lags corrs) -> qualifies l c ->
         fle (fabs (correlation b)) (fabs c) = true -> (lag b <= l)%Z).
Proof.
  intros Hf Hwf Hl Hc.
  destruct (find_best_leading_lag_run h df f _ _ Hf Hwf Hl Hc) as [l2 Hrun].
  rewrite leading_rows_entries in Hrun.
  assert (HIn : forall l c, In (l, c) (leading_entries lags corrs)
                  <-> In (l, c) (combine lags corrs) /\ qualifies l c)
    by apply leading_entries_In.
  assert (Hsorted : StronglySorted Z.lt lags ->
                    StronglySorted Z.lt (map fst (leading_entries lags corrs)))
    by apply sorted_map_fst_filter.
  set (es := leading_entries lags corrs) in *. clearbody es.
  destruct es as [|e0 es'] eqn:Ees.
  { exists None, l2. split; [exact Hrun|]. split; [|discriminate].
    split; [|reflexivity]. intros _ l c Hin Hq.
    apply (HIn l c). auto. }
  rewrite <- Ees in *.
  assert (Hne : es <> []) by (rewrite Ees; discriminate).
  clear e0 es' Ees.
  unfold best_of in Hrun.
  destruct (map _ es) as [|r0 rs] eqn:Emap.
  { destruct es; [congruence | discriminate]. }
  rewrite <- Emap in Hrun. clear r0 rs Emap.
  rewrite !map_map in Hrun. cbn [fst snd] in Hrun.
  set (xs := s_abs (map (fun p : Z * f64 => snd p) es)) in *.
  assert (Hxs : xs = map (fun p : Z * f64 => fabs (snd p)) es)
    by (unfold xs, s_abs; now rewrite map_map).
  assert (Hlen : length xs = length es) by (rewrite Hxs; now rewrite length_map).
  destruct (argmax_spec xs) as (Hidx & Hmax & Hfirst).
  { rewrite Hxs. destruct es; [congruence | discriminate]. }
  { rewrite Hxs. apply forallb_forall. intros x Hx.
    apply in_map_iff in Hx as ([l c] & <- & Hp).
    apply HIn in Hp as [_ [_ Hp]]. simpl. now destruct c. }
  set (idx := argmax xs) in *.
  rewrite <- (map_map fst of_Z) in Hrun.
  rewrite (nth_map_in _ _ _ 0%Z) in Hrun by (rewrite length_map; lia).
  rewrite py_int_of_Z in Hrun.
  set (bl := nth idx (map fst es) 0%Z) in *.
  set (bc := nth idx (map (fun p : Z * f64 => snd p) es) NaN) in *.
  assert (Hb : nth idx es (0%Z, NaN) = (bl, bc)).
  { unfold bl, bc. rewrite (nth_map_in _ _ _ (0%Z, NaN)) by lia.
    rewrite (nth_map_in _ _ _ (0%Z, NaN)) by lia.
    now destruct (nth idx es (0%Z, NaN)). }
  assert (Hnthx : forall j, j < length es ->
            nth j xs NaN = fabs (snd (nth j es (0%Z, NaN)))).
  { intros j Hj. rewrite Hxs.
    now rewrite (nth_map_in (fun p : Z * f64 => fabs (snd p)) es j (0%Z, NaN) NaN). }
  exists (Some {| lag := bl; correlation := bc |}), l2.
  split; [exact Hrun|]. split.
  { split; [discriminate|]. intros Hnone. exfalso.
    apply (Hnone bl bc); apply (HIn bl bc); rewrite <- Hb; apply nth_In; lia. }
  intros b Hbeq. inversion Hbeq; subst b; clear Hbeq. cbn [lag correlation].
  assert (Hbin : In (bl, bc) es) by (rewrite <- Hb; apply nth_In; lia).
  split; [now apply HIn|]. split; [now apply HIn|]. split.
  - intros l c Hin Hq.
    assert (Hine : In (l, c) es) by (apply HIn; auto).
    apply (In_nth _ _ (0%Z, NaN)) in Hine as (j & Hj & Hnj).
    specialize (Hmax j ltac:(lia)).
    rewrite !Hnthx in Hmax by lia. now rewrite Hnj, Hb in Hmax.
  - intros Hs l c Hin Hq Htie.
    assert (Hine : In (l, c) es) by (apply HIn; auto).
    apply (In_nth _ _ (0%Z, NaN)) in Hine as (j & Hj & Hnj).
    destruct (Nat.lt_ge_cases j idx) as [Hlt|Hge].
    + specialize (Hfirst j Hlt). rewrite !Hnthx in Hfirst by lia.
      rewrite Hnj, Hb in Hfirst. simpl in Hfirst.
      apply flt_not_fle in Hfirst. congruence.
    + pose proof (sorted_nth_le _ idx j (Hsorted Hs) Hge
                    ltac:(rewrite length_map; lia)) as Hle.
      fold bl in Hle.
      rewrite (nth_map_in _ _ _ (0%Z, NaN)) in Hle by lia.
      now rewrite Hnj in Hle.
Qed.

(** ** The naive volatility forecast *)

Lemma mask_filter_all_false {A} mask (xs : list A) :
  Forall (fun b => b = false) mask -> mask_filter mask xs = [].
Proof.
  intros H. revert xs; induction H as [|b mask -> _ IH]; intros [|x xs];
    simpl; auto.
Qed.

Lemma notna_mask_two n a b :
  length a = n -> length b = n ->
  notna_mask n [a; b] = zip_with andb (map notna a) (map notna b).
Proof.
  intros Ha Hb. unfold notna_mask. cbn [fold_right]. fold notna.
  f_equal. rewrite <- Hb. clear.
  induction b as [|x b IH]; simpl; auto. now rewrite IH, andb_true_r.
Qed.

Lemma frame_empty_filter_none mask f :
  Forall (fun b => b = false) mask -> frame_empty (filter_rows mask f) = true.
Proof.
  intros H. destruct f as [|[c v] f]; [reflexivity|]. simpl.
  now rewrite mask_filter_all_false.
Qed.

Lemma filter_rows_all_false mask f :
  Forall (fun b => b = false) mask ->
  Forall (fun cv : string * column => snd cv = []) (filter_rows mask f).
Proof.
  intros H. apply Forall_forall. intros cv Hin.
  unfold filter_rows in Hin. apply in_map_iff in Hin as (cv' & <- & _).
  simpl. now apply mask_filter_all_false.
Qed.

Lemma realized_vol_next_length horizon r :
  length (realized_vol_next horizon r) = length r.
Proof. unfold realized_vol_next, s_abs. now rewrite shift_length, length_map. Qed.

(** C10.  When no row of a feature table has both a defined realized
    target and a defined long-window forecast, the naive evaluation raises
    no error: it returns a new table without rows, and a metrics record
    whose MAE and RMSE are both NaN. *)
Theorem naive_vol_forecast_no_valid_row h df f r v horizon :
  nth_error h df = Some f -> wf_frame f ->
  get_col "ret" f = Some r -> get_col "vol_long_ann" f = Some v ->
  (forall i, i < nrows f ->
     isnan (nth i (realized_vol_next horizon r) NaN) = true \/
     isnan (nth i v NaN) = true) ->
  exists l3 valid,
    naive_vol_forecast qsqrt df horizon h
    = (inr (length h + 2, {| MAE := NaN; RMSE := NaN |}), h ++ l3) /\
    nth_error (h ++ l3) (length h + 2) = Some valid /\
    nrows valid = 0 /\
    Forall (fun cv : string * column => snd cv = []) valid.
Proof.
  intros Hf Hwf Hr Hv Hnone.
  assert (Hlr : length r = nrows f) by (eapply get_col_wf; eauto).
  assert (Hlv : length v = nrows f) by (eapply get_col_wf; eauto).
  assert (Hne : f <> []) by (eapply get_col_not_nil; eauto).
  unfold naive_vol_forecast.
  rewrite (run_df_copy_old h df f _ Hf).
  do 4 mstep. fold (realized_vol_next horizon r).
  erewrite run_dropna_subset;
    [ | reflexivity
      | cbn [get_cols]; rewrite get_col_set_col_ne by reflexivity;
        rewrite !get_col_set_col_eq; reflexivity ].
  norm_heap.
  match goal with
  | |- context [notna_mask ?n [?a; ?b]] =>
      replace (notna_mask n [a; b])
        with (zip_with andb (map notna (realized_vol_next horizon r)) (map notna v))
  end.
  2:{ symmetry. apply notna_mask_two.
      - rewrite realized_vol_next_length, Hlr. symmetry.
        repeat (apply nrows_set_col_n;
                [first [apply set_col_not_nil | assumption] | | ]);
          rewrite ?realized_vol_next_length; congruence.
      - rewrite Hlv. symmetry.
        repeat (apply nrows_set_col_n;
                [first [apply set_col_not_nil | assumption] | | ]);
          rewrite ?realized_vol_next_length; congruence. }
  set (mask := zip_with andb (map notna (realized_vol_next horizon r)) (map notna v)).
  assert (Hmask : Forall (fun b => b = false) mask).
  { apply Forall_forall. intros b Hb.
    apply (In_nth _ _ false) in Hb as (i & Hi & <-).
    unfold mask in *. rewrite zip_with_length, !length_map in Hi.
    rewrite realized_vol_next_length in Hi.
    rewrite (nth_zip_with _ _ _ _ false false)
      by (rewrite length_map, ?realized_vol_next_length; lia).
    rewrite (nth_map_in _ _ _ NaN) by (rewrite realized_vol_next_length; lia).
    rewrite (nth_map_in _ _ _ NaN) by lia.
    unfold notna. destruct (Hnone i ltac:(lia)) as [E|E]; rewrite E; simpl; auto.
    apply andb_false_r. }
  unfold reset_index. mstep. mstep.
  rewrite frame_empty_filter_none by assumption.
  eexists. eexists. split; [reflexivity|].
  split; [rewrite nth_error_new; reflexivity|].
  split.
  - pose proof (frame_empty_filter_none mask
      (set_col "forecast_vol" v
         (set_col "realized_vol_next" (realized_vol_next horizon r) f)) Hmask) as He.
    unfold frame_empty in He.
    destruct (filter_rows mask _) eqn:E; [reflexivity|].
    now apply Nat.eqb_eq in He.
  - now apply filter_rows_all_false.
Qed.

(** ** Volatility features *)

Lemma window_at_full_length w i xs :
  i < length xs -> w <= i + 1 -> length (window_at w i xs) = w.
Proof.
  intros Hi Hw. unfold window_at. rewrite length_skipn, length_firstn. lia.
Qed.

Lemma window_at_short_length w i xs :
  i + 1 < w -> length (window_at w i xs) < w.
Proof.
  intros Hw. unfold window_at. rewrite length_skipn, length_firstn. lia.
Qed.

Lemma window_at_finite w i xs :
  forallb isfinite xs = true -> forallb isfinite (window_at w i xs) = true.
Proof.
  intros H. apply forallb_forall. intros x Hx.
  unfold window_at in Hx.
  apply (In_nth _ _ NaN) in Hx as (j & Hj & <-).
  rewrite nth_skipn.
  rewrite length_skipn, length_firstn in Hj.
  rewrite nth_firstn.
  destruct (Nat.ltb_spec (i + 1 - w + j) (i + 1)); [|lia].
  rewrite forallb_forall in H. apply H, nth_In. lia.
Qed.

Lemma Qsum_squares_nonneg m qs :
  (0 <= Qsum (map (fun q => (q + - m) * (q + - m))%Q qs))%Q.
Proof.
  unfold Qsum.
  apply (fold_Qplus_ge (fun q => (q + - m) * (q + - m))%Q qs 0%Q).
  intros y. apply Qsquare_nonneg.
Qed.

(** On a column of finite cells the rolling standard deviation over a
    window of [w >= 2] rows is undefined before row [w - 1] and finite
    from that row on. *)
Lemma roll_std_col_cases w xs i :
  forallb isfinite xs = true -> (2 <= w)%Z -> i < length xs ->
  (i < Z.to_nat w - 1 /\ nth i (roll_std_col w xs) NaN = NaN) \/
  (Z.to_nat w - 1 <= i /\ exists q, nth i (roll_std_col w xs) NaN = Fin q).
Proof.
  intros Hfin Hw Hi. rewrite nth_roll_std_col by assumption.
  unfold roll_std_at. set (W := Z.to_nat w).
  assert (HW : 2 <= W) by (unfold W; lia).
  pose proof (window_at_finite W i xs Hfin) as Hwf.
  rewrite (forallb_filter_id _ _ Hwf).
  destruct (Nat.leb_spec (W - 1) i) as [Hc|Hc].
  - right. split; [assumption|].
    rewrite window_at_full_length by lia.
    destruct (Nat.leb_spec W W); [|lia].
    destruct (Nat.ltb_spec 1 W); [|lia]. simpl andb. cbv iota.
    destruct (all_finite_map _ Hwf) as [qs Hqs].
    assert (Hlq : length qs = W).
    { rewrite <- (window_at_full_length W i xs) by lia.
      rewrite Hqs. now rewrite length_map. }
    rewrite Hqs, fsum_Fin. unfold of_nat, of_Z. cbn [fdiv].
    destruct (Qeq_bool (inject_Z (Z.of_nat W)) 0) eqn:En.
    { apply Qeq_bool_iff in En. unfold Qeq in En; simpl in En. lia. }
    rewrite ssqdm_Fin. cbn [fdiv].
    destruct (Qeq_bool (inject_Z (Z.of_nat (W - 1))) 0) eqn:En1.
    { apply Qeq_bool_iff in En1. unfold Qeq in En1; simpl in En1. lia. }
    unfold np_sqrt.
    match goal with |- context [Qltb ?v 0] => destruct (Qltb v 0) eqn:Elt end;
      [|eauto].
    exfalso. apply Qltb_lt in Elt.
    match type of Elt with (?s / ?d < 0)%Q =>
      assert (0 <= s / d)%Q end; [|lra].
    apply Qle_shift_div_l.
    + unfold Qlt; simpl. lia.
    + rewrite Qmult_0_l. apply Qsum_squares_nonneg.
  - left. split; [assumption|].
    pose proof (window_at_short_length W i xs ltac:(lia)).
    destruct (Nat.leb_spec W (length (window_at W i xs))); [lia|].
    reflexivity.
Qed.

Lemma roll_std_col_notna w xs i :
  forallb isfinite xs = true -> (2 <= w)%Z -> i < length xs ->
  notna (nth i (roll_std_col w xs) NaN) = (Z.to_nat w - 1 <=? i).
Proof.
  intros Hfin Hw Hi.
  destruct (roll_std_col_cases w xs i Hfin Hw Hi) as [[Hc ->]|[Hc [q ->]]];
    destruct (Nat.leb_spec (Z.to_nat w - 1) i); auto; lia.
Qed.

Lemma log_returns_length y : length (log_returns y) = length y.
Proof.
  unfold log_returns, fillna, s_div.
  rewrite !length_map, zip_with_length, shift_length. lia.
Qed.

Lemma nth_log_returns y t :
  t < length y ->
  nth t (log_returns y) NaN
  = let x := np_log qlog (fdiv (nth t y NaN) (nth t (shift 1 y) NaN)) in
    if isnan x then Fin 0 else x.
Proof.
  intros Ht. unfold log_returns, fillna, s_div.
  rewrite (nth_map_in _ _ _ NaN)
    by (rewrite length_map, zip_with_length, shift_length; lia).
  rewrite (nth_map_in _ _ _ NaN) by (rewrite zip_with_length, shift_length; lia).
  rewrite (nth_zip_with _ _ _ _ NaN NaN) by (rewrite ?shift_length; lia).
  reflexivity.
Qed.

(** The first log return is 0. *)
Lemma log_returns_first y : y <> [] -> nth 0 (log_returns y) NaN = Fin 0.
Proof.
  intros Hne. rewrite nth_log_returns by (destruct y; simpl; [congruence | lia]).
  rewrite nth_shift_1_0, fdiv_nan_r. reflexivity.
Qed.

Lemma pos_price_nth y t :
  forallb pos_price y = true -> t < length y ->
  exists q, nth t y NaN = Fin q /\ (0 < q)%Q.
Proof.
  intros Hy Ht. rewrite forallb_forall in Hy.
  specialize (Hy (nth t y NaN) (nth_In _ _ Ht)).
  destruct (nth t y NaN) as [| | |q]; try discriminate.
  exists q. split; [reflexivity|]. now apply Qltb_lt.
Qed.

(** From the second row on, the log return of positive prices is the
    logarithm of the price ratio. *)
Lemma log_returns_later y t :
  forallb pos_price y = true -> 1 <= t -> t < length y ->
  exists a b,
    nth t y NaN = Fin a /\ nth (t - 1) y NaN = Fin b /\
    nth t (log_returns y) NaN = np_log qlog (fdiv (Fin a) (Fin b)) /\
    nth t (log_returns y) NaN = Fin (qlog (a / b)).
Proof.
  intros Hy H1 Ht.
  destruct (pos_price_nth y t Hy Ht) as (a & Ha & Hapos).
  destruct (pos_price_nth y (t - 1) Hy ltac:(lia)) as (b & Hb & Hbpos).
  exists a, b. split; [assumption|]. split; [assumption|].
  rewrite nth_log_returns by assumption. cbv zeta.
  rewrite nth_shift by assumption.
  destruct (Z.leb_spec 0 (Z.of_nat t - 1)); [|lia].
  destruct (Z.ltb_spec (Z.of_nat t - 1) (Z.of_nat (length y))); [|lia].
  simpl andb. cbv iota.
  replace (Z.to_nat (Z.of_nat t - 1)) with (t - 1) by lia.
  rewrite Ha, Hb. cbn [fdiv].
  destruct (Qeq_bool b 0) eqn:Eb; [apply Qeq_bool_iff in Eb; lra|].
  assert (Hpos : (0 < a / b)%Q).
  { apply Qlt_shift_div_l; [assumption | lra]. }
  unfold np_log.
  destruct (Qltb (a / b) 0) eqn:E1; [apply Qltb_lt in E1; lra|].
  destruct (Qeq_bool (a / b) 0) eqn:E2; [apply Qeq_bool_iff in E2; lra|].
  split; reflexivity.
Qed.

Lemma log_returns_finite y :
  forallb pos_price y = true -> forallb isfinite (log_returns y) = true.
Proof.
  intros Hy. apply forallb_forall. intros x Hx.
  apply (In_nth _ _ NaN) in Hx as (t & Ht & <-).
  rewrite log_returns_length in Ht.
  destruct t as [|t].
  - rewrite log_returns_first; [reflexivity|]. destruct y; simpl in *; [lia | congruence].
  - destruct (log_returns_later y (S t) Hy ltac:(lia) Ht) as (a & b & _ & _ & _ & ->).
    reflexivity.
Qed.

Lemma notna_mask_length n cols :
  Forall (fun c : column => length c = n) cols -> length (notna_mask n cols) = n.
Proof.
  unfold notna_mask. induction 1 as [|c cols Hc _ IH]; simpl.
  - apply repeat_length.
  - rewrite zip_with_length, length_map, IH, Hc. lia.
Qed.

Lemma nth_notna_mask n cols i :
  Forall (fun c : column => length c = n) cols -> i < n ->
  nth i (notna_mask n cols) false
  = forallb (fun c => notna (nth i c NaN)) cols.
Proof.
  intros Hall Hi. induction Hall as [|c cols Hc Hall IH]; simpl.
  - unfold notna_mask. simpl. now rewrite nth_repeat_lt.
  - unfold notna_mask in *. simpl.
    rewrite (nth_zip_with _ _ _ _ false false).
    + rewrite IH. fold notna. now rewrite (nth_map_in _ _ _ NaN) by lia.
    + rewrite length_map. lia.
    + fold (notna_mask n cols). rewrite notna_mask_length; auto.
Qed.

Lemma mask_filter_from {A} (xs : list A) s m :
  mask_filter (map (fun i => m <=? i) (seq s (length xs))) xs = skipn (m - s) xs.
Proof.
  revert s; induction xs as [|x xs IH]; intros s; simpl.
  - now rewrite skipn_nil.
  - rewrite IH. destruct (Nat.leb_spec m s).
    + replace (m - s) with 0 by lia. replace (m - S s) with 0 by lia. reflexivity.
    + replace (m - s) with (S (m - S s)) by lia. reflexivity.
Qed.

Lemma s_mul_scalar_notna xs a i :
  isfinite a = true -> i < length xs ->
  notna (nth i (s_mul_scalar xs a) NaN) = notna (nth i xs NaN) \/
  isfinite (nth i xs NaN) = false.
Proof.
  intros Ha Hi. unfold s_mul_scalar.
  rewrite (nth_map_in _ _ _ NaN) by assumption.
  destruct a; try discriminate. destruct (nth i xs NaN); simpl; auto.
Qed.

Lemma ann_factor_finite : exists q, ann_factor = Fin q.
Proof. unfold ann_factor, np_sqrt, of_Z. simpl. eauto. Qed.

Lemma compute_volatility_features_run h loaded ds y ws wl :
  nth_error h loaded = Some [("ds"%string, ds); ("y"%string, y)] ->
  (0 <= ws)%Z -> (0 <= wl)%Z ->
  let D := features_frame ds y ws wl in
  let T := filter_rows (notna_mask (nrows D) (map snd D)) D in
  compute_volatility_features qsqrt qlog loaded ws wl h
  = (inr (length h + 2), h ++ [D; T; T]).
Proof.
  intros Hf Hws Hwl D T.
  assert (Hrs : forall w t, (0 <= w)%Z ->
                  rolling_std qsqrt w t = inr (roll_std_col w t)).
  { intros w t Hw. unfold rolling_std. now rewrite (proj2 (Z.ltb_ge w 0) Hw). }
  unfold compute_volatility_features.
  rewrite (run_df_copy_old h loaded _ _ Hf).
  do 5 mstep. fold (log_returns y).
  mstep. rewrite (Hrs ws _ Hws). do 3 mstep.
  rewrite (Hrs wl _ Hwl). do 6 mstep.
  fold ann_factor.
  erewrite run_dropna; [ | reflexivity ]. norm_heap.
  unfold reset_index. mstep.
  reflexivity.
Qed.

Lemma features_keep_mask ds y ws wl :
  length ds = length y ->
  forallb notna ds = true -> forallb pos_price y = true ->
  (2 <= ws)%Z -> (2 <= wl)%Z ->
  let D := features_frame ds y ws wl in
  notna_mask (nrows D) (map snd D)
  = map (fun i => Z.to_nat (Z.max ws wl - 1) <=? i) (seq 0 (length y)).
Proof.
  intros Hl Hds Hy Hws Hwl D.
  assert (Hfin := log_returns_finite y Hy).
  assert (Hcols : Forall (fun c : column => length c = length y) (map snd D)).
  { unfold D, features_frame. cbn [map snd]. unfold s_mul_scalar.
    repeat constructor;
      rewrite ?length_map, ?roll_std_col_length, ?log_returns_length; auto. }
  assert (Hn : nrows D = length y) by (unfold D; simpl; exact Hl).
  rewrite Hn.
  apply (nth_ext _ _ false false).
  { rewrite notna_mask_length by assumption. now rewrite length_map, length_seq. }
  intros i Hi. rewrite notna_mask_length in Hi by assumption.
  rewrite nth_notna_mask by assumption.
  rewrite (nth_map_in _ _ _ 0) by now rewrite length_seq.
  rewrite seq_nth by assumption. cbn [Nat.add].
  unfold D, features_frame. cbn [map snd forallb].
  destruct ann_factor_finite as [qa Hqa]. rewrite Hqa.
  assert (Hnds : notna (nth i ds NaN) = true).
  { rewrite forallb_forall in Hds. apply Hds, nth_In. lia. }
  assert (Hny : notna (nth i y NaN) = true).
  { destruct (pos_price_nth y i Hy Hi) as (q & -> & _). reflexivity. }
  assert (Hnr : notna (nth i (log_returns y) NaN) = true).
  { assert (Hi' : i < length (log_returns y))
      by (rewrite log_returns_length; lia).
    rewrite forallb_forall in Hfin.
    specialize (Hfin (nth i (log_returns y) NaN) (nth_In _ NaN Hi')).
    now destruct (nth i (log_returns y) NaN). }
  assert (Hroll : forall w, (2 <= w)%Z ->
            notna (nth i (s_mul_scalar (roll_std_col w (log_returns y)) (Fin qa)) NaN)
            = notna (nth i (roll_std_col w (log_returns y)) NaN)).
  { intros w Hw. unfold s_mul_scalar.
    rewrite (nth_map_in _ _ _ NaN)
      by (rewrite roll_std_col_length, log_returns_length; lia).
    destruct (roll_std_col_cases w (log_returns y) i Hfin Hw
                ltac:(rewrite log_returns_length; lia))
      as [[_ ->]|[_ [q ->]]]; reflexivity. }
  rewrite Hnds, Hny, Hnr, !Hroll by assumption.
  rewrite !roll_std_col_notna
    by (assumption || rewrite log_returns_length; lia).
  cbn [andb].
  destruct (Nat.leb_spec (Z.to_nat ws - 1) i), (Nat.leb_spec (Z.to_nat wl - 1) i),
    (Nat.leb_spec (Z.to_nat (Z.max ws wl - 1)) i); simpl; auto; lia.
Qed.

Lemma mask_filter_threshold {A} (xs : list A) n m :
  length xs = n ->
  mask_filter (map (fun i => m <=? i) (seq 0 n)) xs = skipn m xs.
Proof.
  intros <-. rewrite mask_filter_from. now rewrite Nat.sub_0_r.
Qed.


(** ** The learned volatility forecast *)

Lemma xgboost_vol_forecast_with_run h df f r vs vl horizon sub mul test_size :
  nth_error h df = Some f ->
  get_col "ret" f = Some r ->
  get_col "vol_short_ann" f = Some vs -> get_col "vol_long_ann" f = Some vl ->
  let mask := xgb_mask f r vs vl horizon in
  let P := filter_rows mask (xgb_frame f r vs vl horizon) in
  let X := frame_values (xgb_features f r vs vl horizon) in
  let Y := mask_filter mask (realized_vol_next horizon r) in
  exists l4,
    length l4 = 4 /\
    xgboost_vol_forecast_with qsqrt regressor xgb_fit xgb_predict sub mul
                              df horizon test_size h
    = match xgb_eval_with sub mul X Y test_size with
      | inl e => (inl e, h ++ l4)
      | inr (split, preds, metrics, model) =>
          let tail := map (fun cv => (fst cv, slice_from split (snd cv))) P in
          (inr (length h + 5, metrics, model),
           h ++ l4 ++ [tail; set_col "forecast_vol_xgb" preds tail])
      end.
Proof.
  intros Hf Hr Hvs Hvl mask P X Y.
  refine (ex_intro _ _ (conj _ _)); [shelve|].
  unfold xgboost_vol_forecast_with.
  rewrite (run_df_copy_old h df f _ Hf).
  do 10 mstep.
  fold (realized_vol_next horizon r). fold (xgb_frame f r vs vl horizon).
  erewrite run_dropna; [ | reflexivity ]. norm_heap.
  fold (xgb_mask f r vs vl horizon). fold mask. fold P.
  unfold reset_index. mstep.
  erewrite run_getitems;
    [ | reflexivity
      | unfold feature_cols, P, xgb_frame; cbn [select_cols]; solve_select ].
  norm_heap. cbn [option_map].
  erewrite run_deref; [ | reflexivity ].
  fold mask. 
  change (frame_values _) with X.
  erewrite run_getitem;
    [ | reflexivity | unfold P, xgb_frame; solve_get ].
  cbn [option_map]. fold Y.
  unfold xgb_eval_with.
  destruct (py_int _) as [e|split]; [now rewrite run_lift_res_err|].
  rewrite run_lift_res.
  destruct (xgb_fit _ _) as [e|model]; [now rewrite run_lift_res_err|].
  rewrite run_lift_res. cbv zeta.
  destruct (mean_absolute_error _ _) as [e|mae]; [now rewrite run_lift_res_err|].
  rewrite run_lift_res.
  destruct (mean_squared_error _ _) as [e|mse]; [now rewrite run_lift_res_err|].
  rewrite run_lift_res.
  erewrite run_iloc_from; [ | reflexivity ]. norm_heap.
  mstep. erewrite run_setitem; [ | reflexivity ]. norm_heap.
  reflexivity.
  Unshelve. reflexivity.
Qed.

Lemma xgboost_vol_forecast_run h df f r vs vl horizon test_size :
  nth_error h df = Some f ->
  get_col "ret" f = Some r ->
  get_col "vol_short_ann" f = Some vs -> get_col "vol_long_ann" f = Some vl ->
  let mask := xgb_mask f r vs vl horizon in
  let P := filter_rows mask (xgb_frame f r vs vl horizon) in
  let X := frame_values (xgb_features f r vs vl horizon) in
  let Y := mask_filter mask (realized_vol_next horizon r) in
  exists l4,
    length l4 = 4 /\
    xgboost_vol_forecast qsqrt regressor xgb_fit xgb_predict df horizon test_size h
    = match xgb_eval X Y test_size with
      | inl e => (inl e, h ++ l4)
      | inr (split, preds, metrics, model) =>
          let tail := map (fun cv => (fst cv, slice_from split (snd cv))) P in
          (inr (length h + 5, metrics, model),
           h ++ l4 ++ [tail; set_col "forecast_vol_xgb" preds tail])
      end.
Proof.
  intros Hf Hr Hvs Hvl.
  exact (xgboost_vol_forecast_with_run h df f r vs vl horizon fsub fmul
           test_size Hf Hr Hvs Hvl).
Qed.

(** ** Rows kept by a mask, by their original position *)

Lemma filter_seq_shift (p : nat -> bool) s n :
  filter p (seq (S s) n) = map S (filter (fun i => p (S i)) (seq s n)).
Proof.
  rewrite <- seq_shift, filter_map_comm. reflexivity.
Qed.

Lemma kept_rows_cons b mask :
  kept_rows (b :: mask)
  = (if b then [0] else []) ++ map S (kept_rows mask).
Proof.
  unfold kept_rows. cbn [length seq filter nth].
  rewrite filter_seq_shift. cbn [nth]. now destruct b.
Qed.

Lemma mask_filter_kept {A} (d : A) mask xs :
  length xs = length mask ->
  mask_filter mask xs = map (fun i => nth i xs d) (kept_rows mask).
Proof.
  revert xs; induction mask as [|b mask IH]; intros [|x xs] Hl;
    simpl in Hl; try discriminate; [reflexivity|].
  rewrite kept_rows_cons. cbn [mask_filter].
  rewrite map_app, map_map. cbn [nth].
  rewrite <- IH by lia. now destruct b.
Qed.

Lemma kept_rows_In mask t :
  In t (kept_rows mask) <-> t < length mask /\ nth t mask false = true.
Proof.
  unfold kept_rows. rewrite filter_In, in_seq. intuition lia.
Qed.

Lemma filter_seq_sorted (p : nat -> bool) s n :
  StronglySorted lt (filter p (seq s n)).
Proof.
  revert s; induction n as [|n IH]; intros s; simpl; [constructor|].
  destruct (p s); [|apply IH].
  constructor; [apply IH|].
  apply Forall_forall. intros x Hx. apply filter_In in Hx as [Hx _].
  apply in_seq in Hx. lia.
Qed.

Lemma kept_rows_sorted mask : StronglySorted lt (kept_rows mask).
Proof. apply filter_seq_sorted. Qed.

Lemma get_col_map_cols (g : column -> column) c f :
  get_col c (map (fun cv => (fst cv, g (snd cv))) f)
  = option_map g (get_col c f).
Proof.
  induction f as [|[d w] f IH]; simpl; auto.
  destruct (String.eqb c d); auto.
Qed.

Lemma get_col_In c f v : get_col c f = Some v -> In v (map snd f).
Proof.
  induction f as [|[d w] f IH]; simpl; [discriminate|].
  destruct (String.eqb c d); [intros [= ->]; now left | auto].
Qed.

(** A row that [dropna] keeps has no NaN in any column. *)
Lemma notna_mask_col f c v i :
  wf_frame f -> get_col c f = Some v -> i < nrows f ->
  nth i (notna_mask (nrows f) (map snd f)) false = true ->
  notna (nth i v NaN) = true.
Proof.
  intros Hwf Hc Hi Hm.
  rewrite nth_notna_mask in Hm; [|
    unfold wf_frame in Hwf; rewrite Forall_forall in *;
    intros x Hx; apply in_map_iff in Hx as (cv & <- & Hcv); auto | assumption].
  rewrite forallb_forall in Hm. apply Hm, (get_col_In c f v Hc).
Qed.

Lemma slice_to_nat {A} (xs : list A) s :
  s <= length xs -> slice_to (Z.of_nat s) xs = firstn s xs.
Proof.
  intros Hs. unfold slice_to, slice_bound.
  destruct (Z.ltb_spec (Z.of_nat s) 0); [lia|]. f_equal. lia.
Qed.

Lemma slice_from_nat {A} (xs : list A) s :
  s <= length xs -> slice_from (Z.of_nat s) xs = skipn s xs.
Proof.
  intros Hs. unfold slice_from, slice_bound.
  destruct (Z.ltb_spec (Z.of_nat s) 0); [lia|]. f_equal. lia.
Qed.

Lemma map_nth_seq {A B} (g : A -> B) (l : list A) d :
  map (fun i => g (nth i l d)) (seq 0 (length l)) = map g l.
Proof.
  apply (nth_ext _ _ (g d) (g d)).
  - now rewrite !length_map, length_seq.
  - intros i Hi. rewrite length_map, length_seq in Hi.
    rewrite (nth_map_in _ _ _ 0) by now rewrite length_seq.
    rewrite seq_nth by assumption. cbn [Nat.add].
    now rewrite (nth_map_in _ _ _ d).
Qed.

(** [int()] of a non-negative finite value is its floor. *)
Lemma py_int_floor q : (0 <= q)%Q -> py_int (Fin q) = inr (Qfloor q).
Proof.
  intros Hq. unfold py_int, Qfloor. destruct q as [n d]. simpl. f_equal.
  apply Z.quot_div_nonneg; [|lia].
  unfold Qle in Hq. simpl in Hq. lia.
Qed.

Lemma nth_realized_vol_next horizon r t :
  t < length r ->
  nth t (realized_vol_next horizon r) NaN
  = if ((0 <=? Z.of_nat t + horizon) && (Z.of_nat t + horizon <? Z.of_nat (length r)))%Z
    then fabs (nth (Z.to_nat (Z.of_nat t + horizon)) r NaN) else NaN.
Proof.
  intros Ht. unfold realized_vol_next, s_abs.
  rewrite nth_shift by now rewrite length_map.
  rewrite length_map.
  replace (Z.of_nat t - - horizon)%Z with (Z.of_nat t + horizon)%Z by lia.
  destruct (Z.leb_spec 0 (Z.of_nat t + horizon)); [|reflexivity].
  destruct (Z.ltb_spec (Z.of_nat t + horizon) (Z.of_nat (length r))); [|reflexivity].
  simpl. apply nth_map_in. lia.
Qed.

Lemma nth_shift_pos k xs t :
  t < length xs -> k <= t ->
  nth t (shift (Z.of_nat k) xs) NaN = nth (t - k) xs NaN.
Proof.
  intros Ht Hk. rewrite nth_shift by assumption.
  destruct (Z.leb_spec 0 (Z.of_nat t - Z.of_nat k)); [|lia].
  destruct (Z.ltb_spec (Z.of_nat t - Z.of_nat k) (Z.of_nat (length xs))); [|lia].
  simpl. f_equal. lia.
Qed.

Lemma nth_shift_before k xs t :
  t < length xs -> t < k -> nth t (shift (Z.of_nat k) xs) NaN = NaN.
Proof.
  intros Ht Hk. rewrite nth_shift by assumption.
  destruct (Z.leb_spec 0 (Z.of_nat t - Z.of_nat k)); [lia|]. reflexivity.
Qed.

Lemma set_col_wf_n c v f n :
  (wf_frame f /\ nrows f = n /\ f <> []) -> length v = n ->
  wf_frame (set_col c v f) /\ nrows (set_col c v f) = n /\ set_col c v f <> [].
Proof.
  intros (Hwf & Hn & Hne) Hv. split; [|split].
  - apply wf_set_col; congruence.
  - apply nrows_set_col_n; assumption.
  - apply set_col_not_nil.
Qed.

Lemma xgb_frame_wf f r vs vl horizon :
  wf_frame f ->
  get_col "ret" f = Some r ->
  get_col "vol_short_ann" f = Some vs -> get_col "vol_long_ann" f = Some vl ->
  let D := xgb_frame f r vs vl horizon in
  wf_frame D /\ nrows D = nrows f /\ D <> [].
Proof.
  intros Hwf Hr Hvs Hvl D.
  pose proof (get_col_wf _ _ _ Hwf Hr). pose proof (get_col_wf _ _ _ Hwf Hvs).
  pose proof (get_col_wf _ _ _ Hwf Hvl).
  unfold D, xgb_frame.
  repeat (apply set_col_wf_n;
          [ | rewrite ?shift_length, ?realized_vol_next_length; assumption ]).
  split; [assumption|]. split; [reflexivity|].
  eapply get_col_not_nil; eauto.
Qed.

Lemma slice_bound_le n i : slice_bound n i <= n.
Proof. unfold slice_bound. destruct (Z.ltb_spec i 0); lia. Qed.

Lemma slice_bound_inside n i :
  (0 <= i <= Z.of_nat n)%Z -> Z.of_nat (slice_bound n i) = i.
Proof.
  intros H. unfold slice_bound. destruct (Z.ltb_spec i 0); lia.
Qed.

(** C8, as the code has it.  A successful learned evaluation, in any
    arithmetic [sub], [mul] of the split index.  The rows that enter the
    evaluation are rows [t >= 2] of the input table, in their original
    order; the feature row of time [t] is made of the returns at [t-1] and
    [t-2] and the short and long annualized volatilities at [t-1], and its
    target is the absolute return at [t + horizon]; the split index is the
    integer part of [rows * (1 - test fraction)] as [sub] and [mul] compute
    it (its floor, when that value is not negative); the regressor is
    fitted on the rows before the split and their targets only, and the
    predictions are made for, scored on and stored with the rows from the
    split on. *)
Theorem xgboost_vol_forecast_spec
    h df f r vs vl horizon (sub mul : f64 -> f64 -> f64) test_size
    out metrics model h' :
  nth_error h df = Some f -> wf_frame f ->
  get_col "ret" f = Some r ->
  get_col "vol_short_ann" f = Some vs -> get_col "vol_long_ann" f = Some vl ->
  xgboost_vol_forecast_with qsqrt regressor xgb_fit xgb_predict sub mul
                            df horizon test_size h
  = (inr (out, metrics, model), h') ->
  exists (kept : list nat) (split : Z) (table : frame),
    StronglySorted lt kept /\
    (forall t, In t kept ->
       2 <= t /\ t < nrows f /\
       (0 <= Z.of_nat t + horizon < Z.of_nat (nrows f))%Z) /\
    let X := map (fun t => [nth (t - 1) r NaN; nth (t - 2) r NaN;
                            nth (t - 1) vs NaN; nth (t - 1) vl NaN]) kept in
    let Y := map (fun t => fabs (nth (Z.to_nat (Z.of_nat t + horizon)) r NaN))
                 kept in
    let product := mul (of_nat (length kept)) (sub (Fin 1) test_size) in
    py_int product = inr split /\
    (forall q, product = Fin q -> (0 <= q)%Q -> split = Qfloor q) /\
    let k := slice_bound (length kept) split in
    k <= length kept /\
    ((0 <= split <= Z.of_nat (length kept))%Z -> Z.of_nat k = split) /\
    xgb_fit (firstn k X) (firstn k Y) = inr model /\
    let preds := map (xgb_predict model) (skipn k X) in
    mean_absolute_error (skipn k Y) preds = inr (MAE metrics) /\
    (exists mse, mean_squared_error (skipn k Y) preds = inr mse /\
                 RMSE metrics = np_sqrt qsqrt mse) /\
    nth_error h' out = Some table /\
    get_col "forecast_vol_xgb" table = Some preds /\
    get_col "realized_vol_next" table = Some (skipn k Y).
Proof.
  intros Hf Hwf Hr Hvs Hvl Hrun.
  destruct (xgboost_vol_forecast_with_run h df f r vs vl horizon sub mul
              test_size Hf Hr Hvs Hvl) as (l4 & Hl4 & Heq).
  cbv zeta in Heq. rewrite Heq in Hrun. clear Heq.
  destruct (xgb_frame_wf f r vs vl horizon Hwf Hr Hvs Hvl) as (HwfD & HnD & HneD).
  set (D := xgb_frame f r vs vl horizon) in *.
  set (mask := xgb_mask f r vs vl horizon) in *.
  set (n := nrows f) in *.
  assert (Hlr : length r = n) by (eapply get_col_wf; eauto).
  assert (Hlvs : length vs = n) by (eapply get_col_wf; eauto).
  assert (Hlvl : length vl = n) by (eapply get_col_wf; eauto).
  assert (Hlm : length mask = n).
  { unfold mask, xgb_mask. fold D. rewrite HnD. apply notna_mask_length.
    unfold wf_frame in HwfD. rewrite HnD in HwfD.
    rewrite Forall_forall in *. intros x Hx.
    apply in_map_iff in Hx as (cv & <- & Hcv). auto. }
  set (kept := kept_rows mask).
  assert (Hcol : forall c v t, get_col c D = Some v -> In t kept ->
                   notna (nth t v NaN) = true).
  { intros c v t Hc Ht. apply kept_rows_In in Ht as [Ht Hm].
    apply (notna_mask_col D c v t HwfD Hc); [lia|].
    unfold mask, xgb_mask in Hm. exact Hm. }
  assert (Hkept : forall t, In t kept ->
            2 <= t /\ t < n /\ (0 <= Z.of_nat t + horizon < Z.of_nat n)%Z).
  { intros t Ht. pose proof Ht as Ht'. apply kept_rows_In in Ht' as [Htn _].
    rewrite Hlm in Htn.
    assert (H2 : notna (nth t (shift 2 r) NaN) = true).
    { apply (Hcol "lag2_ret"%string); [unfold D, xgb_frame; solve_get | assumption]. }
    assert (HT : notna (nth t (realized_vol_next horizon r) NaN) = true).
    { apply (Hcol "realized_vol_next"%string); [unfold D, xgb_frame; solve_get | assumption]. }
    split.
    - destruct (Nat.lt_ge_cases t 2) as [Hlt|]; [|assumption].
      change 2%Z with (Z.of_nat 2) in H2.
      rewrite nth_shift_before in H2 by lia. discriminate.
    - split; [assumption|].
      rewrite nth_realized_vol_next in HT by lia. rewrite Hlr in HT.
      destruct (Z.leb_spec 0 (Z.of_nat t + horizon)); [|discriminate].
      destruct (Z.ltb_spec (Z.of_nat t + horizon) (Z.of_nat n)); [|discriminate].
      lia. }
  set (Xs := map (fun t => [nth (t - 1) r NaN; nth (t - 2) r NaN;
                            nth (t - 1) vs NaN; nth (t - 1) vl NaN]) kept).
  set (Ys := map (fun t => fabs (nth (Z.to_nat (Z.of_nat t + horizon)) r NaN)) kept).
  assert (HX : frame_values (xgb_features f r vs vl horizon) = Xs).
  { unfold xgb_features, frame_values. fold mask. cbn [nrows map snd].
    rewrite !(mask_filter_kept NaN) by (rewrite ?shift_length; congruence).
    fold kept. rewrite length_map.
    pose (g := fun t => [nth t (shift 1 r) NaN; nth t (shift 2 r) NaN;
                         nth t (shift 1 vs) NaN; nth t (shift 1 vl) NaN]).
    transitivity (map (fun i => g (nth i kept 0)) (seq 0 (length kept))).
    - apply map_ext_in. intros i Hi. apply in_seq in Hi. unfold g.
      now rewrite !(nth_map_in _ _ _ 0) by lia.
    - rewrite (map_nth_seq g kept 0). unfold Xs, g.
      apply map_ext_in. intros t Ht. destruct (Hkept t Ht) as (H2 & Htn & _).
      change 1%Z with (Z.of_nat 1). change 2%Z with (Z.of_nat 2).
      now rewrite !nth_shift_pos by lia. }
  assert (HY : mask_filter mask (realized_vol_next horizon r) = Ys).
  { rewrite (mask_filter_kept NaN) by (rewrite realized_vol_next_length; congruence).
    fold kept. unfold Ys. apply map_ext_in. intros t Ht.
    destruct (Hkept t Ht) as (H2 & Htn & Hin).
    rewrite nth_realized_vol_next by lia. rewrite Hlr.
    destruct (Z.leb_spec 0 (Z.of_nat t + horizon)); [|lia].
    destruct (Z.ltb_spec (Z.of_nat t + horizon) (Z.of_nat n)); [|lia].
    reflexivity. }
  rewrite HX, HY in Hrun.
  assert (HlX : length Xs = length kept) by (unfold Xs; now rewrite length_map).
  assert (HlY : length Ys = length kept) by (unfold Ys; now rewrite length_map).
  unfold xgb_eval_with in Hrun. rewrite HlX in Hrun.
  destruct (py_int (mul (of_nat (length kept)) (sub (Fin 1) test_size)))
    as [e|split] eqn:Epy; [discriminate|].
  set (k := slice_bound (length kept) split) in *.
  assert (HtX : slice_to split Xs = firstn k Xs)
    by (unfold slice_to; now rewrite HlX).
  assert (HtY : slice_to split Ys = firstn k Ys)
    by (unfold slice_to; now rewrite HlY).
  assert (HfX : slice_from split Xs = skipn k Xs)
    by (unfold slice_from; now rewrite HlX).
  assert (HfY : slice_from split Ys = skipn k Ys)
    by (unfold slice_from; now rewrite HlY).
  rewrite HtX, HtY, HfX, HfY in Hrun.
  destruct (xgb_fit _ _) as [e|model'] eqn:Efit; [discriminate|].
  cbv zeta in Hrun.
  destruct (mean_absolute_error _ _) as [e|mae] eqn:Emae; [discriminate|].
  destruct (mean_squared_error _ _) as [e|mse] eqn:Emse; [discriminate|].
  inversion Hrun; subst out metrics model' h'. clear Hrun.
  exists kept, split.
  eexists.
  split; [apply kept_rows_sorted|].
  split; [exact Hkept|].
  cbv zeta. fold Xs Ys. fold k.
  split; [exact Epy|].
  split.
  { intros q Hq Hq0. rewrite Hq, py_int_floor in Epy by assumption.
    congruence. }
  split; [apply slice_bound_le|].
  split; [apply slice_bound_inside|].
  split; [exact Efit|].
  split; [exact Emae|].
  split; [exists mse; split; [exact Emse | reflexivity]|].
  split.
  { rewrite app_assoc, nth_error_app2 by (rewrite length_app; lia).
    rewrite length_app, Hl4.
    replace (length h + 5 - (length h + 4)) with 1 by lia. reflexivity. }
  split; [apply get_col_set_col_eq|].
  rewrite get_col_set_col_ne by reflexivity.
  rewrite get_col_map_cols, get_col_filter_rows.
  replace (get_col "realized_vol_next" D)
    with (Some (realized_vol_next horizon r))
    by (symmetry; unfold D, xgb_frame; solve_get).
  cbn [option_map]. now rewrite HY, HfY.
Qed.

(** ** Objects that a call leaves alone

    A program is run from a heap [h] that extends the heap [h0] of the
    call.  It is safe when it leaves the objects of [h0] as they are and
    never shrinks the heap; [Q] is what is known of its result and of the
    heap after it. *)

Lemma safe_ret {A} h0 h (a : A) (Q : A -> heap -> Prop) :
  Q a h -> safe_at h0 h (ret a) Q.
Proof.
  intros HQ Hext. simpl. repeat split; auto. intros b [= <-]. exact HQ.
Qed.

Lemma safe_raise {A} h0 h e (Q : A -> heap -> Prop) : safe_at h0 h (raise e) Q.
Proof. intros Hext. simpl. repeat split; auto. discriminate. Qed.

Lemma safe_bind {A B} h0 h (m : M A) (k : A -> M B) Q R :
  safe_at h0 h m Q ->
  (forall a h1, length h <= length h1 -> Q a h1 -> safe_at h0 h1 (k a) R) ->
  safe_at h0 h (bind m k) R.
Proof.
  intros Hm Hk Hext. destruct (Hm Hext) as (He & Hl & HQ).
  unfold bind. destruct (m h) as [[e|a] h1] eqn:E; simpl in *.
  - repeat split; auto. discriminate.
  - destruct (Hk a h1 Hl (HQ a eq_refl) He) as (He' & Hl' & HR).
    repeat split; auto. lia.
Qed.

Lemma safe_weaken {A} h0 h (m : M A) (Q Q' : A -> heap -> Prop) :
  safe_at h0 h m Q -> (forall a h1, Q a h1 -> Q' a h1) -> safe_at h0 h m Q'.
Proof.
  intros Hm HQ Hext. destruct (Hm Hext) as (He & Hl & H). repeat split; auto.
Qed.

Lemma safe_lift_opt {A} h0 h e (o : option A) : safe_at h0 h (lift_opt e o) any.
Proof. destruct o; [now apply safe_ret | apply safe_raise]. Qed.

Lemma safe_lift_res {A} h0 h (r : exn + A) : safe_at h0 h (lift_res r) any.
Proof. destruct r; [apply safe_raise | now apply safe_ret]. Qed.

Lemma safe_deref h0 h l : safe_at h0 h (deref l) any.
Proof.
  intros Hext. unfold deref. destruct (nth_error h l); simpl;
    repeat split; auto; discriminate.
Qed.

Lemma safe_new_frame h0 h f : safe_at h0 h (new_frame f) (newloc h0).
Proof.
  intros [l ->]. unfold new_frame. simpl. split; [|split].
  - exists (l ++ [f]). now rewrite app_assoc.
  - rewrite !length_app. lia.
  - intros a [= <-]. unfold newloc. rewrite !length_app. simpl. lia.
Qed.

Lemma update_app_ge {A} (h l : list A) k a :
  length h <= k -> update k a (h ++ l) = h ++ update (k - length h) a l.
Proof.
  intros Hk. replace k with (length h + (k - length h)) at 1 by lia.
  apply update_new.
Qed.

Lemma safe_assign h0 h l f : length h0 <= l -> safe_at h0 h (assign l f) any.
Proof.
  intros Hl [x ->]. unfold assign. simpl. split; [|split].
  - rewrite update_app_ge by assumption. eexists; reflexivity.
  - now rewrite update_length.
  - intros; exact I.
Qed.

Ltac safe_side := unfold newloc, any in *; first [exact I | lia | intuition lia].

Lemma safe_df_copy h0 h df : safe_at h0 h (df_copy df) (newloc h0).
Proof. unfold df_copy. eapply safe_bind; [apply safe_deref|]. intros. apply safe_new_frame. Qed.

Lemma safe_getitem h0 h df c : safe_at h0 h (getitem df c) any.
Proof. unfold getitem. eapply safe_bind; [apply safe_deref|]. intros. apply safe_lift_opt. Qed.

Lemma safe_setitem h0 h df c v :
  length h0 <= df -> safe_at h0 h (setitem df c v) any.
Proof.
  intros Hd. unfold setitem. eapply safe_bind; [apply safe_deref|].
  intros. now apply safe_assign.
Qed.

Lemma safe_setitem_scalar h0 h df c a :
  length h0 <= df -> safe_at h0 h (setitem_scalar df c a) any.
Proof.
  intros Hd. unfold setitem_scalar. eapply safe_bind; [apply safe_deref|].
  intros. now apply safe_assign.
Qed.

Lemma safe_loc_setitem h0 h df mask c a :
  length h0 <= df -> safe_at h0 h (loc_setitem df mask c a) any.
Proof.
  intros Hd. unfold loc_setitem. eapply safe_bind; [apply safe_deref|].
  intros. eapply safe_bind; [apply safe_lift_opt|]. intros. now apply safe_assign.
Qed.

Lemma safe_getitems h0 h df cs : safe_at h0 h (getitems df cs) (newloc h0).
Proof.
  unfold getitems. eapply safe_bind; [apply safe_deref|]. intros.
  eapply safe_bind; [apply safe_lift_opt|]. intros. apply safe_new_frame.
Qed.

Lemma safe_getmask h0 h df mask : safe_at h0 h (getmask df mask) (newloc h0).
Proof.
  unfold getmask. eapply safe_bind; [apply safe_deref|]. intros.
  apply safe_new_frame.
Qed.

Lemma safe_dropna_subset h0 h df cs : safe_at h0 h (dropna_subset df cs) (newloc h0).
Proof.
  unfold dropna_subset. eapply safe_bind; [apply safe_deref|]. intros.
  eapply safe_bind; [apply safe_lift_opt|]. intros. apply safe_new_frame.
Qed.

Lemma safe_dropna h0 h df : safe_at h0 h (dropna df) (newloc h0).
Proof.
  unfold dropna. eapply safe_bind; [apply safe_deref|]. intros.
  apply safe_new_frame.
Qed.

Lemma safe_reset_index h0 h df : safe_at h0 h (reset_index df) (newloc h0).
Proof. apply safe_df_copy. Qed.

Lemma safe_iloc_from h0 h df k : safe_at h0 h (iloc_from df k) (newloc h0).
Proof.
  unfold iloc_from. eapply safe_bind; [apply safe_deref|]. intros.
  apply safe_new_frame.
Qed.

Lemma safe_is_empty h0 h df : safe_at h0 h (is_empty df) any.
Proof.
  unfold is_empty. eapply safe_bind; [apply safe_deref|]. intros.
  now apply safe_ret.
Qed.

Lemma safe_iloc_last h0 h s : safe_at h0 h (iloc_last s) any.
Proof.
  unfold iloc_last. destruct (rev s); [apply safe_raise | now apply safe_ret].
Qed.

Lemma safe_iloc_row h0 h df i : safe_at h0 h (iloc_row df i) any.
Proof.
  unfold iloc_row. eapply safe_bind; [apply safe_deref|]. intros.
  destruct (_ <? _); [now apply safe_ret | apply safe_raise].
Qed.

Lemma safe_for_each {A B} h0 (xs : list A) (body : A -> M B) :
  (forall x h1, safe_at h0 h1 (body x) any) ->
  forall h, safe_at h0 h (for_each xs body) any.
Proof.
  intros Hb. induction xs as [|x xs IH]; intros h; simpl.
  - now apply safe_ret.
  - eapply safe_bind; [apply Hb|]. intros.
    eapply safe_bind; [apply IH|]. intros. now apply safe_ret.
Qed.

(** One step of a program: the primitive, then the rest. *)
Ltac safe_prim :=
  first
    [ apply safe_df_copy | apply safe_getitem | apply safe_getitems
    | apply safe_getmask | apply safe_dropna_subset | apply safe_dropna
    | apply safe_reset_index | apply safe_iloc_from | apply safe_is_empty
    | apply safe_iloc_last | apply safe_iloc_row
    | apply safe_lift_opt | apply safe_lift_res | apply safe_deref
    | apply safe_raise
    | apply safe_setitem; safe_side
    | apply safe_setitem_scalar; safe_side
    | apply safe_loc_setitem; safe_side ].

Ltac safe_prog :=
  repeat first
    [ eapply safe_bind; [ safe_prim | intros ? ? ? ? ]
    | match goal with
      | |- safe_at _ _ (bind (if ?c then _ else _) _) _ => destruct c
      | |- safe_at _ _ (if ?c then _ else _) _ => destruct c
      end
    | match goal with
      | |- safe_at _ _ (ret _) ?Q =>
          is_evar Q; apply (safe_ret _ _ _ any); exact I
      end
    | apply safe_ret; unfold newloc, any in *; simpl; intuition lia
    | eapply safe_bind; [ | intros ? ? ? ? ] ].

Lemma backtest_safe h0 h df L thr w :
  safe_at h0 h (backtest_trend_signal qsqrt df L thr w)
          (fun r h' => newloc h0 (fst r) h').
Proof. unfold backtest_trend_signal. safe_prog. Qed.

Lemma compute_lagged_correlations_safe h0 h df max_lag :
  safe_at h0 h (compute_lagged_correlations qsqrt df max_lag) (newloc h0).
Proof.
  unfold compute_lagged_correlations.
  eapply safe_bind; [apply safe_getitem|]. intros price h1 _ _.
  eapply safe_bind; [apply safe_getitem|]. intros trend h2 _ _.
  eapply safe_bind.
  - apply safe_for_each. intros lag h3.
    destruct (lag_pair lag price trend) as [x y].
    eapply safe_bind; [|intros; now apply safe_ret].
    destruct (_ <? _); [apply (safe_ret _ _ _ any); exact I | apply safe_lift_res].
  - intros. apply safe_new_frame.
Qed.

Lemma find_best_leading_lag_safe h0 h df :
  safe_at h0 h (find_best_leading_lag df) any.
Proof. unfold find_best_leading_lag. safe_prog. Qed.

Lemma compute_volatility_features_safe h0 h loaded ws wl :
  safe_at h0 h (compute_volatility_features qsqrt qlog loaded ws wl) (newloc h0).
Proof. unfold compute_volatility_features. safe_prog. Qed.

Lemma naive_vol_forecast_safe h0 h df horizon :
  safe_at h0 h (naive_vol_forecast qsqrt df horizon)
          (fun r h' => newloc h0 (fst r) h').
Proof. unfold naive_vol_forecast. safe_prog. Qed.

Lemma xgboost_vol_forecast_with_safe h0 h sub mul df horizon test_size :
  safe_at h0 h
    (xgboost_vol_forecast_with qsqrt regressor xgb_fit xgb_predict sub mul
                               df horizon test_size)
    (fun r h' => newloc h0 (fst (fst r)) h').
Proof. unfold xgboost_vol_forecast_with. safe_prog. Qed.

Lemma xgboost_vol_forecast_safe h0 h df horizon test_size :
  safe_at h0 h
    (xgboost_vol_forecast qsqrt regressor xgb_fit xgb_predict df horizon test_size)
    (fun r h' => newloc h0 (fst (fst r)) h').
Proof. apply xgboost_vol_forecast_with_safe. Qed.

Lemma safe_leaves_alone {A} (m : M A) (loc_of : A -> loc) :
  (forall h, safe_at h h m (fun a h' => newloc h (loc_of a) h')) ->
  leaves_alone m loc_of.
Proof.
  intros Hs h. destruct (Hs h) as ([l Hl] & _ & HQ).
  { exists []. now rewrite app_nil_r. }
  split.
  - intros k f Hk. rewrite Hl. rewrite nth_error_app1; [assumption|].
    apply nth_error_Some. congruence.
  - intros a Ha. apply (HQ a Ha).
Qed.

(** C9.  Each public operation leaves every table of the heap, its input
    among them, exactly as it was before the call, whether it returns or
    raises, and the table that it returns is a new object. *)
Theorem operations_leave_inputs_unchanged
    (df : loc) (max_lag best_lag roll_window window_short window_long horizon : Z)
    (z_threshold test_size : f64) :
  leaves_alone (compute_lagged_correlations qsqrt df max_lag) (fun out => out) /\
  leaves_alone (backtest_trend_signal qsqrt df best_lag z_threshold roll_window)
               (fun r => fst r) /\
  leaves_alone (compute_volatility_features qsqrt qlog df window_short window_long)
               (fun out => out) /\
  leaves_alone (naive_vol_forecast qsqrt df horizon) (fun r => fst r) /\
  leaves_alone (xgboost_vol_forecast qsqrt regressor xgb_fit xgb_predict
                                     df horizon test_size)
               (fun r => fst (fst r)).
Proof.
  split; [|split; [|split; [|split]]]; apply safe_leaves_alone; intros h.
  - apply compute_lagged_correlations_safe.
  - apply backtest_safe.
  - apply compute_volatility_features_safe.
  - apply naive_vol_forecast_safe.
  - apply xgboost_vol_forecast_safe.
Qed.

(* ------------------------------------------------------------------ *)
(** * Further properties of the programs *)

(** ** The backtest: rows, errors and metrics *)

Lemma Forall_nth_false (m : list bool) :
  (forall i, i < length m -> nth i m false = false) ->
  Forall (fun b => b = false) m.
Proof.
  intros H. apply Forall_forall. intros b Hb.
  destruct (In_nth _ _ false Hb) as (i & Hi & <-). auto.
Qed.

Lemma bt_keep_length L price : length (bt_keep L price) = length price.
Proof. unfold bt_keep. now rewrite length_map, future_ret_length. Qed.

(** No row has a forward return when the horizon spans the table. *)
Lemma bt_keep_none L price :
  (Z.of_nat (length price) <= Z.abs L)%Z ->
  Forall (fun b => b = false) (bt_keep L price).
Proof.
  intros HL. apply Forall_nth_false. intros i Hi. rewrite bt_keep_length in Hi.
  apply bt_keep_outside; [assumption | lia].
Qed.

(** X1.  A horizon that spans the whole table (in particular any horizon
    on a table without rows) leaves no row with a forward return, and the
    backtest fails with the IndexError of the last equity value. *)
Theorem backtest_horizon_too_long h df f price trend L thr w :
  nth_error h df = Some f -> wf_frame f ->
  get_col "price" f = Some price -> get_col "trend" f = Some trend ->
  (0 <= w)%Z ->
  (Z.of_nat (length price) <= Z.abs L)%Z ->
  exists h', backtest_trend_signal qsqrt df L thr w h = (inl IndexError, h').
Proof.
  intros Hf Hwf Hp Ht Hw HL.
  destruct (backtest_run h df f price trend L thr w Hf Hwf Hp Ht Hw)
    as (l3 & _ & Heq).
  assert (Hbh : bt_bh_ret L price = []).
  { unfold bt_bh_ret. now apply mask_filter_all_false, bt_keep_none. }
  assert (Hsg : bt_signal L thr w price trend = []).
  { unfold bt_signal. now apply mask_filter_all_false, bt_keep_none. }
  unfold bt_strategy_ret in Heq. rewrite Hbh, Hsg in Heq.
  cbn in Heq. eexists. exact Heq.
Qed.

(** X2.  A negative rolling window is refused by the backtest with a
    ValueError, before any signal is computed. *)
Theorem backtest_negative_window h df f price trend L thr w :
  nth_error h df = Some f ->
  get_col "price" f = Some price -> get_col "trend" f = Some trend ->
  (w < 0)%Z ->
  exists h', backtest_trend_signal qsqrt df L thr w h = (inl ValueError, h').
Proof.
  intros Hf Hp Ht Hw. eexists.
  apply (backtest_neg_window h df f price trend L thr w Hf Hp Ht Hw).
Qed.

Lemma mask_filter_prefix {A} (xs : list A) s m :
  mask_filter (map (fun i => i <? m) (seq s (length xs))) xs = firstn (m - s) xs.
Proof.
  revert s; induction xs as [|x xs IH]; intros s; simpl.
  - now rewrite firstn_nil.
  - destruct (Nat.ltb_spec s m).
    + replace (m - s) with (S (m - S s)) by lia. simpl. f_equal. apply IH.
    + replace (m - s) with 0 by lia. rewrite IH.
      replace (m - S s) with 0 by lia. reflexivity.
Qed.

Lemma mask_filter_first {A} (xs : list A) n m :
  length xs = n ->
  mask_filter (map (fun i => i <? m) (seq 0 n)) xs = firstn m xs.
Proof. intros <-. rewrite mask_filter_prefix. now rewrite Nat.sub_0_r. Qed.

(** On finite non-zero prices the rows with a forward return over [L >= 0]
    rows are the first [n - L]. *)
Lemma bt_keep_prefix L price :
  forallb good_price price = true -> (0 <= L)%Z ->
  bt_keep L price
  = map (fun i => i <? length price - Z.to_nat L) (seq 0 (length price)).
Proof.
  intros Hg HL. apply (nth_ext _ _ false false).
  - now rewrite bt_keep_length, length_map, length_seq.
  - intros i Hi. rewrite bt_keep_length in Hi.
    rewrite (nth_map_in _ _ _ 0) by (rewrite length_seq; lia).
    rewrite seq_nth by lia. cbn [Nat.add].
    rewrite forallb_forall in Hg.
    destruct (Nat.ltb_spec i (length price - Z.to_nat L)) as [Hin|Hout].
    + assert (Hj : Z.to_nat (Z.of_nat i + L) < length price) by lia.
      apply bt_keep_inside; [assumption | lia | apply Hg, nth_In; lia |].
      specialize (Hg _ (nth_In price NaN Hj)).
      now destruct (nth _ price NaN).
    + apply bt_keep_outside; [assumption | lia].
Qed.

Lemma bt_summary_returns L thr w price trend :
  length price = length trend -> bt_bh_ret L price <> [] -> L <> 0%Z ->
  exists m,
    bt_summary L (equity (bt_strategy_ret L thr w price trend))
      (equity (bt_bh_ret L price)) (bt_strategy_ret L thr w price trend)
      (bt_signal L thr w price trend) = inr m.
Proof.
  intros Hlen Hbh HL0.
  assert (Hsg : Forall is_position (bt_signal L thr w price trend))
    by apply mask_filter_Forall, signal_col_positions.
  assert (Hsr : length (bt_strategy_ret L thr w price trend)
                = length (bt_bh_ret L price)).
  { unfold bt_strategy_ret, s_mul.
    rewrite zip_with_length, bt_signal_length by assumption. lia. }
  unfold bt_summary.
  destruct (rev (equity (bt_strategy_ret L thr w price trend))) as [|a a'] eqn:Ea.
  { apply (f_equal (@length f64)) in Ea.
    rewrite length_rev, equity_length, Hsr in Ea.
    destruct (bt_bh_ret L price); simpl in Ea; congruence. }
  destruct (rev (equity (bt_bh_ret L price))) as [|b b'] eqn:Eb.
  { apply (f_equal (@length f64)) in Eb.
    rewrite length_rev, equity_length in Eb.
    destruct (bt_bh_ret L price); simpl in Eb; congruence. }
  destruct (py_int_sum_positions _ Hsg) as [n Hn]. rewrite Hn.
  unfold py_div_int. destruct (Z.eqb_spec L 0); [contradiction|].
  destruct (fgt _ _); eexists; reflexivity.
Qed.

(** A positive horizon shorter than the table, on finite non-zero prices:
    the backtest returns. *)
Lemma backtest_returns h df f ds price trend L thr w :
  nth_error h df = Some f -> wf_frame f ->
  get_col "ds" f = Some ds ->
  get_col "price" f = Some price -> get_col "trend" f = Some trend ->
  forallb good_price price = true ->
  (0 <= w)%Z ->
  (0 < L < Z.of_nat (length price))%Z ->
  exists m l3,
    length l3 = 3 /\
    backtest_trend_signal qsqrt df L thr w h
    = (inr (length h + 3, m), h ++ l3 ++ [bt_table L thr w ds price trend]) /\
    bt_summary L (equity (bt_strategy_ret L thr w price trend))
      (equity (bt_bh_ret L price)) (bt_strategy_ret L thr w price trend)
      (bt_signal L thr w price trend) = inr m.
Proof.
  intros Hf Hwf Hds Hp Ht Hg Hw HL.
  assert (Hlen : length price = length trend).
  { rewrite (get_col_wf _ _ _ Hwf Hp), (get_col_wf _ _ _ Hwf Ht). reflexivity. }
  destruct (backtest_run h df f price trend L thr w Hf Hwf Hp Ht Hw)
    as (l3 & Hl3 & Heq).
  rewrite Hds in Heq.
  assert (Hbh : bt_bh_ret L price <> []).
  { unfold bt_bh_ret. apply (mask_filter_not_nil _ _ 0).
    - rewrite future_ret_length. lia.
    - rewrite bt_keep_prefix by (assumption || lia).
      rewrite (nth_map_in _ _ _ 0) by (rewrite length_seq; lia).
      rewrite seq_nth by lia. apply Nat.ltb_lt. lia. }
  destruct (bt_summary_returns L thr w price trend Hlen Hbh) as [m Hm]; [lia|].
  rewrite Hm in Heq. exists m, l3. auto.
Qed.

Lemma nth_error_last_of {A} (h l3 : list A) x :
  length l3 = 3 -> nth_error (h ++ l3 ++ [x]) (length h + 3) = Some x.
Proof.
  intros Hl3. rewrite app_assoc, nth_error_app2 by (rewrite length_app; lia).
  rewrite length_app, Hl3.
  replace (length h + 3 - (length h + 3)) with 0 by lia. reflexivity.
Qed.

(** X3.  On a table of [n] rows with finite non-zero prices, a horizon
    [0 < L < n] and a window [>= 0], the backtest returns; its table has
    the first [n - L] rows of the input: their dates, and as benchmark
    return of row [i] the relative change of the price from row [i] to row
    [i + L]. *)
Theorem backtest_rows h df f ds price trend L thr w :
  nth_error h df = Some f -> wf_frame f ->
  get_col "ds" f = Some ds ->
  get_col "price" f = Some price -> get_col "trend" f = Some trend ->
  forallb good_price price = true ->
  (0 <= w)%Z ->
  (0 < L < Z.of_nat (length price))%Z ->
  exists out m h' table bh,
    backtest_trend_signal qsqrt df L thr w h = (inr (out, m), h') /\
    nth_error h' out = Some table /\
    lag_used m = L /\
    nrows table = length price - Z.to_nat L /\
    get_col "ds" table = Some (firstn (length price - Z.to_nat L) ds) /\
    get_col "bh_ret" table = Some bh /\
    length bh = length price - Z.to_nat L /\
    forall i, i < length price - Z.to_nat L ->
      nth i bh NaN
      = fsub (fdiv (nth (i + Z.to_nat L) price NaN) (nth i price NaN)) (Fin 1).
Proof.
  intros Hf Hwf Hds Hp Ht Hg Hw HL.
  destruct (backtest_returns h df f ds price trend L thr w
              Hf Hwf Hds Hp Ht Hg Hw HL) as (m & l3 & Hl3 & Hrun & Hm).
  assert (Hdl : length ds = length price).
  { rewrite (get_col_wf _ _ _ Hwf Hp), (get_col_wf _ _ _ Hwf Hds). reflexivity. }
  set (k := length price - Z.to_nat L).
  assert (Hdsk : mask_filter (bt_keep L price) ds = firstn k ds).
  { rewrite bt_keep_prefix by (assumption || lia).
    now apply mask_filter_first. }
  assert (Hbhk : bt_bh_ret L price = firstn k (future_ret L price)).
  { unfold bt_bh_ret. rewrite bt_keep_prefix by (assumption || lia).
    apply mask_filter_first, future_ret_length. }
  exists (length h + 3), m, (h ++ l3 ++ [bt_table L thr w ds price trend]),
    (bt_table L thr w ds price trend), (bt_bh_ret L price).
  split; [exact Hrun|]. split; [now apply nth_error_last_of|].
  split; [apply bt_summary_inv in Hm as (? & ? & ? & ? & _ & _ & _ & _ & Hl); exact Hl|].
  split; [cbn [bt_table nrows]; rewrite Hdsk, length_firstn; lia|].
  split; [cbn; now rewrite Hdsk|].
  split; [reflexivity|].
  split; [rewrite Hbhk, length_firstn, future_ret_length; lia|].
  intros i Hi. rewrite Hbhk, nth_firstn.
  destruct (Nat.ltb_spec i k); [|lia].
  rewrite nth_future_ret by lia. rewrite nth_shift by lia.
  replace (Z.of_nat i - - L)%Z with (Z.of_nat (i + Z.to_nat L)) by lia.
  destruct (Z.leb_spec 0 (Z.of_nat (i + Z.to_nat L))); [|lia].
  destruct (Z.ltb_spec (Z.of_nat (i + Z.to_nat L)) (Z.of_nat (length price)));
    [|lia].
  cbn [andb]. now rewrite Nat2Z.id.
Qed.
Lemma bt_summary_fields L es eb sr sg m :
  bt_summary L es eb sr sg = inr m ->
  py_int (s_sum sg) = inr (n_trades_periods m) /\
  (fgt (s_std qsqrt sr) (of_Z 0) = false -> sharpe_like m = NaN).
Proof.
  unfold bt_summary.
  destruct (rev es); [discriminate|]. destruct (rev eb); [discriminate|].
  destruct (fgt _ _) eqn:E; [destruct (py_div_int 252 L)|];
    destruct (py_int (s_sum sg)); try discriminate;
    intros [= <-]; cbn; split; auto; discriminate.
Qed.

Lemma Qplus_int (z c : Z) : Qplus (z # 1) (inject_Z c) = ((z + c) # 1).
Proof. unfold Qplus, inject_Z. simpl. f_equal. lia. Qed.

Lemma fold_fadd_count xs z :
  Forall is_position xs ->
  fold_left fadd xs (Fin (z # 1))
  = Fin ((z + Z.of_nat (length (filter in_market xs))) # 1).
Proof.
  intros H. revert z.
  induction H as [|x xs [->| ->] _ IH]; intros z; cbn [fold_left filter].
  - simpl. do 2 f_equal. lia.
  - change (in_market (of_Z 0)) with false. cbv iota.
    unfold of_Z at 1. cbn [fadd]. rewrite Qplus_int, IH. do 2 f_equal. lia.
  - change (in_market (of_Z 1)) with true. cbv iota.
    unfold of_Z at 1. cbn [fadd length]. rewrite Qplus_int, IH. do 2 f_equal. lia.
Qed.

Lemma filter_notna_positions xs : Forall is_position xs -> filter notna xs = xs.
Proof.
  induction 1 as [|x xs [->| ->] _ IH]; simpl; [reflexivity| |]; now rewrite IH.
Qed.

Lemma py_int_count xs :
  Forall is_position xs ->
  py_int (s_sum xs) = inr (Z.of_nat (length (filter in_market xs))).
Proof.
  intros H. unfold s_sum, fsum. rewrite filter_notna_positions by assumption.
  change (Fin 0) with (Fin (0 # 1)). rewrite fold_fadd_count by assumption.
  cbn [py_int Qnum Qden]. now rewrite Z.quot_1_r.
Qed.

(** X4.  The count of signal-on periods in the metrics of a backtest is the
    number of rows of the returned table whose position is 1; it lies
    between 0 and the number of rows. *)
Theorem backtest_trade_count h df f price trend L thr w out m h' :
  nth_error h df = Some f -> wf_frame f ->
  get_col "price" f = Some price -> get_col "trend" f = Some trend ->
  backtest_trend_signal qsqrt df L thr w h = (inr (out, m), h') ->
  exists table sig,
    nth_error h' out = Some table /\
    get_col "signal" table = Some sig /\
    n_trades_periods m = Z.of_nat (length (filter in_market sig)) /\
    (0 <= n_trades_periods m <= Z.of_nat (nrows table))%Z.
Proof.
  intros Hf Hwf Hp Ht Hrun.
  destruct (backtest_result h df f price trend L thr w out m h'
              Hf Hwf Hp Ht Hrun)
    as (_ & ds & l3 & Hds & Hm & _ & _ & _ & Hn).
  assert (Hlen : length price = length trend).
  { rewrite (get_col_wf _ _ _ Hwf Hp), (get_col_wf _ _ _ Hwf Ht). reflexivity. }
  assert (Hdl : length ds = length price).
  { rewrite (get_col_wf _ _ _ Hwf Hp), (get_col_wf _ _ _ Hwf Hds). reflexivity. }
  assert (Hsg : Forall is_position (bt_signal L thr w price trend))
    by apply mask_filter_Forall, signal_col_positions.
  apply bt_summary_fields in Hm as [Hc _].
  rewrite py_int_count in Hc by assumption. injection Hc as Hc.
  exists (bt_table L thr w ds price trend), (bt_signal L thr w price trend).
  split; [exact Hn|]. split; [reflexivity|]. split; [now symmetry|].
  rewrite <- Hc. split; [lia|]. apply inj_le.
  etransitivity; [apply filter_length_le|].
  cbn [bt_table nrows]. unfold bt_signal.
  rewrite (mask_filter_length_eq _ _ ds); [lia|].
  now rewrite signal_col_length, Hdl.
Qed.

Lemma fgt_fsub_zero x y : fgt x y = false -> fgt (fsub x y) (of_Z 0) = false.
Proof.
  destruct x as [| | |a], y as [| | |b]; cbn; try reflexivity; try discriminate.
  unfold Qltb. rewrite !negb_false_iff, !Qle_bool_iff.
  change (inject_Z 0) with 0%Q. intros H. lra.
Qed.

Lemma nth_repeat_in {A} (x d : A) n i : i < n -> nth i (repeat x n) d = x.
Proof.
  revert i; induction n as [|n IH]; intros [|i] Hi; simpl; try lia; auto.
  apply IH; lia.
Qed.

(** An indicator that never rises gives no entry. *)
Lemma signal_col_flat thr w trend :
  (forall i, S i < length trend ->
     fgt (nth (S i) trend NaN) (nth i trend NaN) = false) ->
  signal_col thr w trend = repeat (of_Z 0) (length trend).
Proof.
  intros H. apply (nth_ext _ _ NaN NaN).
  - now rewrite signal_col_length, repeat_length.
  - intros i Hi. rewrite signal_col_length in Hi.
    rewrite nth_signal_col, nth_repeat_in by assumption.
    replace (fgt (nth i (diff trend) NaN) (of_Z 0)) with false;
      [now rewrite andb_false_r|].
    symmetry. destruct i as [|i]; [now rewrite diff_first|].
    rewrite nth_diff by assumption.
    change (shift 1 trend) with (shift (Z.of_nat 1) trend).
    rewrite nth_shift_pos by lia.
    replace (S i - 1) with i by lia. apply fgt_fsub_zero, H, Hi.
Qed.

Lemma good_price_Fin x :
  good_price x = true -> exists q, x = Fin q /\ Qeq_bool q 0 = false.
Proof.
  destruct x as [| | |q]; try discriminate. simpl. intros H.
  exists q. split; [reflexivity | now apply negb_true_iff].
Qed.

(** On finite non-zero prices a forward return is finite or undefined. *)
Lemma future_ret_cases L price i :
  forallb good_price price = true -> i < length price ->
  nth i (future_ret L price) NaN = NaN \/
  exists q, nth i (future_ret L price) NaN = Fin q.
Proof.
  intros Hg Hi. rewrite forallb_forall in Hg.
  rewrite nth_future_ret, nth_shift by assumption.
  destruct (good_price_Fin _ (Hg _ (nth_In price NaN Hi))) as (b & -> & Hb).
  destruct (_ && _) eqn:E; [|left; reflexivity].
  apply andb_prop in E as [E1 E2]. apply Z.leb_le in E1. apply Z.ltb_lt in E2.
  assert (Hj : Z.to_nat (Z.of_nat i - - L) < length price) by lia.
  destruct (good_price_Fin _ (Hg _ (nth_In price NaN Hj))) as (a & -> & _).
  right. cbn [fdiv]. rewrite Hb. cbn. eauto.
Qed.

Lemma bt_bh_ret_finite L price :
  forallb good_price price = true ->
  Forall (fun x => exists q, x = Fin q) (bt_bh_ret L price).
Proof.
  intros Hg. apply Forall_forall. intros x Hx.
  assert (Hn : notna x = true).
  { pose proof (mask_filter_self_notna (future_ret L price)) as Hall.
    rewrite forallb_forall in Hall. apply Hall, Hx. }
  apply mask_filter_In in Hx.
  destruct (In_nth _ _ NaN Hx) as (i & Hi & <-).
  rewrite future_ret_length in Hi.
  destruct (future_ret_cases L price i Hg Hi) as [E|E]; [|exact E].
  rewrite E in Hn. discriminate.
Qed.

Lemma Forall_firstn_of {A} (P : A -> Prop) n l : Forall P l -> Forall P (firstn n l).
Proof.
  intros H. revert n; induction H as [|x l Hx _ IH]; intros [|n]; simpl;
    constructor; auto.
Qed.

Lemma fold_fmul_growth_zero zs a :
  Forall fzero zs ->
  feq (fold_left fmul (map (fadd (Fin 1)) zs) (Fin a)) (Fin a).
Proof.
  intros H. revert a; induction H as [|z zs Hz _ IH]; intros a; simpl.
  - reflexivity.
  - destruct z as [| | |q]; try contradiction. unfold fzero in Hz. simpl in Hz.
    cbn [fadd fmul]. eapply feq_trans; [apply IH|].
    simpl. rewrite Hz. ring.
Qed.

(** The equity curve of returns that are all zero stays at one. *)
Lemma equity_zeros rets :
  Forall fzero rets -> Forall (fun e => feq e (Fin 1)) (equity rets).
Proof.
  intros H. apply Forall_forall. intros e He.
  destruct (In_nth _ _ NaN He) as (i & Hi & <-). rewrite equity_length in Hi.
  assert (Hn : forallb notna rets = true).
  { apply forallb_forall. intros x Hx. rewrite Forall_forall in H.
    specialize (H x Hx). now destruct x. }
  eapply feq_trans; [apply equity_product; assumption|].
  apply fold_fmul_growth_zero, Forall_firstn_of, H.
Qed.

Lemma price_bound_inv_pos : (0 < / price_bound)%Q.
Proof.
  apply Qinv_lt_0_compat. unfold price_bound.
  change 0%Q with (inject_Z 0). rewrite <- Zlt_Qlt.
  apply Z.pow_pos_nonneg; lia.
Qed.

Lemma in_range_pos_price x : in_range x = true -> pos_price x = true.
Proof.
  destruct x as [| | |q]; try discriminate. unfold in_range, pos_price.
  intros H. apply andb_prop in H as [H _]. apply Qle_bool_iff in H.
  apply Qltb_lt. pose proof price_bound_inv_pos. lra.
Qed.

Lemma in_range_good_price x : in_range x = true -> good_price x = true.
Proof.
  destruct x as [| | |q]; try discriminate. unfold in_range, good_price.
  intros H. apply andb_prop in H as [H _]. apply Qle_bool_iff in H.
  pose proof price_bound_inv_pos.
  destruct (Qeq_bool q 0) eqn:E; [apply Qeq_bool_iff in E; lra | reflexivity].
Qed.

Lemma forallb_impl {A} (p q : A -> bool) l :
  (forall x, p x = true -> q x = true) ->
  forallb p l = true -> forallb q l = true.
Proof.
  intros Hpq H. rewrite forallb_forall in *. auto.
Qed.

(** X5.  An indicator that never rises keeps the strategy out of the
    market: on prices between [2^-500] and [2^500] and for a horizon
    [0 < L < n], every position of the returned table is 0, the strategy
    equity stays at 1, the total strategy return is 0, no signal-on period
    is counted and the Sharpe-like ratio is undefined. *)
Theorem backtest_flat_indicator h df f ds price trend L thr w :
  nth_error h df = Some f -> wf_frame f ->
  get_col "ds" f = Some ds ->
  get_col "price" f = Some price -> get_col "trend" f = Some trend ->
  forallb in_range price = true ->
  (0 <= w)%Z ->
  (0 < L < Z.of_nat (length price))%Z ->
  (forall i, S i < length trend ->
     fgt (nth (S i) trend NaN) (nth i trend NaN) = false) ->
  exists out m h' table es,
    backtest_trend_signal qsqrt df L thr w h = (inr (out, m), h') /\
    nth_error h' out = Some table /\
    get_col "signal" table
    = Some (repeat (of_Z 0) (length price - Z.to_nat L)) /\
    get_col "equity_strategy" table = Some es /\
    length es = length price - Z.to_nat L /\
    Forall (fun e => feq e (Fin 1)) es /\
    feq (total_return_strategy m) (Fin 0) /\
    n_trades_periods m = 0%Z /\
    sharpe_like m = NaN.
Proof.
  intros Hf Hwf Hds Hp Ht Hrange Hw HL Hflat.
  pose proof (forallb_impl _ _ _ in_range_good_price Hrange) as Hg.
  destruct (backtest_returns h df f ds price trend L thr w
              Hf Hwf Hds Hp Ht Hg Hw HL) as (m & l3 & Hl3 & Hrun & Hm).
  assert (Hlen : length price = length trend).
  { rewrite (get_col_wf _ _ _ Hwf Hp), (get_col_wf _ _ _ Hwf Ht). reflexivity. }
  remember (length price - Z.to_nat L) as k eqn:Ek.
  assert (Hsig : bt_signal L thr w price trend = repeat (of_Z 0) k).
  { unfold bt_signal. rewrite signal_col_flat by assumption.
    rewrite bt_keep_prefix by (assumption || lia).
    rewrite mask_filter_first by (now rewrite repeat_length).
    rewrite <- Ek. apply (nth_ext _ _ NaN NaN).
    - rewrite length_firstn, !repeat_length. lia.
    - intros i Hi. rewrite length_firstn, repeat_length in Hi.
      rewrite nth_firstn. destruct (Nat.ltb_spec i k); [|lia].
      now rewrite !nth_repeat_in by lia. }
  assert (Hbl : length (bt_bh_ret L price) = k).
  { rewrite <- bt_signal_length with (thr := thr) (w := w) (trend := trend)
      by assumption.
    now rewrite Hsig, repeat_length. }
  assert (Hsr : Forall fzero (bt_strategy_ret L thr w price trend)).
  { unfold bt_strategy_ret, s_mul. rewrite Hsig.
    eapply (zip_with_Forall fmul (fun s => s = of_Z 0)
              (fun x => exists q, x = Fin q)).
    - intros s x -> [q ->]. unfold fzero, of_Z. cbn. ring.
    - apply Forall_forall. intros s Hs. now apply repeat_spec in Hs.
    - now apply bt_bh_ret_finite. }
  assert (Hsl : length (bt_strategy_ret L thr w price trend) = k).
  { unfold bt_strategy_ret, s_mul.
    rewrite zip_with_length, Hsig, repeat_length, Hbl. lia. }
  pose proof (equity_zeros _ Hsr) as Hes.
  exists (length h + 3), m, (h ++ l3 ++ [bt_table L thr w ds price trend]),
    (bt_table L thr w ds price trend),
    (equity (bt_strategy_ret L thr w price trend)).
  split; [exact Hrun|]. split; [now apply nth_error_last_of|].
  split; [cbn; now rewrite Hsig|].
  split; [reflexivity|].
  split; [now rewrite equity_length|].
  split; [exact Hes|].
  destruct (bt_summary_fields _ _ _ _ _ _ Hm) as [Hc Hsh].
  apply bt_summary_inv in Hm
    as (esl & es' & _ & _ & Hrev & _ & Htot & _ & _).
  split.
  - rewrite Htot.
    assert (Hin : In esl (equity (bt_strategy_ret L thr w price trend))).
    { apply in_rev. rewrite Hrev. now left. }
    rewrite Forall_forall in Hes. specialize (Hes _ Hin).
    destruct esl as [| | |q]; try contradiction. cbn in Hes |- *.
    rewrite Hes. ring.
  - split.
    + rewrite py_int_count in Hc
        by apply mask_filter_Forall, signal_col_positions.
      rewrite Hsig in Hc. injection Hc as <-.
      clear. induction k as [|k IH]; [reflexivity|]. exact IH.
    + apply Hsh, s_std_zeros, Hsr.
Qed.
Lemma Qeq_bool_false (x y : Q) : ~ (x == y)%Q -> Qeq_bool x y = false.
Proof.
  intros H. destruct (Qeq_bool x y) eqn:E; [|reflexivity].
  apply Qeq_bool_iff in E. contradiction.
Qed.

Lemma good_price_map price :
  forallb good_price price = true ->
  exists ps, price = map Fin ps /\ Forall (fun q => ~ (q == 0)%Q) ps.
Proof.
  induction price as [|x price IH]; simpl; intros H.
  - exists []. split; [reflexivity | constructor].
  - apply andb_prop in H as [Hx Hp].
    destruct (good_price_Fin _ Hx) as (q & -> & Hq).
    destruct (IH Hp) as (ps & -> & Hps).
    exists (q :: ps). split; [reflexivity|]. constructor; [|exact Hps].
    now apply Qeq_bool_neq.
Qed.

Lemma bt_bh_ret_prefix L price :
  forallb good_price price = true -> (0 <= L)%Z ->
  bt_bh_ret L price = firstn (length price - Z.to_nat L) (future_ret L price).
Proof.
  intros Hg HL. unfold bt_bh_ret. rewrite bt_keep_prefix by assumption.
  apply mask_filter_first, future_ret_length.
Qed.

Lemma rev_head_last {A} (d : A) l x l' :
  rev l = x :: l' -> x = nth (length l - 1) l d.
Proof.
  intros H. apply (f_equal (@rev A)) in H. rewrite rev_involutive in H.
  subst l. cbn [rev]. rewrite length_app. cbn [length].
  rewrite app_nth2 by lia.
  replace (length (rev l') + 1 - 1 - length (rev l')) with 0 by lia.
  reflexivity.
Qed.

(** One-step returns compound to the ratio of the last price to the
    first. *)
Lemma fold_fmul_telescope ps k a :
  Forall (fun q => ~ (q == 0)%Q) ps -> k < length ps ->
  feq (fold_left fmul
         (map (fadd (Fin 1))
              (map (fun i => Fin (nth (S i) ps 0 / nth i ps 0 + - (1))%Q)
                   (seq 0 k)))
         (Fin a))
      (Fin (a * nth k ps 0 / nth 0 ps 0)%Q).
Proof.
  intros Hps. rewrite Forall_forall in Hps.
  induction k as [|k IH]; intros Hk.
  - cbn. field. apply Hps, nth_In. lia.
  - rewrite seq_S, !map_app, fold_left_app. cbn [Nat.add map fold_left].
    eapply feq_trans; [apply fmul_feq_l, IH; lia|].
    cbn. field. split; apply Hps, nth_In; lia.
Qed.

(** X6.  At horizon 1 the benchmark compounds the one-step returns of the
    whole table, so its total return is the relative change from the first
    price to the last. *)
Theorem backtest_one_step_total h df f ds price trend thr w :
  nth_error h df = Some f -> wf_frame f ->
  get_col "ds" f = Some ds ->
  get_col "price" f = Some price -> get_col "trend" f = Some trend ->
  forallb good_price price = true ->
  (0 <= w)%Z ->
  2 <= length price ->
  exists out m h' a b,
    backtest_trend_signal qsqrt df 1 thr w h = (inr (out, m), h') /\
    nth 0 price NaN = Fin a /\
    nth (length price - 1) price NaN = Fin b /\
    feq (total_return_bh m) (Fin (b / a - 1)%Q).
Proof.
  intros Hf Hwf Hds Hp Ht Hg Hw Hn.
  destruct (backtest_returns h df f ds price trend 1 thr w
              Hf Hwf Hds Hp Ht Hg Hw) as (m & l3 & Hl3 & Hrun & Hm); [lia|].
  pose proof (bt_bh_ret_prefix 1 price Hg ltac:(lia)) as Hbh.
  destruct (good_price_map price Hg) as (ps & Hps & Hnz).
  assert (Hl : length price = length ps) by (subst price; apply length_map).
  assert (Hcell : forall i, i < length ps -> nth i price NaN = Fin (nth i ps 0%Q)).
  { intros i Hi. subst price. now apply nth_map_in. }
  assert (Hrets : bt_bh_ret 1 price
                  = map (fun i => Fin (nth (S i) ps 0 / nth i ps 0 + - (1))%Q)
                        (seq 0 (length ps - 1))).
  { rewrite Hbh. apply (nth_ext _ _ NaN NaN).
    - rewrite length_firstn, future_ret_length, length_map, length_seq. lia.
    - intros i Hi. rewrite length_firstn, future_ret_length in Hi.
      rewrite nth_firstn.
      destruct (Nat.ltb_spec i (length price - Z.to_nat 1)); [|lia].
      rewrite (nth_map_in _ _ _ 0) by (rewrite length_seq; lia).
      rewrite seq_nth by lia. cbn [Nat.add].
      rewrite nth_future_ret, nth_shift by lia.
      replace (Z.of_nat i - - (1))%Z with (Z.of_nat (S i)) by lia.
      destruct (Z.leb_spec 0 (Z.of_nat (S i))); [|lia].
      destruct (Z.ltb_spec (Z.of_nat (S i)) (Z.of_nat (length price))); [|lia].
      cbn [andb]. rewrite Nat2Z.id, !Hcell by lia.
      cbn [fdiv]. rewrite Forall_forall in Hnz.
      assert (Hi0 : ~ (nth i ps 0 == 0)%Q) by (apply Hnz, nth_In; lia).
      rewrite (Qeq_bool_false _ _ Hi0). reflexivity. }
  apply bt_summary_inv in Hm
    as (esl & es' & ebl & eb' & _ & Hrev & _ & Htot & _).
  apply (rev_head_last NaN) in Hrev. rewrite equity_length in Hrev.
  assert (Hlast : feq ebl (Fin (1 * nth (length ps - 1) ps 0 / nth 0 ps 0)%Q)).
  { rewrite Hrev. eapply feq_trans.
    - apply equity_product.
      + rewrite Hrets. clear. induction (seq 0 (length ps - 1)); simpl; auto.
      + rewrite Hrets, length_map, length_seq. lia.
    - rewrite firstn_all2 by (rewrite Hrets, length_map, length_seq; lia).
      rewrite Hrets. apply fold_fmul_telescope; [assumption | lia]. }
  exists (length h + 3), m, (h ++ l3 ++ [bt_table 1 thr w ds price trend]),
    (nth 0 ps 0%Q), (nth (length ps - 1) ps 0%Q).
  split; [exact Hrun|].
  split; [apply Hcell; lia|].
  split; [rewrite Hl; apply Hcell; lia|].
  rewrite Htot. destruct ebl as [| | |q]; try contradiction.
  cbn in Hlast |- *. rewrite Hlast.
  rewrite Forall_forall in Hnz.
  field. apply Hnz, nth_In. lia.
Qed.

Lemma pos_price_Fin x : pos_price x = true -> exists q, x = Fin q /\ (0 < q)%Q.
Proof.
  destruct x as [| | |q]; try discriminate. simpl. intros H.
  exists q. split; [reflexivity | now apply Qltb_lt].
Qed.

(** On positive prices a forward return is undefined or above -1. *)
Lemma future_ret_above L price i :
  forallb pos_price price = true -> i < length price ->
  nth i (future_ret L price) NaN = NaN \/
  exists q, nth i (future_ret L price) NaN = Fin q /\ (-1 < q)%Q.
Proof.
  intros Hg Hi. rewrite forallb_forall in Hg.
  rewrite nth_future_ret, nth_shift by assumption.
  destruct (pos_price_Fin _ (Hg _ (nth_In price NaN Hi))) as (b & -> & Hb).
  destruct (_ && _) eqn:E; [|left; reflexivity].
  apply andb_prop in E as [E1 E2]. apply Z.leb_le in E1. apply Z.ltb_lt in E2.
  assert (Hj : Z.to_nat (Z.of_nat i - - L) < length price) by lia.
  destruct (pos_price_Fin _ (Hg _ (nth_In price NaN Hj))) as (a & -> & Ha).
  right. cbn [fdiv].
  assert (Hb0 : ~ (b == 0)%Q) by lra.
  rewrite (Qeq_bool_false _ _ Hb0). cbn.
  eexists. split; [reflexivity|].
  assert (0 < a / b)%Q by (apply Qlt_shift_div_l; lra). lra.
Qed.

Lemma bt_bh_ret_above L price :
  forallb pos_price price = true ->
  Forall (fun x => exists q, x = Fin q /\ (-1 < q)%Q) (bt_bh_ret L price).
Proof.
  intros Hg. apply Forall_forall. intros x Hx.
  assert (Hn : notna x = true).
  { pose proof (mask_filter_self_notna (future_ret L price)) as Hall.
    rewrite forallb_forall in Hall. apply Hall, Hx. }
  apply mask_filter_In in Hx.
  destruct (In_nth _ _ NaN Hx) as (i & Hi & <-).
  rewrite future_ret_length in Hi.
  destruct (future_ret_above L price i Hg Hi) as [E|E]; [|exact E].
  rewrite E in Hn. discriminate.
Qed.

(** Returns above -1 keep the equity above zero. *)
Lemma equity_pos rets :
  Forall (fun r => flt (Fin (-1)) r = true) rets -> Forall fpos (equity rets).
Proof.
  intros H.
  assert (Hp : Forall fpos (s_add_scalar (Fin 1) rets)).
  { unfold s_add_scalar. induction H as [|r rs Hr _ IH]; simpl; constructor;
      [now apply fpos_growth | exact IH]. }
  assert (Hn : forallb notna (s_add_scalar (Fin 1) rets) = true).
  { apply forallb_forall. rewrite Forall_forall in Hp.
    intros x Hx. auto using fpos_notna. }
  unfold equity. rewrite cumprod_notna by assumption.
  destruct (s_add_scalar (Fin 1) rets) as [|x xs]; simpl; [constructor|].
  inversion Hp; subst. constructor; auto using np_cumprod_from_pos.
Qed.

Lemma fpos_total x : fpos x -> flt (Fin (-1)) (fsub x (Fin 1)) = true.
Proof.
  destruct x as [| | |q]; cbn; try discriminate; try reflexivity.
  unfold fpos. cbn. rewrite !Qltb_lt. intros H. lra.
Qed.

Lemma fpos_not_below x : fpos x -> flt x (Fin 0) = false.
Proof.
  destruct x as [| | |q]; cbn; try discriminate; try reflexivity.
  unfold fpos. cbn. rewrite Qltb_lt. intros H. unfold Qltb.
  apply negb_false_iff, Qle_bool_iff. lra.
Qed.

Lemma flt_not_below a x : flt (Fin a) x = true -> flt x (Fin a) = false.
Proof.
  destruct x as [| | |q]; cbn; try discriminate; try reflexivity.
  rewrite Qltb_lt. intros H. unfold Qltb.
  apply negb_false_iff, Qle_bool_iff. lra.
Qed.

(** X7.  On positive prices no value of either equity curve of a backtest
    is below zero, and neither total return is below -1 (no loss of more
    than the stake).  The comparisons are the negated [<]: they also hold
    of a curve that rounding brings to zero, or that an overflow leaves
    infinite or undefined. *)
Theorem backtest_equity_not_negative h df f price trend L thr w out m h' :
  nth_error h df = Some f -> wf_frame f ->
  get_col "price" f = Some price -> get_col "trend" f = Some trend ->
  forallb pos_price price = true ->
  backtest_trend_signal qsqrt df L thr w h = (inr (out, m), h') ->
  exists table es eb,
    nth_error h' out = Some table /\
    get_col "equity_strategy" table = Some es /\
    get_col "equity_bh" table = Some eb /\
    Forall (fun e => flt e (Fin 0) = false) es /\
    Forall (fun e => flt e (Fin 0) = false) eb /\
    flt (total_return_strategy m) (Fin (-1)) = false /\
    flt (total_return_bh m) (Fin (-1)) = false.
Proof.
  intros Hf Hwf Hp Ht Hpos Hrun.
  destruct (backtest_result h df f price trend L thr w out m h'
              Hf Hwf Hp Ht Hrun)
    as (_ & ds & l3 & Hds & Hm & _ & _ & _ & Hn).
  pose proof (bt_bh_ret_above L price Hpos) as Hbh.
  assert (Hb : Forall (fun r => flt (Fin (-1)) r = true) (bt_bh_ret L price)).
  { eapply Forall_impl; [|exact Hbh]. intros x (q & -> & Hq).
    cbn. now apply Qltb_lt. }
  assert (Hs : Forall (fun r => flt (Fin (-1)) r = true)
                      (bt_strategy_ret L thr w price trend)).
  { unfold bt_strategy_ret, s_mul.
    eapply (zip_with_Forall fmul is_position
              (fun x => exists q, x = Fin q /\ (-1 < q)%Q)).
    - intros s x [->| ->] (q & -> & Hq); unfold of_Z; cbn [fmul flt];
        apply Qltb_lt; unfold inject_Z; lra.
    - apply mask_filter_Forall, signal_col_positions.
    - exact Hbh. }
  pose proof (equity_pos _ Hb) as Heb. pose proof (equity_pos _ Hs) as Hes.
  exists (bt_table L thr w ds price trend),
    (equity (bt_strategy_ret L thr w price trend)),
    (equity (bt_bh_ret L price)).
  split; [exact Hn|]. split; [reflexivity|]. split; [reflexivity|].
  split; [eapply Forall_impl; [|exact Hes]; intros e; apply fpos_not_below|].
  split; [eapply Forall_impl; [|exact Heb]; intros e; apply fpos_not_below|].
  apply bt_summary_inv in Hm
    as (esl & es' & ebl & eb' & Hr1 & Hr2 & Ht1 & Ht2 & _).
  rewrite Ht1, Ht2. rewrite Forall_forall in Hes, Heb.
  split; apply flt_not_below, fpos_total.
  - apply Hes, in_rev. rewrite Hr1. now left.
  - apply Heb, in_rev. rewrite Hr2. now left.
Qed.
(** ** The lag scan and the best leading lag: range, composition, errors *)

Lemma np_clip_range x :
  np_clip (Fin (-1)) (Fin 1) x = NaN \/
  exists q, np_clip (Fin (-1)) (Fin 1) x = Fin q /\ (-1 <= q <= 1)%Q.
Proof.
  unfold np_clip. destruct (isnan x) eqn:En; [now left|]. right.
  destruct (flt x (Fin (-1))) eqn:E1; [exists (-1)%Q; split; [reflexivity | lra]|].
  destruct (flt (Fin 1) x) eqn:E2; [exists 1%Q; split; [reflexivity | lra]|].
  destruct x as [| | |q]; try discriminate.
  exists q. split; [reflexivity|].
  cbn in E1, E2. unfold Qltb in E1, E2.
  apply negb_false_iff, Qle_bool_iff in E1, E2. lra.
Qed.

Lemma lag_correlation_range lag price trend :
  lag_correlation lag price trend = NaN \/
  exists q, lag_correlation lag price trend = Fin q /\ (-1 <= q <= 1)%Q.
Proof.
  unfold lag_correlation. destruct (_ <? 5); [now left|]. apply np_clip_range.
Qed.

Lemma scan_lags_not_nil max_lag : (0 <= max_lag)%Z -> scan_lags max_lag <> [].
Proof.
  intros Hm E. apply (f_equal (@length Z)) in E.
  unfold scan_lags in E. rewrite py_range_length in E. simpl in E. lia.
Qed.

Lemma scan_lags_In max_lag l :
  In l (scan_lags max_lag) <-> (- max_lag <= l <= max_lag)%Z.
Proof.
  unfold scan_lags, py_range. rewrite in_map_iff. split.
  - intros (i & <- & Hi). apply in_seq in Hi. lia.
  - intros Hl. exists (Z.to_nat (l + max_lag)). split; [lia|].
    apply in_seq. lia.
Qed.

(** The table of a scan, as two columns. *)
Lemma scan_table h df f price trend max_lag :
  nth_error h df = Some f -> wf_frame f ->
  get_col "price" f = Some price -> get_col "trend" f = Some trend ->
  (0 <= max_lag)%Z ->
  compute_lagged_correlations qsqrt df max_lag h
  = (inr (length h),
     h ++ [[("lag"%string, map of_Z (scan_lags max_lag));
            ("correlation"%string,
             map (fun lag => lag_correlation lag price trend)
                 (scan_lags max_lag))]]).
Proof.
  intros Hf Hwf Hp Ht Hm.
  assert (Hlen : length price = length trend).
  { rewrite (get_col_wf _ _ _ Hwf Hp), (get_col_wf _ _ _ Hwf Ht). reflexivity. }
  rewrite (compute_lagged_correlations_run h df f price trend max_lag Hf Hp Ht Hlen).
  pose proof (scan_lags_not_nil max_lag Hm) as Hne.
  unfold records_frame.
  destruct (scan_lags max_lag) as [|l ls] eqn:E; [congruence|].
  rewrite <- E. destruct (map _ (scan_lags max_lag)) eqn:E2.
  { rewrite E in E2. discriminate. }
  rewrite <- E2, !map_map. reflexivity.
Qed.

(** X8.  Every correlation that a scan records is either undefined or a
    number between -1 and 1. *)
Theorem scan_correlations_bounded h df f price trend max_lag :
  nth_error h df = Some f -> wf_frame f ->
  get_col "price" f = Some price -> get_col "trend" f = Some trend ->
  (0 <= max_lag)%Z ->
  exists out h' table corrs,
    compute_lagged_correlations qsqrt df max_lag h = (inr out, h') /\
    nth_error h' out = Some table /\
    get_col "correlation" table = Some corrs /\
    Forall (fun c => c = NaN \/ exists q, c = Fin q /\ (-1 <= q <= 1)%Q) corrs.
Proof.
  intros Hf Hwf Hp Ht Hm.
  eexists. eexists. eexists. eexists.
  split; [apply (scan_table h df f price trend max_lag Hf Hwf Hp Ht Hm)|].
  split; [rewrite <- (Nat.add_0_r (length h)), nth_error_new; reflexivity|].
  split; [reflexivity|].
  apply Forall_forall. intros c Hc. apply in_map_iff in Hc as (l & <- & _).
  apply lag_correlation_range.
Qed.

(** The entry that the search picks among the leading entries. *)
Lemma best_of_leading lags corrs :
  exists r,
    best_of (leading_rows (map of_Z lags) corrs) = inr r /\
    (leading_entries lags corrs = [] -> r = None) /\
    forall b, r = Some b ->
      In (lag b, correlation b) (leading_entries lags corrs).
Proof.
  rewrite leading_rows_entries.
  pose proof (leading_entries_In lags corrs) as HIn.
  set (es := leading_entries lags corrs) in *. clearbody es.
  destruct es as [|e0 es'] eqn:Ees.
  { exists None. split; [reflexivity|]. split; [reflexivity | discriminate]. }
  rewrite <- Ees in *.
  assert (Hne : es <> []) by (rewrite Ees; discriminate).
  clear e0 es' Ees.
  unfold best_of.
  destruct (map _ es) as [|r0 rs] eqn:Emap.
  { destruct es; [congruence | discriminate]. }
  rewrite <- Emap. clear r0 rs Emap.
  rewrite !map_map. cbn [fst snd].
  set (xs := s_abs (map (fun p : Z * f64 => snd p) es)).
  assert (Hxs : xs = map (fun p : Z * f64 => fabs (snd p)) es)
    by (unfold xs, s_abs; now rewrite map_map).
  assert (Hlen : length xs = length es) by (rewrite Hxs; now rewrite length_map).
  destruct (argmax_spec xs) as (Hidx & _ & _).
  { rewrite Hxs. destruct es; [congruence | discriminate]. }
  { rewrite Hxs. apply forallb_forall. intros x Hx.
    apply in_map_iff in Hx as ([l c] & <- & Hp).
    apply HIn in Hp as [_ [_ Hp]]. simpl. now destruct c. }
  set (idx := argmax xs) in *.
  rewrite <- (map_map fst of_Z).
  rewrite (nth_map_in _ _ _ 0%Z) by (rewrite length_map; lia).
  rewrite py_int_of_Z.
  eexists. split; [reflexivity|]. split; [intros E; congruence|].
  intros b [= <-]. cbn [lag correlation].
  rewrite (nth_map_in _ _ _ (0%Z, NaN)) by lia.
  rewrite (nth_map_in _ _ _ (0%Z, NaN)) by lia.
  rewrite <- surjective_pairing. apply nth_In. lia.
Qed.

Lemma combine_map_self {A B} (g : A -> B) l :
  combine l (map g l) = map (fun x => (x, g x)) l.
Proof. induction l as [|x l IH]; simpl; [reflexivity | now rewrite IH]. Qed.

Lemma bind_run {A B} (m : M A) (k : A -> M B) s a s1 :
  m s = (inr a, s1) -> bind m k s = k a s1.
Proof. intros H. unfold bind. now rewrite H. Qed.

(** The search on the table of a scan. *)
Lemma best_after_scan h price trend max_lag :
  (0 <= max_lag)%Z ->
  let T := [("lag"%string, map of_Z (scan_lags max_lag));
            ("correlation"%string,
             map (fun lag => lag_correlation lag price trend)
                 (scan_lags max_lag))] in
  exists r l2,
    find_best_leading_lag (length h) (h ++ [T]) = (inr r, (h ++ [T]) ++ l2) /\
    (forall b, r = Some b ->
       (1 <= lag b <= max_lag)%Z /\
       (lag b + 5 <= Z.of_nat (length price))%Z /\
       correlation b = lag_correlation (lag b) price trend /\
       isnan (correlation b) = false) /\
    (length price <= 5 \/ max_lag = 0%Z -> r = None).
Proof.
  intros Hm T.
  set (lags := scan_lags max_lag) in *.
  set (corrs := map (fun lag => lag_correlation lag price trend) lags) in *.
  assert (HT : nth_error (h ++ [T]) (length h) = Some T).
  { rewrite <- (Nat.add_0_r (length h)), nth_error_new. reflexivity. }
  assert (HwT : wf_frame T).
  { unfold wf_frame, T. cbn [nrows]. repeat constructor; cbn [snd].
    unfold corrs. now rewrite !length_map. }
  destruct (find_best_leading_lag_run (h ++ [T]) (length h) T
              (map of_Z lags) corrs HT HwT eq_refl eq_refl) as [l2 Hbest].
  destruct (best_of_leading lags corrs) as (r & Hr & Hnone & Hsome).
  rewrite Hr in Hbest.
  assert (Hent : forall l c, In (l, c) (leading_entries lags corrs) ->
            (1 <= l <= max_lag)%Z /\
            (l + 5 <= Z.of_nat (length price))%Z /\
            c = lag_correlation l price trend /\ isnan c = false).
  { intros l c Hin. apply leading_entries_In in Hin as [Hin [Hl Hc]].
    unfold corrs in Hin. rewrite combine_map_self in Hin.
    apply in_map_iff in Hin as (l' & [= <- <-] & Hl').
    apply scan_lags_In in Hl'.
    split; [lia|]. split; [|split; [reflexivity | exact Hc]].
    unfold lag_correlation in Hc.
    destruct (Nat.ltb_spec (overlap (length price) l') 5) as [Ho|Ho];
      [discriminate|].
    unfold overlap in Ho. lia. }
  exists r, l2. split; [exact Hbest|]. split.
  - intros b Hb. apply (Hent _ _ (Hsome b Hb)).
  - intros Hshort. apply Hnone.
    destruct (leading_entries lags corrs) as [|[l c] es] eqn:E; [reflexivity|].
    exfalso. destruct (Hent l c) as (H1 & H2 & _); [rewrite ?E; now left|]. lia.
Qed.

(** X9.  The scan followed by the search of the best leading lag never
    fails on an aligned table; a lag that it reports lies between 1 and
    [max_lag], leaves at least 5 paired rows, and comes with its own
    defined correlation from the scan; nothing is reported for a table of
    at most 5 rows, nor for [max_lag = 0]. *)
Theorem scan_then_best h df f price trend max_lag :
  nth_error h df = Some f -> wf_frame f ->
  get_col "price" f = Some price -> get_col "trend" f = Some trend ->
  (0 <= max_lag)%Z ->
  exists r h',
    (corr_df <- compute_lagged_correlations qsqrt df max_lag ;;
     find_best_leading_lag corr_df) h = (inr r, h') /\
    (forall b, r = Some b ->
       (1 <= lag b <= max_lag)%Z /\
       (lag b + 5 <= Z.of_nat (length price))%Z /\
       correlation b = lag_correlation (lag b) price trend /\
       isnan (correlation b) = false) /\
    (length price <= 5 \/ max_lag = 0%Z -> r = None).
Proof.
  intros Hf Hwf Hp Ht Hm.
  pose proof (scan_table h df f price trend max_lag Hf Hwf Hp Ht Hm) as Hscan.
  destruct (best_after_scan h price trend max_lag Hm)
    as (r & l2 & Hbest & Hsome & Hnone).
  exists r. eexists. split; [|split; [exact Hsome | exact Hnone]].
  rewrite (bind_run _ _ _ _ _ Hscan). exact Hbest.
Qed.

(** X10.  A negative [max_lag] makes the scan return a table without any
    column, on which the search of the best lag fails with the KeyError of
    the missing lag column. *)
Theorem scan_negative_max_lag h df f price trend max_lag :
  nth_error h df = Some f -> wf_frame f ->
  get_col "price" f = Some price -> get_col "trend" f = Some trend ->
  (max_lag < 0)%Z ->
  compute_lagged_correlations qsqrt df max_lag h = (inr (length h), h ++ [[]]) /\
  (corr_df <- compute_lagged_correlations qsqrt df max_lag ;;
   find_best_leading_lag corr_df) h = (inl KeyError, h ++ [[]]).
Proof.
  intros Hf Hwf Hp Ht Hm.
  assert (Hlen : length price = length trend).
  { rewrite (get_col_wf _ _ _ Hwf Hp), (get_col_wf _ _ _ Hwf Ht). reflexivity. }
  assert (Hscan : compute_lagged_correlations qsqrt df max_lag h
                  = (inr (length h), h ++ [[]])).
  { rewrite (compute_lagged_correlations_run h df f price trend max_lag
               Hf Hp Ht Hlen).
    unfold scan_lags, py_range.
    replace (Z.to_nat (max_lag + 1 - - max_lag)) with 0 by lia. reflexivity. }
  split; [exact Hscan|].
  unfold bind at 1. rewrite Hscan. unfold find_best_leading_lag.
  rewrite <- (Nat.add_0_r (length h)).
  now apply (run_getitem_missing h [[]] 0 []).
Qed.

(** X11.  A table without a price column, or without an indicator column,
    is a KeyError for the scan and for the backtest. *)
Theorem alternative_data_missing_column h df f max_lag L thr w :
  nth_error h df = Some f ->
  get_col "price" f = None \/ get_col "trend" f = None ->
  (exists h', compute_lagged_correlations qsqrt df max_lag h = (inl KeyError, h')) /\
  (exists h', backtest_trend_signal qsqrt df L thr w h = (inl KeyError, h')).
Proof.
  intros Hf Hmiss. split.
  - unfold compute_lagged_correlations, getitem.
    destruct (get_col "price" f) as [p|] eqn:Hp.
    + destruct Hmiss as [Hx|Hx]; [discriminate|].
      eexists. unfold bind, deref, lift_opt. rewrite Hf, Hp. cbn.
      rewrite Hf, Hx. reflexivity.
    + eexists. unfold bind, deref, lift_opt. rewrite Hf, Hp. reflexivity.
  - unfold backtest_trend_signal.
    rewrite (run_df_copy_old h df f _ Hf).
    destruct (get_col "price" f) as [p|] eqn:Hp.
    + destruct Hmiss as [Hx|Hx]; [discriminate|].
      do 3 mstep. eexists.
      erewrite run_getitem_missing;
        [reflexivity | reflexivity | now rewrite get_col_set_col_ne].
    + eexists. now apply (run_getitem_missing h [f] 0 f).
Qed.

(** X12.  The search of the best leading lag changes no table: whatever the
    heap and the reference, every table is after the call what it was
    before. *)
Theorem find_best_leading_lag_reads_only (h : heap) (df l : loc) (f : frame) :
  nth_error h l = Some f ->
  nth_error (snd (find_best_leading_lag df h)) l = Some f.
Proof.
  intros Hl.
  destruct (find_best_leading_lag_safe h h df) as ([l2 Hext] & _ & _).
  { exists []. now rewrite app_nil_r. }
  rewrite Hext, nth_error_app1; [assumption|].
  apply nth_error_Some. congruence.
Qed.
(** ** Scan, best lag, backtest *)

Lemma bt_table_rows L thr w ds price trend :
  forallb good_price price = true -> (0 <= L)%Z -> length ds = length price ->
  nrows (bt_table L thr w ds price trend) = length price - Z.to_nat L.
Proof.
  intros Hg HL Hd. cbn [bt_table nrows].
  rewrite bt_keep_prefix by assumption.
  rewrite mask_filter_first by assumption. rewrite length_firstn. lia.
Qed.

(** X13.  The chain of the dashboard: scan, search of the best leading
    lag, and backtest at the reported lag.  On an aligned, dated table
    with finite non-zero prices, for [max_lag >= 0] and a rolling window
    [>= 0], the chain never fails; when a lag is reported the backtest
    uses it, it lies between 1 and [max_lag], and the backtest table has
    the [n - lag >= 5] rows that have a forward return. *)
Theorem scan_best_backtest h df f ds price trend max_lag thr w :
  nth_error h df = Some f -> wf_frame f ->
  get_col "ds" f = Some ds ->
  get_col "price" f = Some price -> get_col "trend" f = Some trend ->
  forallb good_price price = true ->
  (0 <= max_lag)%Z -> (0 <= w)%Z ->
  exists res h',
    (corr_df <- compute_lagged_correlations qsqrt df max_lag ;;
     best <- find_best_leading_lag corr_df ;;
     match best with
     | None => ret None
     | Some b =>
         r <- backtest_trend_signal qsqrt df (lag b) thr w ;;
         ret (Some (b, r))
     end) h = (inr res, h') /\
    (length price <= 5 -> res = None) /\
    forall b out m, res = Some (b, (out, m)) ->
      (1 <= lag b <= max_lag)%Z /\
      lag_used m = lag b /\
      exists table,
        nth_error h' out = Some table /\
        nrows table = length price - Z.to_nat (lag b) /\
        5 <= nrows table.
Proof.
  intros Hf Hwf Hds Hp Ht Hg Hm Hw.
  pose proof (scan_table h df f price trend max_lag Hf Hwf Hp Ht Hm) as Hscan.
  destruct (best_after_scan h price trend max_lag Hm)
    as (r & l2 & Hbest & Hsome & Hnone).
  cbv zeta in Hbest.
  set (T := [("lag"%string, map of_Z (scan_lags max_lag));
             ("correlation"%string,
              map (fun lag => lag_correlation lag price trend)
                  (scan_lags max_lag))]) in *.
  rewrite (bind_run _ _ _ _ _ Hscan), (bind_run _ _ _ _ _ Hbest).
  destruct r as [b|].
  - destruct (Hsome b eq_refl) as (Hb1 & Hb5 & _ & _).
    assert (Hf2 : nth_error ((h ++ [T]) ++ l2) df = Some f).
    { assert (df < length h) by (apply nth_error_Some; congruence).
      rewrite <- app_assoc, nth_error_app1; assumption. }
    assert (Hdl : length ds = length price).
    { rewrite (get_col_wf _ _ _ Hwf Hp), (get_col_wf _ _ _ Hwf Hds). reflexivity. }
    destruct (backtest_returns ((h ++ [T]) ++ l2) df f ds price trend (lag b)
                thr w Hf2 Hwf Hds Hp Ht Hg Hw ltac:(lia))
      as (m & l3 & Hl3 & Hrun & Hsum).
    rewrite (bind_run _ _ _ _ _ Hrun).
    eexists. eexists. split; [reflexivity|].
    split; [intros Hshort; lia|].
    intros b' out m' [= <- <- <-].
    split; [exact Hb1|].
    split; [apply bt_summary_inv in Hsum as (? & ? & ? & ? & _ & _ & _ & _ & Hl);
            exact Hl|].
    exists (bt_table (lag b) thr w ds price trend).
    split; [now apply nth_error_last_of|].
    rewrite bt_table_rows by (assumption || lia). split; [reflexivity | lia].
  - eexists. eexists. split; [reflexivity|]. split; [reflexivity|].
    discriminate.
Qed.
(** ** Volatility features: what the dropped rows leave, and the windows *)

Lemma features_frame_lengths ds y ws wl :
  length ds = length y ->
  Forall (fun c : column => length c = length y)
         (map snd (features_frame ds y ws wl)).
Proof.
  intros Hl. unfold features_frame. cbn [map snd].
  repeat constructor; unfold s_mul_scalar;
    rewrite ?length_map, ?roll_std_col_length, ?log_returns_length; auto.
Qed.

Lemma nrows_features_frame ds y ws wl :
  length ds = length y -> nrows (features_frame ds y ws wl) = length y.
Proof. intros Hl. exact Hl. Qed.

(** A cell that [dropna] keeps is defined. *)
Lemma filter_rows_notna n (f : frame) :
  Forall (fun c : column => length c = n) (map snd f) ->
  Forall (fun cv : string * column => forallb notna (snd cv) = true)
         (filter_rows (notna_mask n (map snd f)) f).
Proof.
  intros Hlen. apply Forall_forall. intros [c v] Hin.
  unfold filter_rows in Hin. apply in_map_iff in Hin as ([c' v'] & [= <- <-] & Hin).
  cbn [snd fst]. apply forallb_forall. intros x Hx.
  assert (Hv : length v' = n).
  { rewrite Forall_forall in Hlen. apply Hlen, in_map_iff.
    exists (c', v'). auto. }
  rewrite (mask_filter_kept NaN) in Hx
    by (rewrite notna_mask_length; auto).
  apply in_map_iff in Hx as (i & <- & Hi).
  apply kept_rows_In in Hi as [Hi Ht].
  rewrite notna_mask_length in Hi by assumption.
  rewrite nth_notna_mask in Ht by assumption.
  rewrite forallb_forall in Ht. apply Ht, in_map_iff. exists (c', v'). auto.
Qed.

(** X14.  Whatever the prices and for any two windows [>= 0], the feature
    table has the seven columns of the source in their order, and no cell
    of it is undefined. *)
Theorem compute_volatility_features_no_nan h loaded ds y ws wl :
  nth_error h loaded = Some [("ds"%string, ds); ("y"%string, y)] ->
  length ds = length y ->
  (0 <= ws)%Z -> (0 <= wl)%Z ->
  exists out h' table,
    compute_volatility_features qsqrt qlog loaded ws wl h = (inr out, h') /\
    nth_error h' out = Some table /\
    map fst table
    = ["ds"; "y"; "ret"; "vol_short"; "vol_long";
       "vol_short_ann"; "vol_long_ann"]%string /\
    Forall (fun cv : string * column => forallb notna (snd cv) = true) table.
Proof.
  intros Hf Hl Hws Hwl.
  pose proof (compute_volatility_features_run h loaded ds y ws wl Hf Hws Hwl)
    as Hrun.
  cbv zeta in Hrun.
  eexists. eexists. eexists. split; [exact Hrun|].
  split; [now rewrite nth_error_new|].
  split; [reflexivity|].
  rewrite (nrows_features_frame ds y ws wl Hl).
  apply filter_rows_notna, features_frame_lengths, Hl.
Qed.

(** A rolling standard deviation over a window of at most one row is
    undefined on every row. *)
Lemma roll_std_col_short w xs :
  (0 <= w <= 1)%Z -> Forall (fun x => x = NaN) (roll_std_col w xs).
Proof.
  intros Hw. apply Forall_forall. intros x Hx.
  destruct (In_nth _ _ NaN Hx) as (i & Hi & <-).
  rewrite roll_std_col_length in Hi. rewrite nth_roll_std_col by assumption.
  unfold roll_std_at.
  pose proof (window_at_length (Z.to_nat w) i xs) as Hwin.
  pose proof (filter_length_le isfinite (window_at (Z.to_nat w) i xs)) as Hobs.
  destruct (Nat.ltb_spec 1 (length (filter isfinite (window_at (Z.to_nat w) i xs))));
    [lia|].
  now rewrite andb_false_r.
Qed.

Lemma notna_mask_nan_col n cols v :
  Forall (fun c : column => length c = n) cols ->
  In v cols -> Forall (fun x => x = NaN) v ->
  Forall (fun b => b = false) (notna_mask n cols).
Proof.
  intros Hlen Hin Hnan. apply Forall_nth_false. intros i Hi.
  rewrite notna_mask_length in Hi by assumption.
  rewrite nth_notna_mask by assumption.
  apply not_true_is_false. intros Hall. rewrite forallb_forall in Hall.
  specialize (Hall v Hin).
  assert (Hv : length v = n) by (rewrite Forall_forall in Hlen; auto).
  rewrite Forall_forall in Hnan.
  rewrite (Hnan (nth i v NaN)) in Hall by (apply nth_In; lia).
  discriminate.
Qed.

(** X15.  With a window of 0 or 1 rows the rolling standard deviation is
    undefined everywhere, every row is dropped, and the feature table is
    returned without rows, whatever the prices. *)
Theorem compute_volatility_features_short_window h loaded ds y ws wl :
  nth_error h loaded = Some [("ds"%string, ds); ("y"%string, y)] ->
  length ds = length y ->
  (0 <= ws)%Z -> (0 <= wl)%Z ->
  (ws <= 1 \/ wl <= 1)%Z ->
  exists out h' table,
    compute_volatility_features qsqrt qlog loaded ws wl h = (inr out, h') /\
    nth_error h' out = Some table /\
    nrows table = 0 /\
    Forall (fun cv : string * column => snd cv = []) table.
Proof.
  intros Hf Hl Hws Hwl Hshort.
  pose proof (compute_volatility_features_run h loaded ds y ws wl Hf Hws Hwl)
    as Hrun.
  cbv zeta in Hrun.
  set (D := features_frame ds y ws wl) in *.
  assert (Hmask : Forall (fun b => b = false)
                         (notna_mask (nrows D) (map snd D))).
  { unfold D at 1. rewrite (nrows_features_frame ds y ws wl Hl).
    destruct Hshort as [Hs|Hs].
    - apply (notna_mask_nan_col _ _ (roll_std_col ws (log_returns y)));
        [apply features_frame_lengths, Hl | | apply roll_std_col_short; lia].
      unfold D, features_frame. cbn [map snd In]. auto 6.
    - apply (notna_mask_nan_col _ _ (roll_std_col wl (log_returns y)));
        [apply features_frame_lengths, Hl | | apply roll_std_col_short; lia].
      unfold D, features_frame. cbn [map snd In]. auto 6. }
  eexists. eexists. eexists. split; [exact Hrun|].
  split; [now rewrite nth_error_new|].
  pose proof (filter_rows_all_false _ D Hmask) as Hall.
  split; [|exact Hall].
  destruct (filter_rows _ D) as [|[c v] T']; [reflexivity|].
  inversion Hall as [|? ? Hv _]; subst. cbn in Hv |- *. now rewrite Hv.
Qed.

(** X16.  A negative window is refused by the feature computation with a
    ValueError, whichever of the two windows it is. *)
Theorem compute_volatility_features_negative_window h loaded ds y ws wl :
  nth_error h loaded = Some [("ds"%string, ds); ("y"%string, y)] ->
  (ws < 0 \/ wl < 0)%Z ->
  exists h', compute_volatility_features qsqrt qlog loaded ws wl h
             = (inl ValueError, h').
Proof.
  intros Hf Hneg. unfold compute_volatility_features.
  rewrite (run_df_copy_old h loaded _ _ Hf).
  do 6 mstep.
  destruct (Z.ltb_spec ws 0) as [Hs|Hs].
  - unfold rolling_std. rewrite (proj2 (Z.ltb_lt ws 0) Hs).
    eexists. now rewrite run_lift_res_err.
  - unfold rolling_std at 1. destruct (Z.ltb_spec ws 0); [lia|].
    do 3 mstep.
    unfold rolling_std. rewrite (proj2 (Z.ltb_lt wl 0)) by lia.
    eexists. now rewrite run_lift_res_err.
Qed.
(** ** The naive forecast on valid rows *)

(** The valid rows of the naive evaluation. *)
Lemma naive_vol_forecast_run h df f r v horizon :
  nth_error h df = Some f -> wf_frame f ->
  get_col "ret" f = Some r -> get_col "vol_long_ann" f = Some v ->
  let F := set_col "forecast_vol" v
             (set_col "realized_vol_next" (realized_vol_next horizon r) f) in
  let mask := naive_mask horizon r v in
  let P := filter_rows mask F in
  let a := mask_filter mask (realized_vol_next horizon r) in
  let fc := mask_filter mask v in
  naive_vol_forecast qsqrt df horizon h
  = if frame_empty P
    then (inr (length h + 2, {| MAE := NaN; RMSE := NaN |}), h ++ [F; P; P])
    else
      match mean_absolute_error a fc, mean_squared_error a fc with
      | inr mae, inr mse =>
          match get_col "ds" f with
          | Some ds =>
              (inr (length h + 3, {| MAE := mae; RMSE := np_sqrt qsqrt mse |}),
               h ++ [F; P; P;
                     [("ds"%string, mask_filter mask ds);
                      ("realized_vol_next"%string, a);
                      ("forecast_vol"%string, fc)]])
          | None => (inl KeyError, h ++ [F; P; P])
          end
      | inl e, _ => (inl e, h ++ [F; P; P])
      | _, inl e => (inl e, h ++ [F; P; P])
      end.
Proof.
  intros Hf Hwf Hr Hv F mask P a fc.
  assert (Hlr : length r = nrows f) by (eapply get_col_wf; eauto).
  assert (Hlv : length v = nrows f) by (eapply get_col_wf; eauto).
  assert (Hne : f <> []) by (eapply get_col_not_nil; eauto).
  unfold naive_vol_forecast.
  rewrite (run_df_copy_old h df f _ Hf).
  do 4 mstep. fold (realized_vol_next horizon r). fold F.
  erewrite run_dropna_subset;
    [ | reflexivity
      | unfold F; cbn [get_cols]; rewrite get_col_set_col_ne by reflexivity;
        rewrite !get_col_set_col_eq; reflexivity ].
  norm_heap.
  assert (HnF : nrows F = nrows f).
  { unfold F.
    repeat (apply nrows_set_col_n;
            [first [apply set_col_not_nil | assumption] | | ]);
      rewrite ?realized_vol_next_length; congruence. }
  rewrite notna_mask_two
    by (rewrite ?realized_vol_next_length, HnF; congruence).
  fold (naive_mask horizon r v). fold mask. fold P.
  unfold reset_index. mstep. mstep.
  destruct (frame_empty P) eqn:Ee; [reflexivity|].
  assert (Ga : get_col "realized_vol_next" P = Some a).
  { unfold P, F. rewrite get_col_filter_rows.
    rewrite get_col_set_col_ne by reflexivity.
    now rewrite get_col_set_col_eq. }
  assert (Gf : get_col "forecast_vol" P = Some fc).
  { unfold P, F. rewrite get_col_filter_rows.
    now rewrite get_col_set_col_eq. }
  erewrite run_getitem; [ | reflexivity | exact Ga ].
  erewrite run_getitem; [ | reflexivity | exact Gf ].
  destruct (mean_absolute_error a fc) as [e|mae];
    [now rewrite run_lift_res_err|].
  mstep.
  erewrite run_getitem; [ | reflexivity | exact Ga ].
  erewrite run_getitem; [ | reflexivity | exact Gf ].
  destruct (mean_squared_error a fc) as [e|mse];
    [now rewrite run_lift_res_err|].
  mstep.
  destruct (get_col "ds" f) as [ds|] eqn:Hds.
  - erewrite run_getitems;
      [ | reflexivity
        | cbn [select_cols]; rewrite Ga, Gf; unfold P, F;
          rewrite get_col_filter_rows;
          rewrite !get_col_set_col_ne by reflexivity;
          rewrite Hds; reflexivity ].
    norm_heap. reflexivity.
  - erewrite run_getitems_missing;
      [ reflexivity | reflexivity
        | cbn [select_cols]; unfold P, F;
          rewrite get_col_filter_rows;
          rewrite !get_col_set_col_ne by reflexivity;
          rewrite Hds; reflexivity ].
Qed.
Lemma naive_mask_length horizon r v :
  length r = length v -> length (naive_mask horizon r v) = length r.
Proof.
  intros Hl. unfold naive_mask.
  rewrite zip_with_length, !length_map, realized_vol_next_length. lia.
Qed.

Lemma nth_naive_mask horizon r v t :
  length r = length v -> t < length r ->
  nth t (naive_mask horizon r v) false
  = notna (nth t (realized_vol_next horizon r) NaN) && notna (nth t v NaN).
Proof.
  intros Hl Ht. unfold naive_mask.
  rewrite (nth_zip_with _ _ _ _ false false)
    by (rewrite length_map, ?realized_vol_next_length; lia).
  rewrite (nth_map_in _ _ _ NaN) by (rewrite realized_vol_next_length; lia).
  now rewrite (nth_map_in _ _ _ NaN) by lia.
Qed.

Lemma naive_frame_wf f r v horizon :
  wf_frame f -> get_col "ret" f = Some r -> get_col "vol_long_ann" f = Some v ->
  let F := set_col "forecast_vol" v
             (set_col "realized_vol_next" (realized_vol_next horizon r) f) in
  wf_frame F /\ nrows F = nrows f /\ F <> [].
Proof.
  intros Hwf Hr Hv F.
  assert (Hlr : length r = nrows f) by (eapply get_col_wf; eauto).
  assert (Hlv : length v = nrows f) by (eapply get_col_wf; eauto).
  assert (Hne : f <> []) by (eapply get_col_not_nil; eauto).
  unfold F. apply set_col_wf_n; [|assumption].
  apply set_col_wf_n; [auto|]. now rewrite realized_vol_next_length.
Qed.

(** The number of valid rows. *)
Lemma naive_valid_rows f r v horizon :
  wf_frame f -> get_col "ret" f = Some r -> get_col "vol_long_ann" f = Some v ->
  let F := set_col "forecast_vol" v
             (set_col "realized_vol_next" (realized_vol_next horizon r) f) in
  nrows (filter_rows (naive_mask horizon r v) F)
  = length (kept_rows (naive_mask horizon r v)).
Proof.
  intros Hwf Hr Hv F.
  assert (Hlr : length r = nrows f) by (eapply get_col_wf; eauto).
  assert (Hlv : length v = nrows f) by (eapply get_col_wf; eauto).
  destruct (naive_frame_wf f r v horizon Hwf Hr Hv) as (HwF & _ & _).
  fold F in HwF.
  rewrite (nrows_filter_rows _ F "forecast_vol" v HwF)
    by (unfold F; now rewrite get_col_set_col_eq).
  rewrite (mask_filter_kept NaN)
    by (rewrite naive_mask_length; congruence).
  now rewrite length_map.
Qed.

Lemma frame_empty_rows f : f <> [] -> frame_empty f = (nrows f =? 0).
Proof. destruct f; [congruence | reflexivity]. Qed.

Lemma filter_rows_not_nil_of mask f : f <> [] -> filter_rows mask f <> [].
Proof. destruct f; [congruence | discriminate]. Qed.

(** X17.  When some row has both a realized target and a forecast, and the
    values on those rows are finite, the naive evaluation returns the
    three columns [ds], [realized_vol_next], [forecast_vol] on exactly
    those rows, in their original order, with the mean absolute error and
    the root of the mean squared error of the two value columns. *)
Theorem naive_vol_forecast_valid_rows h df f ds r v horizon :
  nth_error h df = Some f -> wf_frame f ->
  get_col "ds" f = Some ds ->
  get_col "ret" f = Some r -> get_col "vol_long_ann" f = Some v ->
  let target := fun t => nth t (realized_vol_next horizon r) NaN in
  let kept := kept_rows (naive_mask horizon r v) in
  kept <> [] ->
  (forall t, In t kept ->
     isfinite (target t) = true /\ isfinite (nth t v NaN) = true) ->
  exists out metrics h' a fc,
    naive_vol_forecast qsqrt df horizon h = (inr (out, metrics), h') /\
    nth_error h' out
    = Some [("ds"%string, map (fun t => nth t ds NaN) kept);
            ("realized_vol_next"%string, a);
            ("forecast_vol"%string, fc)] /\
    a = map target kept /\
    fc = map (fun t => nth t v NaN) kept /\
    StronglySorted lt kept /\
    (forall t, In t kept <->
       t < nrows f /\ notna (target t) = true /\ notna (nth t v NaN) = true) /\
    mean_absolute_error a fc = inr (MAE metrics) /\
    exists mse, mean_squared_error a fc = inr mse /\
                RMSE metrics = np_sqrt qsqrt mse.
Proof.
  intros Hf Hwf Hds Hr Hv target kept Hne Hfin.
  assert (Hlr : length r = nrows f) by (eapply get_col_wf; eauto).
  assert (Hlv : length v = nrows f) by (eapply get_col_wf; eauto).
  assert (Hld : length ds = nrows f) by (eapply get_col_wf; eauto).
  assert (Hml : length (naive_mask horizon r v) = nrows f)
    by (rewrite naive_mask_length; congruence).
  pose proof (naive_vol_forecast_run h df f r v horizon Hf Hwf Hr Hv) as Hrun.
  cbv zeta in Hrun.
  destruct (naive_frame_wf f r v horizon Hwf Hr Hv) as (_ & _ & HFne).
  rewrite frame_empty_rows in Hrun by now apply filter_rows_not_nil_of.
  rewrite (naive_valid_rows f r v horizon Hwf Hr Hv) in Hrun.
  fold kept in Hrun.
  destruct (Nat.eqb_spec (length kept) 0) as [E|E].
  { destruct kept; [congruence | discriminate]. }
  rewrite Hds in Hrun.
  rewrite !(mask_filter_kept NaN) in Hrun
    by (rewrite ?realized_vol_next_length; congruence).
  fold kept in Hrun.
  set (a := map (fun i => nth i (realized_vol_next horizon r) NaN) kept) in *.
  set (fc := map (fun i => nth i v NaN) kept) in *.
  assert (Hchk : check_targets a fc = true).
  { unfold check_targets, a, fc. rewrite !length_map, Nat.eqb_refl.
    destruct (Nat.eqb_spec (length kept) 0); [contradiction|]. cbn [negb andb].
    apply andb_true_intro. split; apply forallb_forall; intros x Hx;
      apply in_map_iff in Hx as (t & <- & Ht); now apply Hfin. }
  unfold mean_absolute_error, mean_squared_error in Hrun.
  rewrite Hchk in Hrun.
  eexists. eexists. eexists. exists a, fc.
  split; [exact Hrun|].
  split; [rewrite nth_error_new; reflexivity|].
  split; [reflexivity|]. split; [reflexivity|].
  split; [apply kept_rows_sorted|].
  split.
  { intros t. unfold kept. rewrite kept_rows_In, Hml. split.
    - intros [Ht Hm]. rewrite nth_naive_mask in Hm by lia.
      apply andb_prop in Hm as [H1 H2]. auto.
    - intros (Ht & H1 & H2). split; [assumption|].
      rewrite nth_naive_mask by lia. unfold target in H1. now rewrite H1, H2. }
  cbn [MAE RMSE]. unfold mean_absolute_error, mean_squared_error.
  rewrite Hchk. split; [reflexivity|]. eexists. split; reflexivity.
Qed.

(** X18.  A valid row that holds an infinite target or forecast makes the
    naive evaluation fail with the ValueError of the error metrics. *)
Theorem naive_vol_forecast_infinite_value h df f r v horizon t :
  nth_error h df = Some f -> wf_frame f ->
  get_col "ret" f = Some r -> get_col "vol_long_ann" f = Some v ->
  In t (kept_rows (naive_mask horizon r v)) ->
  isfinite (nth t (realized_vol_next horizon r) NaN) = false \/
  isfinite (nth t v NaN) = false ->
  exists h', naive_vol_forecast qsqrt df horizon h = (inl ValueError, h').
Proof.
  intros Hf Hwf Hr Hv Ht Hinf.
  assert (Hlr : length r = nrows f) by (eapply get_col_wf; eauto).
  assert (Hlv : length v = nrows f) by (eapply get_col_wf; eauto).
  assert (Hml : length (naive_mask horizon r v) = nrows f)
    by (rewrite naive_mask_length; congruence).
  pose proof (naive_vol_forecast_run h df f r v horizon Hf Hwf Hr Hv) as Hrun.
  cbv zeta in Hrun.
  destruct (naive_frame_wf f r v horizon Hwf Hr Hv) as (_ & _ & HFne).
  rewrite frame_empty_rows in Hrun by now apply filter_rows_not_nil_of.
  rewrite (naive_valid_rows f r v horizon Hwf Hr Hv) in Hrun.
  set (kept := kept_rows (naive_mask horizon r v)) in *.
  destruct (Nat.eqb_spec (length kept) 0) as [E|E].
  { destruct kept; [contradiction | discriminate]. }
  rewrite !(mask_filter_kept NaN) in Hrun
    by (rewrite ?realized_vol_next_length; congruence).
  fold kept in Hrun.
  set (a := map (fun i => nth i (realized_vol_next horizon r) NaN) kept) in *.
  set (fc := map (fun i => nth i v NaN) kept) in *.
  assert (Hchk : check_targets a fc = false).
  { unfold check_targets. apply not_true_is_false. intros Hc.
    apply andb_prop in Hc as [Hc Hfc]. apply andb_prop in Hc as [_ Ha].
    rewrite forallb_forall in Ha, Hfc.
    destruct Hinf as [Hi|Hi].
    - rewrite Ha in Hi; [discriminate|]. unfold a. apply in_map_iff. eauto.
    - rewrite Hfc in Hi; [discriminate|]. unfold fc. apply in_map_iff. eauto. }
  unfold mean_absolute_error in Hrun. rewrite Hchk in Hrun.
  eexists. exact Hrun.
Qed.
Lemma forallb_isfinite_nth xs i :
  forallb isfinite xs = true -> i < length xs ->
  exists q, nth i xs NaN = Fin q.
Proof.
  intros H Hi. rewrite forallb_forall in H.
  specialize (H _ (nth_In xs NaN Hi)).
  destruct (nth i xs NaN); try discriminate. eauto.
Qed.

(** On finite returns and forecasts the valid rows are the rows that have
    a row [horizon] steps ahead. *)
Lemma naive_mask_clean horizon r v :
  length r = length v ->
  forallb isfinite r = true -> forallb isfinite v = true ->
  (0 <= horizon)%Z ->
  naive_mask horizon r v
  = map (fun t => t <? length r - Z.to_nat horizon) (seq 0 (length r)).
Proof.
  intros Hl Hr Hv Hh. apply (nth_ext _ _ false false).
  - now rewrite naive_mask_length, length_map, length_seq.
  - intros t Ht. rewrite naive_mask_length in Ht by assumption.
    rewrite nth_naive_mask by assumption.
    rewrite (nth_map_in _ _ _ 0) by (rewrite length_seq; lia).
    rewrite seq_nth by lia. cbn [Nat.add].
    rewrite nth_realized_vol_next by assumption.
    destruct (forallb_isfinite_nth v t Hv ltac:(lia)) as [qv ->].
    cbn [notna isnan negb]. rewrite andb_true_r.
    destruct (Nat.ltb_spec t (length r - Z.to_nat horizon)) as [Hin|Hout].
    + destruct (Z.leb_spec 0 (Z.of_nat t + horizon)); [|lia].
      destruct (Z.ltb_spec (Z.of_nat t + horizon) (Z.of_nat (length r))); [|lia].
      cbn [andb].
      destruct (forallb_isfinite_nth r (Z.to_nat (Z.of_nat t + horizon)) Hr
                  ltac:(lia)) as [qr ->].
      reflexivity.
    + destruct (Z.ltb_spec (Z.of_nat t + horizon) (Z.of_nat (length r))); [lia|].
      now rewrite andb_false_r.
Qed.

Lemma forallb_firstn {A} (p : A -> bool) n l :
  forallb p l = true -> forallb p (firstn n l) = true.
Proof.
  revert n; induction l as [|x l IH]; intros [|n] H; simpl in *; auto.
  apply andb_prop in H as [Hx Hl]. now rewrite Hx, IH.
Qed.

Lemma forallb_skipn {A} (p : A -> bool) n l :
  forallb p l = true -> forallb p (skipn n l) = true.
Proof.
  revert n; induction l as [|x l IH]; intros [|n] H; simpl in *; auto.
  apply andb_prop in H as [Hx Hl]. now apply IH.
Qed.

Lemma realized_vol_next_finite horizon r n :
  forallb isfinite r = true -> (0 <= horizon)%Z ->
  n <= length r - Z.to_nat horizon ->
  forallb isfinite (firstn n (realized_vol_next horizon r)) = true.
Proof.
  intros Hr Hh Hn. apply forallb_forall. intros x Hx.
  destruct (In_nth _ _ NaN Hx) as (i & Hi & <-).
  rewrite length_firstn, realized_vol_next_length in Hi.
  rewrite nth_firstn. destruct (Nat.ltb_spec i n); [|lia].
  rewrite nth_realized_vol_next by lia.
  destruct (Z.leb_spec 0 (Z.of_nat i + horizon)); [|lia].
  destruct (Z.ltb_spec (Z.of_nat i + horizon) (Z.of_nat (length r))); [|lia].
  cbn [andb].
  destruct (forallb_isfinite_nth r (Z.to_nat (Z.of_nat i + horizon)) Hr
              ltac:(lia)) as [q ->].
  reflexivity.
Qed.

Lemma zip_with_fsub_finite xs ys :
  forallb isfinite xs = true -> forallb isfinite ys = true ->
  forallb isfinite (zip_with fsub xs ys) = true.
Proof.
  revert ys; induction xs as [|x xs IH]; intros [|y ys] Hx Hy; simpl in *; auto.
  apply andb_prop in Hx as [Hx Hxs]. apply andb_prop in Hy as [Hy Hys].
  rewrite IH by assumption.
  destruct x, y; try discriminate. reflexivity.
Qed.

Lemma mean_absolute_error_finite a fc :
  length a = length fc -> a <> [] ->
  forallb isfinite a = true -> forallb isfinite fc = true ->
  exists q, mean_absolute_error a fc = inr (Fin q).
Proof.
  intros Hl Hne Ha Hfc. unfold mean_absolute_error, check_targets.
  rewrite Hl, Nat.eqb_refl, Ha, Hfc.
  destruct (Nat.eqb_spec (length fc) 0) as [E|E].
  { destruct a; [congruence | simpl in Hl; lia]. }
  cbn [negb andb].
  destruct (all_finite_map _ (zip_with_fsub_finite fc a Hfc Ha)) as [ds ->].
  rewrite map_map. cbn [fabs]. rewrite <- (map_map Qabs Fin), fsum_Fin.
  unfold of_nat, of_Z. cbn [fdiv].
  rewrite Qeq_bool_false; [eauto|].
  unfold Qeq. simpl. lia.
Qed.

Lemma mean_squared_error_finite a fc :
  length a = length fc -> a <> [] ->
  forallb isfinite a = true -> forallb isfinite fc = true ->
  exists q, mean_squared_error a fc = inr (Fin q) /\ (0 <= q)%Q.
Proof.
  intros Hl Hne Ha Hfc. unfold mean_squared_error, check_targets.
  rewrite Hl, Nat.eqb_refl, Ha, Hfc.
  destruct (Nat.eqb_spec (length fc) 0) as [E|E].
  { destruct a; [congruence | simpl in Hl; lia]. }
  cbn [negb andb].
  destruct (all_finite_map _ (zip_with_fsub_finite a fc Ha Hfc)) as [ds ->].
  rewrite map_map. cbn [fmul].
  rewrite <- (map_map (fun q => q * q)%Q Fin), fsum_Fin.
  unfold of_nat, of_Z. cbn [fdiv].
  rewrite Qeq_bool_false by (unfold Qeq; simpl; lia).
  eexists. split; [reflexivity|].
  apply Qle_shift_div_l.
  - unfold Qlt. simpl. lia.
  - rewrite Qmult_0_l. unfold Qsum.
    apply (fold_Qplus_ge (fun q => q * q)%Q). apply Qsquare_nonneg.
Qed.

(** The naive evaluation of a table of finite values. *)
Lemma naive_clean h df f ds r v horizon :
  nth_error h df = Some f -> wf_frame f ->
  get_col "ds" f = Some ds ->
  get_col "ret" f = Some r -> get_col "vol_long_ann" f = Some v ->
  forallb isfinite r = true -> forallb isfinite v = true ->
  (0 <= horizon)%Z ->
  exists out metrics h' table,
    naive_vol_forecast qsqrt df horizon h = (inr (out, metrics), h') /\
    nth_error h' out = Some table /\
    nrows table = nrows f - Z.to_nat horizon /\
    get_col "ds" table = Some (firstn (nrows f - Z.to_nat horizon) ds) /\
    (nrows f <= Z.to_nat horizon -> MAE metrics = NaN /\ RMSE metrics = NaN) /\
    (Z.to_nat horizon < nrows f ->
     isfinite (MAE metrics) = true /\ isfinite (RMSE metrics) = true).
Proof.
  intros Hf Hwf Hds Hr Hv Hrf Hvf Hh.
  assert (Hlr : length r = nrows f) by (eapply get_col_wf; eauto).
  assert (Hlv : length v = nrows f) by (eapply get_col_wf; eauto).
  assert (Hld : length ds = nrows f) by (eapply get_col_wf; eauto).
  pose proof (naive_vol_forecast_run h df f r v horizon Hf Hwf Hr Hv) as Hrun.
  cbv zeta in Hrun.
  destruct (naive_frame_wf f r v horizon Hwf Hr Hv) as (HwF & HnF & HFne).
  rewrite frame_empty_rows in Hrun by now apply filter_rows_not_nil_of.
  rewrite (nrows_filter_rows _ _ "forecast_vol" v HwF) in Hrun
    by now rewrite get_col_set_col_eq.
  rewrite naive_mask_clean in Hrun by (assumption || congruence).
  rewrite Hlr in Hrun.
  remember (nrows f - Z.to_nat horizon) as k eqn:Ek.
  rewrite !mask_filter_first in Hrun
    by (rewrite ?realized_vol_next_length; congruence).
  rewrite Hds in Hrun. rewrite mask_filter_first in Hrun by assumption.
  rewrite length_firstn, Hlv in Hrun.
  set (F := set_col "forecast_vol" v
              (set_col "realized_vol_next" (realized_vol_next horizon r) f)) in *.
  set (mask := map (fun t => t <? k) (seq 0 (nrows f))) in *.
  destruct (Nat.eqb_spec (Nat.min k (nrows f)) 0) as [E|E].
  - exists (length h + 2), {| MAE := NaN; RMSE := NaN |},
      (h ++ [F; filter_rows mask F; filter_rows mask F]), (filter_rows mask F).
    split; [exact Hrun|]. split; [now rewrite nth_error_new|].
    split.
    { rewrite (nrows_filter_rows _ _ "forecast_vol" v HwF)
        by (unfold F; now rewrite get_col_set_col_eq).
      unfold mask. rewrite mask_filter_first by assumption.
      rewrite length_firstn. lia. }
    split.
    { rewrite get_col_filter_rows. unfold F.
      rewrite !get_col_set_col_ne by reflexivity. rewrite Hds. cbn [option_map].
      unfold mask. now rewrite mask_filter_first by assumption. }
    split; [auto | lia].
  - set (a := firstn k (realized_vol_next horizon r)) in *.
    set (fc := firstn k v) in *.
    assert (Hla : length a = length fc).
    { unfold a, fc. rewrite !length_firstn, realized_vol_next_length. lia. }
    assert (Hane : a <> []).
    { intros Ea. apply (f_equal (@length f64)) in Ea. unfold a in Ea.
      rewrite length_firstn, realized_vol_next_length in Ea. simpl in Ea. lia. }
    assert (Haf : forallb isfinite a = true)
      by (apply realized_vol_next_finite; (assumption || lia)).
    assert (Hff : forallb isfinite fc = true) by now apply forallb_firstn.
    destruct (mean_absolute_error_finite a fc Hla Hane Haf Hff) as [qa Hmae].
    destruct (mean_squared_error_finite a fc Hla Hane Haf Hff)
      as (qs & Hmse & Hqs).
    rewrite Hmae, Hmse in Hrun.
    eexists. eexists. eexists. eexists.
    split; [exact Hrun|]. split; [now rewrite nth_error_new|].
    split; [cbn [nrows]; rewrite length_firstn; lia|].
    split; [reflexivity|].
    split; [lia|]. intros _. cbn [MAE RMSE np_sqrt isfinite].
    split; [reflexivity|].
    unfold Qltb. replace (Qle_bool 0 qs) with true; [reflexivity|].
    symmetry. now apply Qle_bool_iff.
Qed.

(** X19.  On a feature table of [n] rows whose returns and long-window
    volatilities are all finite, the naive evaluation never fails, for any
    horizon [>= 0]: it returns the first [n - horizon] rows; the errors
    are defined (not NaN) when a row remains and NaN when none does. *)
Theorem naive_vol_forecast_clean h df f ds r v horizon :
  nth_error h df = Some f -> wf_frame f ->
  get_col "ds" f = Some ds ->
  get_col "ret" f = Some r -> get_col "vol_long_ann" f = Some v ->
  forallb isfinite r = true -> forallb isfinite v = true ->
  (0 <= horizon)%Z ->
  exists out metrics h' table,
    naive_vol_forecast qsqrt df horizon h = (inr (out, metrics), h') /\
    nth_error h' out = Some table /\
    nrows table = nrows f - Z.to_nat horizon /\
    get_col "ds" table = Some (firstn (nrows f - Z.to_nat horizon) ds) /\
    (nrows f <= Z.to_nat horizon -> MAE metrics = NaN /\ RMSE metrics = NaN) /\
    (Z.to_nat horizon < nrows f ->
     isnan (MAE metrics) = false /\ isnan (RMSE metrics) = false).
Proof.
  intros Hf Hwf Hds Hr Hv Hrf Hvf Hh.
  destruct (naive_clean h df f ds r v horizon Hf Hwf Hds Hr Hv Hrf Hvf Hh)
    as (out & metrics & h' & table & Hrun & Hout & Hrows & Hcol & Hnan & Hfin).
  exists out, metrics, h', table.
  repeat (split; [assumption|]).
  intros Hk. destruct (Hfin Hk) as [Ha Hb].
  destruct (MAE metrics), (RMSE metrics); try discriminate; auto.
Qed.
(** ** Features, then the naive evaluation *)

(** The feature table of clean prices: every column of the frame without
    its first [max(ws, wl) - 1] rows. *)
Lemma features_table h loaded ds y ws wl :
  nth_error h loaded = Some [("ds"%string, ds); ("y"%string, y)] ->
  length ds = length y ->
  forallb notna ds = true -> forallb pos_price y = true ->
  (2 <= ws)%Z -> (2 <= wl)%Z ->
  let m := Z.to_nat (Z.max ws wl - 1) in
  let D := features_frame ds y ws wl in
  let T := map (fun cv => (fst cv, skipn m (snd cv))) D in
  compute_volatility_features qsqrt qlog loaded ws wl h
  = (inr (length h + 2), h ++ [D; T; T]).
Proof.
  intros Hf Hl Hds Hy Hws Hwl m D T.
  pose proof (compute_volatility_features_run h loaded ds y ws wl Hf
                ltac:(lia) ltac:(lia)) as Hrun.
  cbv zeta in Hrun. fold D in Hrun.
  pose proof (features_keep_mask ds y ws wl Hl Hds Hy Hws Hwl) as Hmask.
  cbv zeta in Hmask. fold D in Hmask. fold m in Hmask.
  rewrite Hmask in Hrun.
  replace (filter_rows (map (fun i => m <=? i) (seq 0 (length y))) D)
    with T in Hrun; [exact Hrun|].
  unfold T, filter_rows, D, features_frame. cbn [map fst snd].
  unfold s_mul_scalar.
  rewrite !mask_filter_threshold
    by (rewrite ?length_map, ?roll_std_col_length, ?log_returns_length; auto).
  reflexivity.
Qed.

Lemma vol_ann_finite w y m :
  forallb pos_price y = true -> (2 <= w)%Z -> Z.to_nat w - 1 <= m ->
  forallb isfinite
    (skipn m (s_mul_scalar (roll_std_col w (log_returns y)) ann_factor)) = true.
Proof.
  intros Hy Hw Hm. apply forallb_forall. intros x Hx.
  destruct (In_nth _ _ NaN Hx) as (i & Hi & <-).
  unfold s_mul_scalar in *.
  rewrite length_skipn, length_map, roll_std_col_length, log_returns_length in Hi.
  rewrite nth_skipn.
  rewrite (nth_map_in _ _ _ NaN)
    by (rewrite roll_std_col_length, log_returns_length; lia).
  destruct (roll_std_col_cases w (log_returns y) (m + i)
              (log_returns_finite y Hy) Hw
              ltac:(rewrite log_returns_length; lia)) as [[Hlt _]|[_ [q ->]]];
    [lia|].
  destruct ann_factor_finite as [a ->]. reflexivity.
Qed.

(** X20.  Features, then the naive evaluation: for dated prices between
    [2^-500] and [2^500], windows of at least 2 rows and a horizon [>= 0]
    the two calls in sequence never fail; of the
    [k = n - (max(ws, wl) - 1)] feature rows the evaluation keeps the first
    [k - horizon]; its errors are finite numbers when a row remains and NaN
    when none does. *)
Theorem features_then_naive h loaded ds y ws wl horizon :
  nth_error h loaded = Some [("ds"%string, ds); ("y"%string, y)] ->
  length ds = length y ->
  forallb notna ds = true -> forallb in_range y = true ->
  (2 <= ws)%Z -> (2 <= wl)%Z -> (0 <= horizon)%Z ->
  let k := length y - Z.to_nat (Z.max ws wl - 1) in
  exists out metrics h' table,
    (df <- compute_volatility_features qsqrt qlog loaded ws wl ;;
     naive_vol_forecast qsqrt df horizon) h = (inr (out, metrics), h') /\
    nth_error h' out = Some table /\
    nrows table = k - Z.to_nat horizon /\
    (k <= Z.to_nat horizon -> MAE metrics = NaN /\ RMSE metrics = NaN) /\
    (Z.to_nat horizon < k ->
     isfinite (MAE metrics) = true /\ isfinite (RMSE metrics) = true).
Proof.
  intros Hf Hl Hds Hrange Hws Hwl Hh k.
  pose proof (forallb_impl _ _ _ in_range_pos_price Hrange) as Hy.
  pose proof (features_table h loaded ds y ws wl Hf Hl Hds Hy Hws Hwl) as Hfeat.
  cbv zeta in Hfeat.
  set (m := Z.to_nat (Z.max ws wl - 1)) in *.
  set (D := features_frame ds y ws wl) in *.
  set (T := map (fun cv => (fst cv, skipn m (snd cv))) D) in *.
  assert (HT : nth_error (h ++ [D; T; T]) (length h + 2) = Some T)
    by now rewrite nth_error_new.
  assert (HnT : nrows T = k).
  { unfold T, D, features_frame. cbn [map fst snd nrows].
    rewrite length_skipn. unfold k. lia. }
  assert (HwT : wf_frame T).
  { unfold wf_frame. rewrite HnT. unfold T, D, features_frame.
    cbn [map fst snd]. unfold s_mul_scalar.
    repeat constructor; cbn [snd];
      rewrite length_skipn, ?length_map, ?roll_std_col_length,
        ?log_returns_length; unfold k; lia. }
  destruct (naive_clean (h ++ [D; T; T]) (length h + 2) T
              (skipn m ds) (skipn m (log_returns y))
              (skipn m (s_mul_scalar (roll_std_col wl (log_returns y)) ann_factor))
              horizon HT HwT eq_refl eq_refl eq_refl)
    as (out & metrics & h' & table & Hrun & Hout & Hrows & _ & Hnan & Hfin).
  - apply forallb_skipn, log_returns_finite, Hy.
  - apply vol_ann_finite; [assumption | lia | unfold m; lia].
  - exact Hh.
  - exists out, metrics, h', table.
    split; [unfold bind; rewrite Hfeat; exact Hrun|].
    split; [exact Hout|]. rewrite HnT in Hrows, Hnan, Hfin. auto.
Qed.
(** ** The learned evaluation without a test row, and missing columns *)

Lemma check_targets_nil_r y : check_targets y [] = false.
Proof.
  unfold check_targets. cbn [length].
  destruct (Nat.eqb_spec (length y) 0) as [E|E]; [|reflexivity].
  now rewrite andb_false_r.
Qed.

(** Without a test row the metrics are refused, when the earlier steps
    have not failed already. *)
Lemma xgb_eval_no_test X Y test_size :
  (forall split, py_int (fmul (of_nat (length X)) (fsub (Fin 1) test_size))
                 = inr split -> slice_from split X = []) ->
  exists e, xgb_eval X Y test_size = inl e.
Proof.
  intros Hno. unfold xgb_eval, xgb_eval_with.
  destruct (py_int _) as [e|split]; [eauto|].
  rewrite (Hno split eq_refl).
  destruct (xgb_fit _ _) as [e|model]; [eauto|].
  cbn [map]. unfold mean_absolute_error. rewrite check_targets_nil_r. eauto.
Qed.

Lemma py_int_all_rows n :
  py_int (fmul (of_nat n) (fsub (Fin 1) (Fin 0))) = inr (Z.of_nat n).
Proof.
  unfold of_nat, of_Z. cbn. now rewrite Z.mul_1_r, Z.quot_1_r.
Qed.

Lemma shift_all_nan k xs :
  length xs <= k -> Forall (fun x => x = NaN) (shift (Z.of_nat k) xs).
Proof.
  intros Hk. apply Forall_forall. intros x Hx.
  destruct (In_nth _ _ NaN Hx) as (i & Hi & <-). rewrite shift_length in Hi.
  apply nth_shift_before; lia.
Qed.

(** X21.  The learned evaluation never returns a result when it has no
    test row: for a table of at most 2 rows (no row has both lagged
    returns) and for a test fraction of 0. *)
Theorem xgboost_vol_forecast_no_test_row h df f r vs vl horizon test_size :
  nth_error h df = Some f -> wf_frame f ->
  get_col "ret" f = Some r ->
  get_col "vol_short_ann" f = Some vs -> get_col "vol_long_ann" f = Some vl ->
  nrows f <= 2 \/ test_size = Fin 0 ->
  exists e h',
    xgboost_vol_forecast qsqrt regressor xgb_fit xgb_predict df horizon test_size h
    = (inl e, h').
Proof.
  intros Hf Hwf Hr Hvs Hvl Hcase.
  destruct (xgboost_vol_forecast_run h df f r vs vl horizon test_size
              Hf Hr Hvs Hvl) as (l4 & _ & Hrun).
  cbv zeta in Hrun.
  set (X := frame_values (xgb_features f r vs vl horizon)) in *.
  set (Y := mask_filter (xgb_mask f r vs vl horizon)
                        (realized_vol_next horizon r)) in *.
  destruct (xgb_eval_no_test X Y test_size) as [e He].
  - intros split Hs. destruct Hcase as [Hsmall| ->].
    + assert (HX : X = []).
      { assert (Hlr : length r = nrows f) by (eapply get_col_wf; eauto).
        destruct (xgb_frame_wf f r vs vl horizon Hwf Hr Hvs Hvl)
          as (HwD & HnD & _).
        assert (Hmask : Forall (fun b => b = false) (xgb_mask f r vs vl horizon)).
        { unfold xgb_mask.
          apply (notna_mask_nan_col _ _ (shift 2 r)).
          - unfold wf_frame in HwD. apply Forall_forall. intros c Hc.
            apply in_map_iff in Hc as (cv & <- & Hcv).
            rewrite Forall_forall in HwD. now apply HwD.
          - apply (get_col_In "lag2_ret"). unfold xgb_frame.
            rewrite !get_col_set_col_ne by reflexivity.
            now rewrite get_col_set_col_eq.
          - apply (shift_all_nan 2). lia. }
        unfold X, frame_values, xgb_features. cbn [nrows].
        now rewrite mask_filter_all_false. }
      rewrite HX. unfold slice_from. now rewrite skipn_nil.
    + assert (Hsp : split = Z.of_nat (length X)).
      { rewrite py_int_all_rows in Hs. congruence. }
      rewrite Hsp, slice_from_nat by lia. apply skipn_all.
  - rewrite He in Hrun. eauto.
Qed.

(** X22.  A feature table without the return column or without the
    long-window volatility column is a KeyError for both evaluations. *)
Theorem volatility_missing_column h df f horizon test_size :
  nth_error h df = Some f ->
  get_col "ret" f = None \/ get_col "vol_long_ann" f = None ->
  (exists h', naive_vol_forecast qsqrt df horizon h = (inl KeyError, h')) /\
  (exists h',
     xgboost_vol_forecast qsqrt regressor xgb_fit xgb_predict df horizon test_size h
     = (inl KeyError, h')).
Proof.
  intros Hf Hmiss. split.
  - unfold naive_vol_forecast. rewrite (run_df_copy_old h df f _ Hf).
    destruct (get_col "ret" f) as [r|] eqn:Hr.
    + destruct Hmiss as [Hx|Hx]; [discriminate|].
      do 2 mstep. eexists.
      erewrite run_getitem_missing;
        [reflexivity | reflexivity | now rewrite get_col_set_col_ne].
    + eexists. now apply (run_getitem_missing h [f] 0 f).
  - unfold xgboost_vol_forecast, xgboost_vol_forecast_with.
    rewrite (run_df_copy_old h df f _ Hf).
    destruct (get_col "ret" f) as [r|] eqn:Hr.
    + destruct Hmiss as [Hx|Hx]; [discriminate|].
      do 6 mstep.
      destruct (get_col "vol_short_ann" f) as [vs|] eqn:Hvs.
      * do 2 mstep. eexists.
        erewrite run_getitem_missing;
          [reflexivity | reflexivity
           | now rewrite !get_col_set_col_ne by reflexivity].
      * eexists.
        erewrite run_getitem_missing;
          [reflexivity | reflexivity
           | now rewrite !get_col_set_col_ne by reflexivity].
    + eexists. now apply (run_getitem_missing h [f] 0 f).
Qed.

End Theory.

(* ------------------------------------------------------------------ *)
(** * The symbol map and the sequence builder *)

(** X23.  The symbol map changes the two Binance pairs of its table only,
    and applying it twice is applying it once. *)
Theorem map_to_yf_symbol_idempotent (s : string) :
  (s <> "BTCUSDT"%string -> s <> "ETHUSDT"%string -> map_to_yf_symbol s = s) /\
  map_to_yf_symbol (map_to_yf_symbol s) = map_to_yf_symbol s.
Proof.
  unfold map_to_yf_symbol, YF_SYMBOL_MAP. simpl.
  destruct (String.eqb_spec s "BTCUSDT") as [->|H1]; [split; [congruence | reflexivity]|].
  destruct (String.eqb_spec s "ETHUSDT") as [->|H2]; [split; [congruence | reflexivity]|].
  split; [reflexivity|].
  destruct (String.eqb_spec s "BTCUSDT"); [contradiction|].
  destruct (String.eqb_spec s "ETHUSDT"); [contradiction | reflexivity].
Qed.

Lemma slice_bound_nonneg n (i : nat) : slice_bound n (Z.of_nat i) = Nat.min i n.
Proof.
  unfold slice_bound. destruct (Z.ltb_spec (Z.of_nat i) 0); lia.
Qed.

Lemma py_slice_window {A} (xs : list A) (i w : nat) :
  py_slice (Z.of_nat i) (Z.of_nat i + Z.of_nat w) xs = firstn w (skipn i xs).
Proof.
  unfold py_slice. rewrite <- Nat2Z.inj_add, !slice_bound_nonneg.
  destruct (Nat.le_gt_cases i (length xs)) as [Hi|Hi].
  - rewrite (Nat.min_l i) by assumption.
    destruct (Nat.le_gt_cases (i + w) (length xs)) as [Hw|Hw].
    + rewrite Nat.min_l by assumption. f_equal. lia.
    + rewrite Nat.min_r by lia.
      rewrite (firstn_all2 (n := w)) by (rewrite length_skipn; lia).
      apply firstn_all2. rewrite length_skipn. lia.
  - rewrite !Nat.min_r by lia. rewrite Nat.sub_diag.
    rewrite (skipn_all2 (n := i)) by lia. now destruct w.
Qed.

Lemma np_getitem_inside xs (k : nat) :
  k < length xs -> np_getitem xs (Z.of_nat k) = inr (nth k xs NaN).
Proof.
  intros Hk. unfold np_getitem.
  destruct (Z.ltb_spec (Z.of_nat k) (- Z.of_nat (length xs))); [lia|].
  destruct (Z.leb_spec (Z.of_nat (length xs)) (Z.of_nat k)); [lia|].
  destruct (Z.ltb_spec (Z.of_nat k) 0); [lia|]. simpl. now rewrite Nat2Z.id.
Qed.

(** The loop over the indices [s, s + k) that stay inside the series. *)
Lemma lstm_windows_inside values (w s k : nat) :
  (0 < k -> s + k + w <= length values) ->
  lstm_windows values (Z.of_nat w) (map Z.of_nat (seq s k))
  = inr (map (fun i => firstn w (skipn i values)) (seq s k),
         map (fun i => nth (i + w) values NaN) (seq s k)).
Proof.
  revert s; induction k as [|k IH]; intros s Hs; [reflexivity|].
  cbn [seq map lstm_windows].
  rewrite <- Nat2Z.inj_add, np_getitem_inside by lia.
  rewrite IH by lia. rewrite Nat2Z.inj_add, py_slice_window. reflexivity.
Qed.

Lemma py_range_0 (b : Z) : py_range 0 b = map Z.of_nat (seq 0 (Z.to_nat b)).
Proof.
  unfold py_range. rewrite Z.sub_0_r. apply map_ext. intros i. lia.
Qed.

Lemma np_array_rows_same (f32 : f64 -> f64) (w : nat) (rows : list (list f64)) :
  Forall (fun r => length r = w) rows ->
  np_array_rows f32 rows = inr (map (map f32) rows).
Proof.
  intros H. unfold np_array_rows. destruct rows as [|r rows]; [reflexivity|].
  replace (forallb _ (r :: rows)) with true; [reflexivity|].
  symmetry. apply forallb_forall. intros r' Hr'. apply Nat.eqb_eq.
  rewrite Forall_forall in H. rewrite (H r' Hr'), (H r); [reflexivity | now left].
Qed.

Lemma create_lstm_sequences_value (f32 : f64 -> f64) values (w : nat) :
  _create_lstm_sequences f32 values (Z.of_nat w)
  = inr (map (fun i => map f32 (firstn w (skipn i values)))
             (seq 0 (length values - w)),
         map (fun i => f32 (nth (i + w) values NaN))
             (seq 0 (length values - w))).
Proof.
  unfold _create_lstm_sequences. rewrite py_range_0.
  replace (Z.to_nat (Z.of_nat (length values) - Z.of_nat w))
    with (length values - w) by lia.
  rewrite lstm_windows_inside by lia.
  rewrite (np_array_rows_same f32 w).
  - unfold np_array_float32. now rewrite !map_map.
  - apply Forall_forall. intros r Hr. apply in_map_iff in Hr as (i & <- & Hi).
    apply in_seq in Hi. rewrite length_firstn, length_skipn. lia.
Qed.

(** X24.  For a window [w >= 0] the sequence builder returns one sample for
    each start [i] with [i + w] inside the series, so [n - w] samples and
    none when the series is not longer than the window; sample [i] is the
    [w] values from [i] on and its target is the value right after them,
    each converted to float32. *)
Theorem create_lstm_sequences_windows (f32 : f64 -> f64) values w :
  (0 <= w)%Z ->
  exists X y,
    _create_lstm_sequences f32 values w = inr (X, y) /\
    length X = length values - Z.to_nat w /\
    length y = length values - Z.to_nat w /\
    forall i, i < length values - Z.to_nat w ->
      length (nth i X []) = Z.to_nat w /\
      (forall j, j < Z.to_nat w ->
         nth j (nth i X []) NaN = f32 (nth (i + j) values NaN)) /\
      nth i y NaN = f32 (nth (i + Z.to_nat w) values NaN).
Proof.
  intros Hw. assert (Hk : w = Z.of_nat (Z.to_nat w)) by lia.
  revert Hk. generalize (Z.to_nat w) as k. intros k ->. clear Hw.
  rewrite create_lstm_sequences_value.
  eexists. eexists. split; [reflexivity|].
  rewrite !length_map, length_seq. split; [reflexivity|]. split; [reflexivity|].
  intros i Hi.
  rewrite (nth_map_in _ _ _ 0) by (rewrite length_seq; lia).
  rewrite (nth_map_in _ _ _ 0) by (rewrite length_seq; lia).
  rewrite seq_nth by lia. cbn [Nat.add].
  split; [rewrite length_map, length_firstn, length_skipn; lia|].
  split; [|reflexivity].
  intros j Hj.
  rewrite (nth_map_in _ _ _ NaN)
    by (rewrite length_firstn, length_skipn; lia).
  rewrite nth_firstn.
  destruct (Nat.ltb_spec j k); [|lia]. now rewrite nth_skipn.
Qed.

Lemma firstn_S_snoc {A} (d : A) k (l : list A) :
  k < length l -> firstn (S k) l = firstn k l ++ [nth k l d].
Proof.
  revert l; induction k as [|k IH]; intros [|x l] Hk; simpl in Hk; try lia.
  - reflexivity.
  - cbn [firstn nth app]. f_equal. apply IH. lia.
Qed.

(** X25.  Consecutive samples slide by one value: a sample is the one before
    it without its first value, followed by the target of the one before. *)
Theorem create_lstm_sequences_slide (f32 : f64 -> f64) values w X y :
  (1 <= w)%Z ->
  _create_lstm_sequences f32 values w = inr (X, y) ->
  forall i, S i < length X ->
    nth (S i) X [] = tl (nth i X []) ++ [nth i y NaN].
Proof.
  intros Hw. assert (Hk : w = Z.of_nat (Z.to_nat w)) by lia.
  assert (Hk1 : 1 <= Z.to_nat w) by lia.
  revert Hk Hk1. generalize (Z.to_nat w) as k. intros k -> Hk1. clear Hw.
  rewrite create_lstm_sequences_value.
  intros [= <- <-] i Hi. rewrite length_map, length_seq in Hi.
  rewrite !(nth_map_in _ _ _ 0) by (rewrite length_seq; lia).
  rewrite !seq_nth by lia. cbn [Nat.add].
  assert (Hs : forall j, j < length values ->
                 skipn j values = nth j values NaN :: skipn (S j) values).
  { clear. induction values as [|v vs IH]; intros j Hj.
    - simpl in Hj. lia.
    - destruct j as [|j]; [reflexivity|]. simpl.
      apply IH. simpl in Hj. lia. }
  destruct k as [|k]; [lia|].
  rewrite (firstn_S_snoc NaN k (skipn (S i) values))
    by (rewrite length_skipn; lia).
  rewrite (Hs i) by lia. cbn [firstn tl map].
  rewrite map_app. cbn [map].
  rewrite nth_skipn. replace (S i + k) with (i + S k) by lia. reflexivity.
Qed.

(** X26.  A negative window that reaches before the start of the series is
    an IndexError of the first target. *)
Theorem create_lstm_sequences_negative_window (f32 : f64 -> f64) values w :
  (w < - Z.of_nat (length values))%Z ->
  _create_lstm_sequences f32 values w = inl IndexError.
Proof.
  intros Hw. unfold _create_lstm_sequences. rewrite py_range_0.
  destruct (Z.to_nat (Z.of_nat (length values) - w)) as [|k] eqn:Ek; [lia|].
  cbn [seq map lstm_windows]. unfold np_getitem.
  destruct (Z.ltb_spec (Z.of_nat 0 + w) (- Z.of_nat (length values))); [reflexivity|lia].
Qed.

(* ------------------------------------------------------------------ *)
(** * Worked examples *)

Lemma sqrt_up_zero (q : Q) : (q == 0)%Q -> (sqrt_up q == 0)%Q.
Proof.
  intros H. unfold sqrt_up. rewrite Qred_correct.
  assert (Hn : Qnum q = 0%Z).
  { unfold Qeq in H. simpl in H. lia. }
  rewrite Hn. reflexivity.
Qed.

Lemma sqrt_up_eq0 (q : Q) : (0 <= q)%Q -> (sqrt_up q == 0)%Q -> (q == 0)%Q.
Proof.
  intros Hq H. unfold sqrt_up in H. rewrite Qred_correct in H.
  unfold Qeq in H. simpl in H. rewrite Z.mul_1_r in H.
  unfold Qle in Hq. simpl in Hq. rewrite Z.mul_1_r in Hq.
  assert (Ha : ~ (0 < Qnum q * Z.pos (Qden q) * 1000000)%Z).
  { intros Hpos. apply Z.sqrt_up_pos in Hpos. lia. }
  unfold Qeq. simpl. nia.
Qed.

Lemma wf_table6 : wf_frame table6.
Proof. repeat constructor. Qed.

(** C1, at the six-row table with [max_lag = 2]. *)
Lemma scan_lags_table_witness :
  exists lags corrs,
    compute_lagged_correlations sqrt_up 0 2 [table6]
    = (inr 1, [table6; [("lag"%string, map of_Z lags);
                        ("correlation"%string, corrs)]]) /\
    Z.of_nat (length lags) = 5%Z /\ StronglySorted Z.lt lags.
Proof.
  destruct (scan_lags_table sqrt_up [table6] 0 table6
              (col [100; 101; 102; 103; 104; 105]%Z)
              (col [1; 1; 2; 2; 3; 3]%Z) 2)
    as (lags & corrs & Hrun & Hlen & _ & Hs & _);
    [reflexivity | exact wf_table6 | reflexivity | reflexivity | lia |].
  exists lags, corrs. repeat split; assumption.
Defined.

(** C2, at a table where the lags 1 and 3 tie on the absolute
    correlation: the smaller lag is returned. *)
Lemma find_best_leading_lag_spec_witness :
  exists r l2,
    find_best_leading_lag 0 [corr_table] = (inr r, [corr_table] ++ l2) /\
    forall b, r = Some b -> lag b = 1%Z.
Proof.
  destruct (find_best_leading_lag_spec [corr_table] 0 corr_table
              [-1; 0; 1; 2; 3]%Z
              [Fin (1 # 2); Fin (9 # 10); Fin (- (7 # 10)); NaN; Fin (7 # 10)])
    as (r & l2 & Hrun & _ & Hsome);
    [reflexivity | repeat constructor | reflexivity | reflexivity |].
  exists r, l2. split; [exact Hrun|].
  intros b Hb. destruct (Hsome b Hb) as (Hin & [Hl Hc] & _ & Htie).
  assert (Hin1 : In (1%Z, Fin (- (7 # 10)))
                   (combine [-1; 0; 1; 2; 3]%Z
                      [Fin (1 # 2); Fin (9 # 10); Fin (- (7 # 10)); NaN; Fin (7 # 10)]))
    by (simpl; auto 10).
  assert (Hq1 : qualifies 1 (Fin (- (7 # 10)))) by (split; [lia | reflexivity]).
  specialize (Htie ltac:(repeat constructor; lia) _ _ Hin1 Hq1).
  simpl in Hin.
  destruct Hin as [E|[E|[E|[E|[E|[]]]]]]; inversion E as [[El Ec]];
    rewrite <- ?El in *; rewrite <- ?Ec in *; try lia; try discriminate.
  specialize (Htie eq_refl). lia.
Defined.

(** C3 fails on the code: horizon 0 is accepted, and a table and metrics
    are returned. *)
Lemma backtest_zero_horizon_returns :
  exists out m h',
    backtest_trend_signal sqrt_up 0 0 (Fin (1 # 2)) 2 [table6]
    = (inr (out, m), h') /\ lag_used m = 0%Z.
Proof.
  eexists. eexists. eexists. split; [vm_compute; reflexivity | reflexivity].
Qed.

(** C3 as the code has it, at horizon -2 on the six-row table. *)
Lemma backtest_nonpositive_horizon_witness :
  exists out m h',
    backtest_trend_signal sqrt_up 0 (-2) (Fin (1 # 2)) 2 [table6]
    = (inr (out, m), h') /\ lag_used m = (-2)%Z.
Proof.
  destruct (backtest_nonpositive_horizon sqrt_up sqrt_up_zero [table6] 0 table6
              (col [1; 2; 3; 4; 5; 6]%Z)
              (col [100; 101; 102; 103; 104; 105]%Z)
              (col [1; 1; 2; 2; 3; 3]%Z) (-2) (Fin (1 # 2)) 2)
    as (out & m & h' & Hrun & Hlag & _);
    [reflexivity | exact wf_table6 | reflexivity | reflexivity | reflexivity
     | reflexivity | lia | simpl; lia |].
  exists out, m, h'. split; assumption.
Defined.

Lemma run_a_returned :
  backtest_trend_signal sqrt_up 0 1 (Fin 0) 2 [table6]
  = (inr (out_a, metrics_a), heap_a).
Proof. vm_compute. reflexivity. Defined.

Lemma run_b_returned :
  backtest_trend_signal sqrt_up 0 1 (Fin 5) 3 [table6]
  = (inr (out_b, metrics_b), heap_b).
Proof. vm_compute. reflexivity. Defined.


(** C5, at that backtest: the benchmark curve compounds the benchmark
    returns. *)
Lemma backtest_equity_witness :
  exists table bh eb,
    nth_error heap_a out_a = Some table /\
    get_col "bh_ret" table = Some bh /\
    get_col "equity_bh" table = Some eb /\
    compounds bh eb.
Proof.
  destruct (backtest_equity sqrt_up [table6] 0 table6
              (col [100; 101; 102; 103; 104; 105]%Z)
              (col [1; 1; 2; 2; 3; 3]%Z) 1 (Fin 0) 2 out_a metrics_a heap_a
              eq_refl wf_table6 eq_refl eq_refl run_a_returned)
    as (table & sr & bh & es & eb & Hn & _ & Hbh & _ & Heb & _ & _ & _ & _ & _ & _ & Hc).
  exists table, bh, eb. auto.
Defined.

(** C6, at two backtests that differ in threshold and window. *)
Lemma backtest_benchmark_invariant_witness :
  total_return_bh metrics_a = total_return_bh metrics_b.
Proof.
  destruct (backtest_benchmark_invariant sqrt_up [table6] 0 table6
              (col [100; 101; 102; 103; 104; 105]%Z)
              (col [1; 1; 2; 2; 3; 3]%Z) 1 (Fin 0) 2 (Fin 5) 3
              out_a metrics_a heap_a out_b metrics_b heap_b
              eq_refl wf_table6 eq_refl eq_refl run_a_returned run_b_returned)
    as (t1 & t2 & bh & eq & _ & _ & _ & _ & _ & _ & _ & _ & Htot).
  exact Htot.
Defined.


(** Six prices are fewer than the 19 rows that the default windows 5 and
    20 leave incomplete: no row is left. *)
Lemma compute_volatility_features_short_input :
  exists out table h',
    compute_volatility_features sqrt_up log_approx 0 5 20 [prices6]
    = (inr out, h') /\
    nth_error h' out = Some table /\
    nrows table = 0.
Proof.
  eexists. eexists. eexists.
  split; [vm_compute; reflexivity|].
  split; [vm_compute; reflexivity | reflexivity].
Qed.


Lemma run_m_returned :
  xgboost_vol_forecast_with sqrt_up f64 mean_fit mean_predict sub64 mul64
                            0 1 (Fin (1 # 5)) [features8]
  = (inr (out_m, metrics_m, model_m), heap_m).
Proof. vm_compute. reflexivity. Defined.

(** C8 fails as the spec states it.  Ten rows of the thirteen-row table
    enter the evaluation, and the floor of [10 * (1 - 9/10)] is 1.  In
    float64 the nearest number to 9/10 is a little above it, [1 - 0.9] is
    [0.09999999999999998] and ten times that is [0.9999999999999998]: the
    split index is 0, the regressor is fitted on no row, and all ten rows
    are test rows. *)
Lemma xgboost_split_is_rounded :
  Qfloor (inject_Z 10 * (1 - (9 # 10))) = 1%Z /\
  py_int (mul64 (of_nat 10) (sub64 (Fin 1) (Fin (9 # 10)))) = inr 0%Z /\
  exists table,
    xgboost_vol_forecast_with sqrt_up training_set keep_fit keep_predict
                              sub64 mul64 0 1 (Fin (9 # 10)) [features13]
    = (inr (out_s, metrics_s, ([], [])), heap_s) /\
    nth_error heap_s out_s = Some table /\
    nrows table = 10.
Proof.
  split; [vm_compute; reflexivity|].
  split; [vm_compute; reflexivity|].
  eexists. split; [vm_compute; reflexivity|].
  split; [vm_compute; reflexivity | vm_compute; reflexivity].
Qed.

(** C8, at the evaluation of the eight-row table in float64: five rows
    enter, the split index is 4, four rows train and one tests. *)
Lemma xgboost_vol_forecast_spec_witness :
  exists (kept : list nat) (split : Z),
    StronglySorted lt kept /\
    (forall t, In t kept -> 2 <= t) /\
    py_int (mul64 (of_nat (length kept)) (sub64 (Fin 1) (Fin (1 # 5))))
    = inr split /\
    slice_bound (length kept) split <= length kept.
Proof.
  destruct (xgboost_vol_forecast_spec sqrt_up f64 mean_fit mean_predict
              [features8] 0 features8
              (col [0; 1; -2; 3; -1; 2; -3; 1]%Z)
              (col [2; 3; 2; 4; 3; 5; 4; 3]%Z)
              (col [3; 3; 3; 4; 4; 4; 5; 5]%Z) 1 sub64 mul64 (Fin (1 # 5))
              out_m metrics_m model_m heap_m
              eq_refl ltac:(repeat constructor) eq_refl eq_refl eq_refl
              run_m_returned)
    as (kept & split & table & Hs & Hk & Hpy & _ & Hle & _).
  exists kept, split. repeat split; auto. intros t Ht. apply (Hk t Ht).
Defined.

(** C10, at a feature table whose forecast column is undefined. *)
Lemma naive_vol_forecast_no_valid_row_witness :
  exists l3 valid,
    naive_vol_forecast sqrt_up 0 1 [features_undefined]
    = (inr (3, {| MAE := NaN; RMSE := NaN |}), [features_undefined] ++ l3) /\
    nth_error ([features_undefined] ++ l3) 3 = Some valid /\
    nrows valid = 0.
Proof.
  destruct (naive_vol_forecast_no_valid_row sqrt_up [features_undefined] 0
              features_undefined (col [0; 1; -1]%Z) [NaN; NaN; NaN] 1)
    as (l3 & valid & Hrun & Hn & Hrows & _);
    [reflexivity | repeat constructor | reflexivity | reflexivity | |].
  - intros i Hi. right. simpl in Hi.
    destruct i as [|[|[|i]]]; [reflexivity | reflexivity | reflexivity | lia].
  - exists l3, valid. auto.
Defined.

(** X1, at horizon 6 on the six-row table. *)
Lemma backtest_horizon_too_long_witness :
  exists h',
    backtest_trend_signal sqrt_up 0 6 (Fin (1 # 2)) 2 [table6]
    = (inl IndexError, h').
Proof.
  apply (backtest_horizon_too_long sqrt_up [table6] 0 table6 close6 trend6 6
           (Fin (1 # 2)) 2);
    [reflexivity | exact wf_table6 | reflexivity | reflexivity | lia
     | simpl; lia].
Defined.

(** X2, with a rolling window of -1. *)
Lemma backtest_negative_window_witness :
  exists h', backtest_trend_signal sqrt_up 0 1 (Fin 0) (-1) [table6]
             = (inl ValueError, h').
Proof.
  apply (backtest_negative_window sqrt_up [table6] 0 table6 close6 trend6 1
           (Fin 0) (-1));
    [reflexivity | reflexivity | reflexivity | lia].
Defined.

(** X3, at horizon 2 on the six-row table: four rows. *)
Lemma backtest_rows_witness :
  exists out m h' table,
    backtest_trend_signal sqrt_up 0 2 (Fin (1 # 2)) 2 [table6]
    = (inr (out, m), h') /\
    nth_error h' out = Some table /\ lag_used m = 2%Z /\ nrows table = 4.
Proof.
  destruct (backtest_rows sqrt_up [table6] 0 table6 dates6 close6 trend6 2
              (Fin (1 # 2)) 2)
    as (out & m & h' & table & bh & Hrun & Hn & Hl & Hr & _);
    [reflexivity | exact wf_table6 | reflexivity | reflexivity | reflexivity
     | reflexivity | lia | simpl; lia |].
  exists out, m, h', table. auto.
Defined.

(** X4, at the backtest of the six-row table at horizon 1. *)
Lemma backtest_trade_count_witness :
  exists table sig,
    nth_error heap_a out_a = Some table /\
    get_col "signal" table = Some sig /\
    n_trades_periods metrics_a = Z.of_nat (length (filter in_market sig)).
Proof.
  destruct (backtest_trade_count sqrt_up [table6] 0 table6 close6 trend6 1
              (Fin 0) 2 out_a metrics_a heap_a
              eq_refl wf_table6 eq_refl eq_refl run_a_returned)
    as (table & sig & Hn & Hs & Hc & _).
  exists table, sig. auto.
Defined.

(** X5, on the table whose indicator never rises. *)
Lemma backtest_flat_indicator_witness :
  exists out m h',
    backtest_trend_signal sqrt_up 0 1 (Fin 0) 2 [table6_falling]
    = (inr (out, m), h') /\
    n_trades_periods m = 0%Z /\ sharpe_like m = NaN.
Proof.
  destruct (backtest_flat_indicator sqrt_up sqrt_up_zero [table6_falling] 0
              table6_falling dates6 close6 falling6 1 (Fin 0) 2)
    as (out & m & h' & table & es & Hrun & _ & _ & _ & _ & _ & _ & Hc & Hs);
    [reflexivity | repeat constructor | reflexivity | reflexivity | reflexivity
     | vm_compute; reflexivity | lia | simpl; lia | |].
  - intros i Hi. simpl in Hi.
    destruct i as [|[|[|[|[|i]]]]]; try reflexivity. lia.
  - exists out, m, h'. auto.
Defined.

(** X6, on the six-row table: from 100 to 105. *)
Lemma backtest_one_step_total_witness :
  exists out m h' a b,
    backtest_trend_signal sqrt_up 0 1 (Fin (1 # 2)) 2 [table6]
    = (inr (out, m), h') /\
    nth 0 close6 NaN = Fin a /\ nth 5 close6 NaN = Fin b /\
    feq (total_return_bh m) (Fin (b / a - 1)%Q).
Proof.
  apply (backtest_one_step_total sqrt_up [table6] 0 table6 dates6 close6 trend6
           (Fin (1 # 2)) 2);
    [reflexivity | exact wf_table6 | reflexivity | reflexivity | reflexivity
     | reflexivity | lia | simpl; lia].
Defined.

(** X7, at the backtest of the six-row table at horizon 1. *)
Lemma backtest_equity_not_negative_witness :
  exists table es eb,
    nth_error heap_a out_a = Some table /\
    get_col "equity_strategy" table = Some es /\
    get_col "equity_bh" table = Some eb /\
    Forall (fun e => flt e (Fin 0) = false) es /\
    Forall (fun e => flt e (Fin 0) = false) eb.
Proof.
  destruct (backtest_equity_not_negative sqrt_up [table6] 0 table6 close6 trend6 1
              (Fin 0) 2 out_a metrics_a heap_a
              eq_refl wf_table6 eq_refl eq_refl eq_refl run_a_returned)
    as (table & es & eb & Hn & H1 & H2 & H3 & H4 & _).
  exists table, es, eb. auto.
Defined.
(** X8, on the six-row table with [max_lag = 2]. *)
Lemma scan_correlations_bounded_witness :
  exists out h' table corrs,
    compute_lagged_correlations sqrt_up 0 2 [table6] = (inr out, h') /\
    nth_error h' out = Some table /\
    get_col "correlation" table = Some corrs /\
    Forall (fun c => c = NaN \/ exists q, c = Fin q /\ (-1 <= q <= 1)%Q) corrs.
Proof.
  apply (scan_correlations_bounded sqrt_up [table6] 0 table6 close6 trend6 2);
    [reflexivity | exact wf_table6 | reflexivity | reflexivity | lia].
Defined.

(** X9, on the six-row table with [max_lag = 2]. *)
Lemma scan_then_best_witness :
  exists r h',
    (corr_df <- compute_lagged_correlations sqrt_up 0 2 ;;
     find_best_leading_lag corr_df) [table6] = (inr r, h') /\
    forall b, r = Some b -> (1 <= lag b <= 2)%Z.
Proof.
  destruct (scan_then_best sqrt_up [table6] 0 table6 close6 trend6 2)
    as (r & h' & Hrun & Hsome & _);
    [reflexivity | exact wf_table6 | reflexivity | reflexivity | lia |].
  exists r, h'. split; [exact Hrun|]. intros b Hb. apply (Hsome b Hb).
Defined.

(** X10, on the six-row table with [max_lag = -1]. *)
Lemma scan_negative_max_lag_witness :
  (corr_df <- compute_lagged_correlations sqrt_up 0 (-1) ;;
   find_best_leading_lag corr_df) [table6] = (inl KeyError, [table6] ++ [[]]).
Proof.
  apply (scan_negative_max_lag sqrt_up [table6] 0 table6 close6 trend6 (-1));
    [reflexivity | exact wf_table6 | reflexivity | reflexivity | lia].
Defined.

(** X11, on the frame of the price loader, which has no price column. *)
Lemma alternative_data_missing_column_witness :
  (exists h', compute_lagged_correlations sqrt_up 0 2 [prices6]
              = (inl KeyError, h')) /\
  (exists h', backtest_trend_signal sqrt_up 0 1 (Fin 0) 2 [prices6]
              = (inl KeyError, h')).
Proof.
  apply (alternative_data_missing_column sqrt_up [prices6] 0 prices6 2 1 (Fin 0) 2);
    [reflexivity | left; reflexivity].
Defined.

(** X12, on the lag-correlation table with a tie. *)
Lemma find_best_leading_lag_reads_only_witness :
  nth_error (snd (find_best_leading_lag 0 [corr_table])) 0 = Some corr_table.
Proof.
  apply find_best_leading_lag_reads_only. reflexivity.
Defined.

(** X13, on the six-row table with [max_lag = 2]. *)
Lemma scan_best_backtest_witness :
  exists res h',
    (corr_df <- compute_lagged_correlations sqrt_up 0 2 ;;
     best <- find_best_leading_lag corr_df ;;
     match best with
     | None => ret None
     | Some b =>
         r <- backtest_trend_signal sqrt_up 0 (lag b) (Fin (1 # 2)) 3 ;;
         ret (Some (b, r))
     end) [table6] = (inr res, h') /\
    forall b out m, res = Some (b, (out, m)) -> lag_used m = lag b.
Proof.
  destruct (scan_best_backtest sqrt_up [table6] 0 table6 dates6 close6 trend6 2
              (Fin (1 # 2)) 3)
    as (res & h' & Hrun & _ & Hsome);
    [reflexivity | exact wf_table6 | reflexivity | reflexivity | reflexivity
     | reflexivity | lia | lia |].
  exists res, h'. split; [exact Hrun|].
  intros b out m Hb. apply (Hsome b out m Hb).
Defined.

(** X14, with windows 2 and 3 on six prices. *)
Lemma compute_volatility_features_no_nan_witness :
  exists out h' table,
    compute_volatility_features sqrt_up log_approx 0 2 3 [prices6]
    = (inr out, h') /\
    nth_error h' out = Some table /\
    Forall (fun cv : string * column => forallb notna (snd cv) = true) table.
Proof.
  destruct (compute_volatility_features_no_nan sqrt_up log_approx [prices6] 0
              dates6 close6 2 3)
    as (out & h' & table & Hrun & Hn & _ & Hall);
    [reflexivity | reflexivity | lia | lia |].
  exists out, h', table. auto.
Defined.

(** X15, with a short window of 1 on six prices. *)
Lemma compute_volatility_features_short_window_witness :
  exists out h' table,
    compute_volatility_features sqrt_up log_approx 0 1 2 [prices6]
    = (inr out, h') /\
    nth_error h' out = Some table /\ nrows table = 0.
Proof.
  destruct (compute_volatility_features_short_window sqrt_up log_approx
              [prices6] 0 dates6 close6 1 2)
    as (out & h' & table & Hrun & Hn & Hr & _);
    [reflexivity | reflexivity | lia | lia | left; lia |].
  exists out, h', table. auto.
Defined.

(** X16, with a short window of -1. *)
Lemma compute_volatility_features_negative_window_witness :
  exists h', compute_volatility_features sqrt_up log_approx 0 (-1) 2 [prices6]
             = (inl ValueError, h').
Proof.
  apply (compute_volatility_features_negative_window sqrt_up log_approx
           [prices6] 0 dates6 close6 (-1) 2);
    [reflexivity | left; lia].
Defined.
Lemma wf_features8 : wf_frame features8.
Proof. repeat constructor. Qed.

(** X17, on the eight-row feature table at horizon 1: seven valid rows. *)
Lemma naive_vol_forecast_valid_rows_witness :
  exists out metrics h' a fc,
    naive_vol_forecast sqrt_up 0 1 [features8] = (inr (out, metrics), h') /\
    length a = 7 /\
    mean_absolute_error a fc = inr (MAE metrics).
Proof.
  destruct (naive_vol_forecast_valid_rows sqrt_up [features8] 0 features8
              dates8 ret8 vol_long8 1)
    as (out & metrics & h' & a & fc & Hrun & _ & Ha & _ & _ & _ & Hmae & _);
    [reflexivity | exact wf_features8 | reflexivity | reflexivity | reflexivity
     | vm_compute; discriminate | |].
  - intros t Ht. vm_compute in Ht.
    repeat (destruct Ht as [<-|Ht]; [split; reflexivity|]). contradiction.
  - exists out, metrics, h', a, fc. split; [exact Hrun|].
    split; [rewrite Ha; reflexivity | exact Hmae].
Defined.

(** X18, on the feature table with an infinite return: the target of its
    second row is infinite. *)
Lemma naive_vol_forecast_infinite_value_witness :
  exists h', naive_vol_forecast sqrt_up 0 1 [features_inf] = (inl ValueError, h').
Proof.
  apply (naive_vol_forecast_infinite_value sqrt_up [features_inf] 0 features_inf
           [Fin 0; Fin 1; NInf] (col [2; 2; 2]%Z) 1 1);
    [reflexivity | repeat constructor | reflexivity | reflexivity
     | vm_compute; auto | left; reflexivity].
Defined.

(** X19, on the eight-row feature table at horizon 1. *)
Lemma naive_vol_forecast_clean_witness :
  exists out metrics h' table,
    naive_vol_forecast sqrt_up 0 1 [features8] = (inr (out, metrics), h') /\
    nth_error h' out = Some table /\ nrows table = 7 /\
    isnan (MAE metrics) = false.
Proof.
  destruct (naive_vol_forecast_clean sqrt_up [features8] 0 features8
              dates8 ret8 vol_long8 1)
    as (out & metrics & h' & table & Hrun & Hn & Hr & _ & _ & Hfin);
    [reflexivity | exact wf_features8 | reflexivity | reflexivity | reflexivity
     | reflexivity | reflexivity | lia |].
  exists out, metrics, h', table.
  split; [exact Hrun|]. split; [exact Hn|]. split; [exact Hr|].
  apply Hfin. simpl. lia.
Defined.

(** X20, with windows 2 and 3 and horizon 1 on six prices: four feature
    rows, three evaluated. *)
Lemma features_then_naive_witness :
  exists out metrics h' table,
    (df <- compute_volatility_features sqrt_up log_approx 0 2 3 ;;
     naive_vol_forecast sqrt_up df 1) [prices6] = (inr (out, metrics), h') /\
    nth_error h' out = Some table /\ nrows table = 3.
Proof.
  destruct (features_then_naive sqrt_up log_approx [prices6] 0 dates6 close6
              2 3 1)
    as (out & metrics & h' & table & Hrun & Hn & Hr & _);
    [reflexivity | reflexivity | reflexivity | vm_compute; reflexivity
     | lia | lia | lia |].
  exists out, metrics, h', table. auto.
Defined.

(** X21, on the eight-row feature table with a test fraction of 0. *)
Lemma xgboost_vol_forecast_no_test_row_witness :
  exists e h',
    xgboost_vol_forecast sqrt_up f64 mean_fit mean_predict 0 1 (Fin 0) [features8]
    = (inl e, h').
Proof.
  apply (xgboost_vol_forecast_no_test_row sqrt_up f64 mean_fit mean_predict
           [features8] 0 features8 ret8 vol_short8 vol_long8 1 (Fin 0));
    [reflexivity | exact wf_features8 | reflexivity | reflexivity | reflexivity
     | right; reflexivity].
Defined.

(** X22, on the frame of the price loader, which has no return column. *)
Lemma volatility_missing_column_witness :
  (exists h', naive_vol_forecast sqrt_up 0 1 [prices6] = (inl KeyError, h')) /\
  (exists h',
     xgboost_vol_forecast sqrt_up f64 mean_fit mean_predict 0 1 (Fin (1 # 5))
                          [prices6]
     = (inl KeyError, h')).
Proof.
  apply (volatility_missing_column sqrt_up f64 mean_fit mean_predict
           [prices6] 0 prices6 1 (Fin (1 # 5)));
    [reflexivity | left; reflexivity].
Defined.
(** The conversion keeps the integers below [2^24] and rounds
    [2^24 + 1] to [2^24]; [2^128] is beyond single precision. *)
Lemma to_float32_examples :
  map to_float32 series5 = series5 /\
  to_float32 (of_Z 16777217) = of_Z 16777216 /\
  to_float32 (of_Z (2 ^ 128)) = PInf /\
  to_float32 (Fin (1 # 10)) = Fin (13421773 # 134217728).
Proof. vm_compute. repeat split; reflexivity. Qed.

(** X24, on a series of five values with a window of two. *)
Lemma create_lstm_sequences_windows_witness :
  exists X y,
    _create_lstm_sequences to_float32 series5 2 = inr (X, y) /\
    length X = 3 /\ length y = 3.
Proof.
  destruct (create_lstm_sequences_windows to_float32 series5 2)
    as (X & y & H & HX & Hy & _); [lia|].
  exists X, y. split; [exact H|]. split; [exact HX | exact Hy].
Defined.

(** X25, on the same series. *)
Lemma create_lstm_sequences_slide_witness :
  nth 1 [col [1; 2]; col [2; 3]; col [3; 4]]%Z []
  = tl (nth 0 [col [1; 2]; col [2; 3]; col [3; 4]]%Z []) ++ [nth 0 (col [3; 4; 5]%Z) NaN].
Proof.
  apply (create_lstm_sequences_slide to_float32 series5 2
           [col [1; 2]; col [2; 3]; col [3; 4]]%Z (col [3; 4; 5]%Z));
    [lia | vm_compute; reflexivity | simpl; lia].
Defined.

(** X26, with a window of -3 on two values. *)
Lemma create_lstm_sequences_negative_window_witness :
  _create_lstm_sequences to_float32 (col [1; 2]%Z) (-3) = inl IndexError.
Proof.
  apply create_lstm_sequences_negative_window. simpl. lia.
Defined.
